(** * ExpenseTracker (src/script.js): a shallow embedding and its properties

    The tracker keeps an array of transactions and an array of categories
    in memory, mirrors the transactions into [localStorage] as JSON text,
    and derives three totals from the amounts.

    The file has four parts:
    - [JS]: the pieces of the JavaScript runtime the class calls
      (strings as sequences of UTF-16 code units, binary64 numbers,
      [String.prototype.trim], [parseFloat], [Number::toString],
      [Number.prototype.toFixed], [JSON.stringify], [JSON.parse]);
    - [Tracker]: the methods of [class ExpenseTracker], one definition per
      method, with the fields of [this], the clock and [localStorage]
      passed explicitly, and the runs of the page: first with a browser
      that accepts every write to the store, then with one that may
      refuse a write, and the constructor on whatever the store holds;
    - [Text]: the vocabulary in which the properties of number and JSON
      text are stated;
    - the properties: the paths of [addTransaction], removal, totals,
      identifiers and categories first; then that decimal text written
      for a Number reads back as that Number, that JSON text written for
      a value reads back as that value, and what follows for the stored
      snapshot; last, how the view and the store follow the ledger, what
      the form does with the kind, the category and the sign of the
      amount, what the list and the summaries show, what the constructor
      does when the page is opened again, and how a submission ends when
      the store refuses the write. *)

From Stdlib Require Import ZArith NArith QArith Qreduction List Bool Lia.
From Stdlib Require Import Ascii String SpecFloat.
From stdpp Require Import gmap list.
Import ListNotations.

Close Scope Q_scope.
Local Open Scope Z_scope.

(* ===================================================================== *)
(** ** The JavaScript runtime                                             *)
(* ===================================================================== *)

Module JS.

(** *** Strings

    A JavaScript string is a finite sequence of 16-bit code units. *)

Abbreviation code_unit := N (only parsing).
Abbreviation jsstring := (list N) (only parsing).

(** [lit "abc"] is the JavaScript string literal ['abc'] (ASCII only). *)
Definition lit (s : string) : jsstring :=
  List.map N_of_ascii (list_ascii_of_string s).

(** [a === b] on strings. *)
Definition jsstring_eqb (a b : jsstring) : bool :=
  bool_decide (a = b).

(** ToBoolean on a string: only the empty string is falsy. *)
Definition string_truthy (s : jsstring) : bool :=
  match s with [] => false | _ => true end.

(** WhiteSpace and LineTerminator code units (ECMA-262, 12.2 and 12.3):
    TAB, LF, VT, FF, CR, SP, NBSP, U+1680, U+2000..U+200A, LS, PS,
    U+202F, U+205F, U+3000 and ZWNBSP. *)
Definition is_white_space (c : code_unit) : bool :=
  ((9 <=? c) && (c <=? 13) || (c =? 32) || (c =? 160) || (c =? 5760)
   || (8192 <=? c) && (c <=? 8202) || (c =? 8232) || (c =? 8233)
   || (c =? 8239) || (c =? 8287) || (c =? 12288) || (c =? 65279))%N.

(** [String.prototype.trimStart]. *)
Fixpoint trim_start (s : jsstring) : jsstring :=
  match s with
  | c :: s' => if is_white_space c then trim_start s' else s
  | [] => []
  end.

(** [String.prototype.trimEnd]. *)
Definition trim_end (s : jsstring) : jsstring :=
  rev (trim_start (rev s)).

(** [String.prototype.trim]. *)
Definition trim (s : jsstring) : jsstring :=
  trim_end (trim_start s).

(** *** Numbers

    A JavaScript Number is an IEEE 754 binary64 value; [spec_float] with
    precision 53 and maximal exponent 1024 is exactly that (one NaN). *)

Definition number := spec_float.

Definition prec : Z := 53.
Definition emax : Z := 1024.

Definition NaN : number := S754_nan.
Definition Infinity : number := S754_infinity false.
Definition zero : number := S754_zero false.

Definition number_valid (x : number) : bool := valid_binary prec emax x.

Definition is_finite (x : number) : bool :=
  match x with
  | S754_zero _ | S754_finite _ _ _ => true
  | _ => false
  end.

(** The global [isNaN] applied to a Number. *)
Definition isNaN (x : number) : bool :=
  match x with S754_nan => true | _ => false end.

(** [Math.abs]. *)
Definition Math_abs (x : number) : number := SFabs x.

(** Unary minus. *)
Definition neg (x : number) : number := SFopp x.

(** [x + y] on Numbers. *)
Definition add (x y : number) : number := SFadd prec emax x y.

(** [x < y] and [x > y] on Numbers (false as soon as one side is NaN). *)
Definition lt (x y : number) : bool := SFltb x y.
Definition gt (x y : number) : bool := SFltb y x.

(** The Number value of the quotient [p / q] of two positive integers:
    the binary64 value nearest to it, ties to even, with overflow to
    infinity and underflow to zero (the IEEE division of [p] by [q], both
    taken exactly). *)
Definition round_ratio (sign : bool) (p q : positive) : number :=
  SFdiv prec emax (S754_finite sign p 0) (S754_finite false q 0).

(** The Number value of a rational [x >= 0] with the given sign: the
    fraction is put in lowest terms and then rounded. *)
Definition round_Q (sign : bool) (x : Q) : number :=
  match Qnum (Qred x) with
  | Zpos p => round_ratio sign p (Qden (Qred x))
  | _ => S754_zero sign
  end.

(** The mathematical value [digits * 10^exp10]. *)
Definition decimal_Q (digits exp10 : Z) : Q :=
  if 0 <=? exp10 then inject_Z (digits * 10 ^ exp10)
  else Qmake digits (Z.to_pos (10 ^ (- exp10))).

(** The Number value of the decimal [(-1)^sign * digits * 10^exp10]
    (RoundMVResult of ECMA-262). *)
Definition of_decimal (sign : bool) (digits : Z) (exp10 : Z) : number :=
  round_Q sign (decimal_Q digits exp10).

(** The Number value of an integer. *)
Definition of_Z (n : Z) : number := of_decimal (n <? 0) (Z.abs n) 0.

(** Structural identity of two Numbers (the SameValue of ECMA-262 on
    canonical representations). *)
#[global] Instance number_eq_dec : EqDecision number.
Proof. solve_decision. Defined.

Definition same_value (x y : number) : bool := bool_decide (x = y).

(** *** Decimal digits *)

Definition is_digit (c : code_unit) : bool := ((48 <=? c) && (c <=? 57))%N.

Definition digit_unit (d : Z) : code_unit := Z.to_N (48 + d).

(** The value of a run of decimal digits, most significant first. *)
Definition digits_value (ds : jsstring) : Z :=
  fold_left (fun acc c => 10 * acc + (Z.of_N c - 48)) ds 0.

(** The longest run of decimal digits at the head of [s], and the rest. *)
Fixpoint take_digits (s : jsstring) : jsstring * jsstring :=
  match s with
  | c :: s' =>
      if is_digit c
      then let '(ds, r) := take_digits s' in (c :: ds, r)
      else ([], s)
  | [] => ([], [])
  end.

(** The decimal digits of [n >= 0] in front of [acc], most significant
    first; [fuel] bounds the number of digits. *)
Fixpoint digits_onto (fuel : nat) (n : Z) (acc : jsstring) : jsstring :=
  match fuel with
  | O => acc
  | S fuel' =>
      let acc' := digit_unit (n mod 10) :: acc in
      if n <? 10 then acc' else digits_onto fuel' (n / 10) acc'
  end.

(** The decimal representation of [n >= 0] without leading zeros
    (["0"] for zero). *)
Definition digits_of (n : Z) : jsstring :=
  digits_onto (S (Z.to_nat (Z.log2 n))) n [].

(** *** parseFloat *)

(** A parsed StrUnsignedDecimalLiteral: [Infinity], or the mathematical
    value [digits * 10^exp10]. *)
Variant literal :=
  | LInfinity
  | LDecimal (digits exp10 : Z).

Definition starts_with (p s : jsstring) : bool :=
  bool_decide (take (length p) s = p).

(** The rest of [s] after its first code unit when that is [c]. *)
Definition eat (c : code_unit) (s : jsstring) : option jsstring :=
  match s with
  | d :: r => if (d =? c)%N then Some r else None
  | [] => None
  end.

(** An optional sign at the head of [s]: whether it is a minus, and the
    rest. *)
Definition eat_sign (s : jsstring) : bool * jsstring :=
  match eat 43 s with
  | Some r => (false, r)
  | None =>
      match eat 45 s with
      | Some r => (true, r)
      | None => (false, s)
      end
  end.

(** ExponentPart, when one is present at the head of [s]: its value and
    the rest; otherwise exponent 0 and [s] untouched. *)
Definition scan_exponent (s : jsstring) : Z * jsstring :=
  match s with
  | c :: s1 =>
      if ((c =? 101) || (c =? 69))%N then
        let '(minus, s2) := eat_sign s1 in
        let '(ds, r) := take_digits s2 in
        match ds with
        | [] => (0, s)
        | _ => ((if minus then - digits_value ds else digits_value ds), r)
        end
      else (0, s)
  | [] => (0, s)
  end.

(** The longest prefix of [s] that is a StrUnsignedDecimalLiteral:
    [Infinity], [DecimalDigits . DecimalDigits? ExponentPart?],
    [. DecimalDigits ExponentPart?] or [DecimalDigits ExponentPart?]. *)
Definition scan_unsigned_literal (s : jsstring) : option literal :=
  if starts_with (lit "Infinity") s then Some LInfinity
  else
    let '(ip, r1) := take_digits s in
    match eat 46 r1 with
    | Some r1' =>
        let '(fp, r2) := take_digits r1' in
        match ip, fp with
        | [], [] => None
        | _, _ =>
            let '(e, _) := scan_exponent r2 in
            Some (LDecimal (digits_value (ip ++ fp)) (e - Z.of_nat (length fp)))
        end
    | None =>
        match ip with
        | [] => None
        | _ => let '(e, _) := scan_exponent r1 in Some (LDecimal (digits_value ip) e)
        end
    end.

(** The global [parseFloat] applied to a string: leading white space is
    skipped, the longest prefix that is a StrDecimalLiteral is converted,
    and NaN is returned when there is no such prefix. *)
Definition parseFloat (s : jsstring) : number :=
  let '(minus, u) := eat_sign (trim_start s) in
  match scan_unsigned_literal u with
  | None => NaN
  | Some LInfinity => S754_infinity minus
  | Some (LDecimal d e) => of_decimal minus d e
  end.

(** *** Number::toString (radix 10) *)

(** The exact value [m * 2^e] of a finite Number as a fraction. *)
Definition exact_ratio (m : positive) (e : Z) : Z * Z :=
  if 0 <=? e then (Zpos m * 2 ^ e, 1) else (Zpos m, 2 ^ (- e)).

(** The exact value [m * 2^e] as a decimal [digits * 10^exp10]. *)
Definition exact_decimal (m : positive) (e : Z) : Z * Z :=
  if 0 <=? e then (Zpos m * 2 ^ e, 0) else (Zpos m * 5 ^ (- e), e).

(** The number of decimal digits of [n > 0]. *)
Definition ndigits (n : Z) : Z := Z.of_nat (length (digits_of n)).

(** The decimal magnitude of [p / q]: the [N] with
    [10^(N-1) <= p/q < 10^N]. *)
Definition magnitude10 (p q : Z) : Z :=
  let d := ndigits p - ndigits q in
  let above := if 0 <=? d then q * 10 ^ d <=? p else q <=? p * 10 ^ (- d) in
  if above then d + 1 else d.

(** [p/q * 10^j] as a fraction. *)
Definition scale10 (p q j : Z) : Z * Z :=
  if 0 <=? j then (p * 10 ^ j, q) else (p, q * 10 ^ (- j)).

(** The search of Number::toString: the least [k >= k0] for which a
    decimal of [k] digits has Number value [x = m * 2^e], as
    [(digits, exp10)]; of the two neighbours of [x] with [k] digits it
    takes the one that maps to [x], the closer one when both do and the
    even one when they are equally close. *)
Fixpoint shortest_from (fuel : nat) (k : Z) (m : positive) (e : Z)
    (mag : Z) : Z * Z :=
  match fuel with
  | O => exact_decimal m e
  | S fuel' =>
      let x := S754_finite false m e in
      let '(p, q) := exact_ratio m e in
      let '(a, b) := scale10 p q (k - mag) in
      let lo := a / b in
      let hi := lo + 1 in
      let ok_lo := same_value (of_decimal false lo (mag - k)) x in
      let ok_hi := same_value (of_decimal false hi (mag - k)) x in
      if ok_lo && ok_hi then
        match 2 * (a mod b) ?= b with
        | Lt => (lo, mag - k)
        | Gt => (hi, mag - k)
        | Eq => if Z.even lo then (lo, mag - k) else (hi, mag - k)
        end
      else if ok_lo then (lo, mag - k)
      else if ok_hi then (hi, mag - k)
      else shortest_from fuel' (k + 1) m e mag
  end.

Definition shortest_decimal (m : positive) (e : Z) : Z * Z :=
  let '(p, q) := exact_ratio m e in
  shortest_from (length (digits_of (fst (exact_decimal m e)))) 1 m e
    (magnitude10 p q).

(** Trailing zeros of the digits moved into the exponent. *)
Fixpoint strip_zeros (fuel : nat) (s e : Z) : Z * Z :=
  match fuel with
  | O => (s, e)
  | S fuel' =>
      if (s mod 10 =? 0) && negb (s =? 0)
      then strip_zeros fuel' (s / 10) (e + 1)
      else (s, e)
  end.

Definition zeros (n : Z) : jsstring := repeat 48%N (Z.to_nat n).

(** The text of the positive decimal [s * 10^e]: steps 6 to 10 of
    Number::toString, with [k] the number of digits of [s] and
    [n = e + k]. *)
Definition format_decimal (s0 e0 : Z) : jsstring :=
  let '(s, e) := strip_zeros (Z.to_nat (Z.log2 s0)) s0 e0 in
  let ds := digits_of s in
  let k := Z.of_nat (length ds) in
  let n := e + k in
  if (k <=? n) && (n <=? 21) then ds ++ zeros (n - k)
  else if (0 <? n) && (n <=? 21) then
    take (Z.to_nat n) ds ++ lit "." ++ drop (Z.to_nat n) ds
  else if (-6 <? n) && (n <=? 0) then
    lit "0." ++ zeros (- n) ++ ds
  else
    let ex := (if 0 <? n - 1 then lit "+" else lit "-") ++ digits_of (Z.abs (n - 1)) in
    if k =? 1 then ds ++ lit "e" ++ ex
    else take 1 ds ++ lit "." ++ drop 1 ds ++ lit "e" ++ ex.

(** Number::toString(x, 10). *)
Definition Number_toString (x : number) : jsstring :=
  match x with
  | S754_nan => lit "NaN"
  | S754_zero _ => lit "0"
  | S754_infinity s => (if s then lit "-" else []) ++ lit "Infinity"
  | S754_finite s m e =>
      let '(d, e10) := shortest_decimal m e in
      (if s then lit "-" else []) ++ format_decimal d e10
  end.

(** *** Number.prototype.toFixed(2) *)

(** [x.toFixed(2)]: for a finite [x] below [10^21] in magnitude, the
    integer [n] nearest to [100 * |x|] (the larger one on a tie), printed
    with two fraction digits. *)
Definition toFixed2 (x : number) : jsstring :=
  match x with
  | S754_zero _ => lit "0.00"
  | S754_finite s m e =>
      let '(p, q) := exact_ratio m e in
      if 10 ^ 21 * q <=? p then Number_toString x
      else
        let n := (200 * p + q) / (2 * q) in
        let ds := digits_of n in
        let ds := zeros (3 - Z.of_nat (length ds)) ++ ds in
        let cut := (length ds - 2)%nat in
        (if s then lit "-" else []) ++ take cut ds ++ lit "." ++ drop cut ds
  | _ => Number_toString x
  end.

(** *** Values

    The values that JSON text denotes: what [JSON.parse] returns and what
    [JSON.stringify] is applied to here. An object is its list of own
    properties in property order. *)

#[local] Unset Elimination Schemes.
Inductive value :=
  | VNull
  | VBool (b : bool)
  | VNum (x : number)
  | VStr (s : jsstring)
  | VArr (items : list value)
  | VObj (props : list (jsstring * value)).
#[local] Set Elimination Schemes.

(** ToBoolean: [null], [false], [+0], [-0], [NaN] and [''] are falsy. *)
Definition truthy (v : value) : bool :=
  match v with
  | VNull => false
  | VBool b => b
  | VNum (S754_zero _) | VNum S754_nan => false
  | VNum _ => true
  | VStr [] => false
  | VStr _ => true
  | VArr _ | VObj _ => true
  end.

(** Abrupt completions raised by the runtime. *)
Variant error := SyntaxError | TypeError.

Variant completion (A : Type) :=
  | Normal (a : A)
  | Throw (e : error).
Arguments Normal {A} a.
Arguments Throw {A} e.

(** *** JSON.stringify *)

Definition hex_unit (d : N) : code_unit :=
  (if d <? 10 then 48 + d else 87 + d)%N.

(** UnicodeEscape: a backslash, [u] and four lowercase hexadecimal digits. *)
Definition unicode_escape (c : code_unit) : jsstring :=
  [92; 117; hex_unit (c / 4096 mod 16); hex_unit (c / 256 mod 16);
   hex_unit (c / 16 mod 16); hex_unit (c mod 16)]%N.

Definition is_high_surrogate (c : code_unit) : bool :=
  ((55296 <=? c) && (c <=? 56319))%N.
Definition is_low_surrogate (c : code_unit) : bool :=
  ((56320 <=? c) && (c <=? 57343))%N.

(** One code unit that is not part of a surrogate pair, as QuoteJSONString
    writes it. *)
Definition quote_unit (c : code_unit) : jsstring :=
  (if c =? 8 then [92; 98]
   else if c =? 9 then [92; 116]
   else if c =? 10 then [92; 110]
   else if c =? 12 then [92; 102]
   else if c =? 13 then [92; 114]
   else if c =? 34 then [92; 34]
   else if c =? 92 then [92; 92]
   else if (c <? 32) || is_high_surrogate c || is_low_surrogate c
   then unicode_escape c
   else [c])%N.

(** The body of QuoteJSONString: a surrogate pair is copied, everything
    else goes through [quote_unit]. *)
Fixpoint quote_units (s : jsstring) : jsstring :=
  match s with
  | [] => []
  | c :: s' =>
      match s' with
      | d :: s'' =>
          if is_high_surrogate c && is_low_surrogate d
          then c :: d :: quote_units s''
          else quote_unit c ++ quote_units s'
      | [] => quote_unit c
      end
  end.

Definition QuoteJSONString (s : jsstring) : jsstring :=
  [34%N] ++ quote_units s ++ [34%N].

(** [xs] joined with commas. *)
Fixpoint join_commas (xs : list jsstring) : jsstring :=
  match xs with
  | [] => []
  | [x] => x
  | x :: xs' => x ++ [44%N] ++ join_commas xs'
  end.

(** SerializeJSONProperty without replacer and without indentation:
    non-finite Numbers are written as [null]. *)
Fixpoint JSON_stringify (v : value) : jsstring :=
  match v with
  | VNull => lit "null"
  | VBool true => lit "true"
  | VBool false => lit "false"
  | VNum x => if is_finite x then Number_toString x else lit "null"
  | VStr s => QuoteJSONString s
  | VArr items =>
      [91%N] ++ join_commas (List.map JSON_stringify items) ++ [93%N]
  | VObj props =>
      [123%N]
      ++ join_commas
           (List.map (fun kv => QuoteJSONString (fst kv) ++ [58%N]
                                ++ JSON_stringify (snd kv)) props)
      ++ [125%N]
  end.

(** *** JSON.parse *)

(** JSON white space: TAB, LF, CR and SP. *)
Definition is_json_ws (c : code_unit) : bool :=
  ((c =? 9) || (c =? 10) || (c =? 13) || (c =? 32))%N.

Fixpoint skip_ws (s : jsstring) : jsstring :=
  match s with
  | c :: s' => if is_json_ws c then skip_ws s' else s
  | [] => []
  end.

Definition hex_value (c : code_unit) : option N :=
  (if (48 <=? c) && (c <=? 57) then Some (c - 48)
   else if (97 <=? c) && (c <=? 102) then Some (c - 87)
   else if (65 <=? c) && (c <=? 70) then Some (c - 55)
   else None)%N.

Definition hex4 (a b c d : code_unit) : option code_unit :=
  match hex_value a, hex_value b, hex_value c, hex_value d with
  | Some x, Some y, Some z, Some w => Some (((x * 16 + y) * 16 + z) * 16 + w)%N
  | _, _, _, _ => None
  end.

(** The code unit a single-character escape stands for. *)
Definition unescape (c : code_unit) : option code_unit :=
  (if c =? 34 then Some 34
   else if c =? 92 then Some 92
   else if c =? 47 then Some 47
   else if c =? 98 then Some 8
   else if c =? 102 then Some 12
   else if c =? 110 then Some 10
   else if c =? 114 then Some 13
   else if c =? 116 then Some 9
   else None)%N.

(** The characters of a JSON string up to its closing quote, and the text
    after the quote. *)
Fixpoint parse_string_body (s : jsstring) : option (jsstring * jsstring) :=
  match s with
  | [] => None
  | c :: r =>
      if (c =? 34)%N then Some ([], r)
      else if (c =? 92)%N then
        match r with
        | e :: r1 =>
            if (e =? 117)%N then
              match r1 with
              | h1 :: h2 :: h3 :: h4 :: r2 =>
                  match hex4 h1 h2 h3 h4, parse_string_body r2 with
                  | Some u, Some (cs, rest) => Some (u :: cs, rest)
                  | _, _ => None
                  end
              | _ => None
              end
            else
              match unescape e, parse_string_body r1 with
              | Some u, Some (cs, rest) => Some (u :: cs, rest)
              | _, _ => None
              end
        | [] => None
        end
      else if (c <? 32)%N then None
      else
        match parse_string_body r with
        | Some (cs, rest) => Some (c :: cs, rest)
        | None => None
        end
  end.

(** A JSON number at the head of [s]: an optional minus sign, an integer
    part without superfluous leading zero, an optional fraction (a dot and
    at least one digit) and an optional exponent (e or E, an optional
    sign and at least one digit). *)
Definition parse_number (s : jsstring) : option (number * jsstring) :=
  let '(minus, s1) :=
    match eat 45 s with
    | Some r => (true, r)
    | None => (false, s)
    end in
  let '(ip, r1) := take_digits s1 in
  if bool_decide (ip = []) || (starts_with [48%N] ip && (1 <? length ip)%nat)
  then None
  else
    let frac :=
      match eat 46 r1 with
      | Some r1' =>
          let '(fp, r2) := take_digits r1' in
          match fp with [] => None | _ => Some (fp, r2) end
      | None => Some ([], r1)
      end in
    match frac with
    | None => None
    | Some (fp, r2) =>
        let ex :=
          match r2 with
          | c :: r3 =>
              if ((c =? 101) || (c =? 69))%N then
                let '(eminus, r4) := eat_sign r3 in
                let '(es, r5) := take_digits r4 in
                match es with
                | [] => None
                | _ => Some ((if eminus then - digits_value es
                              else digits_value es), r5)
                end
              else Some (0, r2)
          | [] => Some (0, r2)
          end in
        match ex with
        | None => None
        | Some (e, rest) =>
            Some (of_decimal minus (digits_value (ip ++ fp))
                    (e - Z.of_nat (length fp)), rest)
        end
    end.

(** An array index: the canonical decimal text of an integer below
    [2^32 - 1]. *)
Definition array_index (k : jsstring) : option Z :=
  match k with
  | [] => None
  | c :: k' =>
      if forallb is_digit k && negb ((c =? 48)%N && negb (bool_decide (k' = [])))
         && (digits_value k <? 4294967295)
      then Some (digits_value k) else None
  end.

(** Where a new property key goes in property order: array indices in
    ascending order first, then the other keys in creation order. *)
Fixpoint insert_property (k : jsstring) (v : value)
    (props : list (jsstring * value)) : list (jsstring * value) :=
  match props with
  | [] => [(k, v)]
  | (k', v') :: props' =>
      match array_index k, array_index k' with
      | Some i, Some i' =>
          if i <? i' then (k, v) :: props
          else (k', v') :: insert_property k v props'
      | Some _, None => (k, v) :: props
      | None, _ => (k', v') :: insert_property k v props'
      end
  end.

(** CreateDataProperty: an existing key keeps its place and takes the new
    value. *)
Definition define_property (k : jsstring) (v : value)
    (props : list (jsstring * value)) : list (jsstring * value) :=
  if existsb (fun kv => jsstring_eqb (fst kv) k) props
  then List.map (fun kv => if jsstring_eqb (fst kv) k then (k, v) else kv) props
  else insert_property k v props.

(** A JSON value at the head of [s] (after white space), and the rest. *)
Fixpoint parse_value (fuel : nat) (s : jsstring) : option (value * jsstring) :=
  match fuel with
  | O => None
  | S fuel' =>
      match skip_ws s with
      | [] => None
      | c :: r =>
          if (c =? 123)%N then
            match eat 125 (skip_ws r) with
            | Some r' => Some (VObj [], r')
            | None => parse_members fuel' r []
            end
          else if (c =? 91)%N then
            match eat 93 (skip_ws r) with
            | Some r' => Some (VArr [], r')
            | None => parse_elements fuel' r []
            end
          else if (c =? 34)%N then
            match parse_string_body r with
            | Some (str, r') => Some (VStr str, r')
            | None => None
            end
          else if starts_with (lit "null") (c :: r)
          then Some (VNull, drop 4 (c :: r))
          else if starts_with (lit "true") (c :: r)
          then Some (VBool true, drop 4 (c :: r))
          else if starts_with (lit "false") (c :: r)
          then Some (VBool false, drop 5 (c :: r))
          else
            match parse_number (c :: r) with
            | Some (x, r') => Some (VNum x, r')
            | None => None
            end
      end
  end
with parse_elements (fuel : nat) (s : jsstring) (acc : list value)
    : option (value * jsstring) :=
  match fuel with
  | O => None
  | S fuel' =>
      match parse_value fuel' s with
      | Some (v, r) =>
          match eat 44 (skip_ws r) with
          | Some r' => parse_elements fuel' r' (acc ++ [v])
          | None =>
              match eat 93 (skip_ws r) with
              | Some r' => Some (VArr (acc ++ [v]), r')
              | None => None
              end
          end
      | None => None
      end
  end
with parse_members (fuel : nat) (s : jsstring) (acc : list (jsstring * value))
    : option (value * jsstring) :=
  match fuel with
  | O => None
  | S fuel' =>
      match eat 34 (skip_ws s) with
      | Some r =>
          match parse_string_body r with
          | Some (k, r1) =>
              match eat 58 (skip_ws r1) with
              | Some r2 =>
                  match parse_value fuel' r2 with
                  | Some (v, r3) =>
                      match eat 44 (skip_ws r3) with
                      | Some r4 =>
                          parse_members fuel' r4 (define_property k v acc)
                      | None =>
                          match eat 125 (skip_ws r3) with
                          | Some r4 => Some (VObj (define_property k v acc), r4)
                          | None => None
                          end
                      end
                  | None => None
                  end
              | None => None
              end
          | None => None
          end
      | None => None
      end
  end.

(** [JSON.parse(text)]: one JSON value surrounded by white space, or a
    SyntaxError. The fuel is more than any text uses (two units for each
    code unit, see [parse_value_fuel]). *)
Definition JSON_parse (text : jsstring) : completion value :=
  match parse_value (S (2 * length text)) text with
  | Some (v, r) =>
      match skip_ws r with
      | [] => Normal v
      | _ => Throw SyntaxError
      end
  | None => Throw SyntaxError
  end.

End JS.

(* ===================================================================== *)
(** ** class ExpenseTracker                                               *)
(* ===================================================================== *)

Module Tracker.
Import JS.

(** The object built by the literal [{ id, text, amount, category }].
    [id] is a reading of [Date.now()], an integral number of
    milliseconds, kept as an integer. *)
Record Transaction := {
  id : Z;
  text : jsstring;
  amount : number;
  category : jsstring;
}.

(** A transaction as the value [JSON.stringify] sees: four own properties
    in the order of the literal. *)
Definition Transaction_value (t : Transaction) : value :=
  VObj [ (lit "id", VNum (of_Z (id t)));
         (lit "text", VStr (text t));
         (lit "amount", VNum (amount t));
         (lit "category", VStr (category t)) ].

(** One [<input name="transactionType">] radio button. *)
Record RadioInput := {
  checked : bool;
  radio_value : jsstring;
}.

(** The [<select id="category">] element: its options (value, label) and
    its current value. *)
Record Select := {
  options : list (jsstring * jsstring);
  select_value : jsstring;
}.

(** One [<li>] of the history list, as [addTransactionDOM] composes it. *)
Record Item := {
  className : jsstring;
  dataset_id : Z;
  textSpan : jsstring;
  categorySpan : jsstring;
  amountSpan : jsstring;
}.

(** The fields of [this]: the text of the DOM elements grabbed by the
    constructor, and the two arrays. [categorySelect] is [None] when the
    page has no such element. *)
Record ExpenseTracker := {
  balance : jsstring;
  money_plus : jsstring;
  money_minus : jsstring;
  list_items : list Item;
  text_value : jsstring;
  amount_value : jsstring;
  transactionTypeInputs : list RadioInput;
  categorySelect : option Select;
  transactions : list Transaction;
  categories : list jsstring;
}.

(** What a method works on: [this] and the global [localStorage]. *)
Record State := {
  this : ExpenseTracker;
  localStorage : gmap jsstring jsstring;
}.

Definition with_summary (b p m : jsstring) (tr : ExpenseTracker) :=
  {| balance := b; money_plus := p; money_minus := m;
     list_items := list_items tr; text_value := text_value tr;
     amount_value := amount_value tr;
     transactionTypeInputs := transactionTypeInputs tr;
     categorySelect := categorySelect tr;
     transactions := transactions tr; categories := categories tr |}.

Definition with_list_items (l : list Item) (tr : ExpenseTracker) :=
  {| balance := balance tr; money_plus := money_plus tr;
     money_minus := money_minus tr;
     list_items := l; text_value := text_value tr;
     amount_value := amount_value tr;
     transactionTypeInputs := transactionTypeInputs tr;
     categorySelect := categorySelect tr;
     transactions := transactions tr; categories := categories tr |}.

Definition with_inputs (t a : jsstring) (tr : ExpenseTracker) :=
  {| balance := balance tr; money_plus := money_plus tr;
     money_minus := money_minus tr;
     list_items := list_items tr; text_value := t; amount_value := a;
     transactionTypeInputs := transactionTypeInputs tr;
     categorySelect := categorySelect tr;
     transactions := transactions tr; categories := categories tr |}.

Definition with_categorySelect (s : option Select) (tr : ExpenseTracker) :=
  {| balance := balance tr; money_plus := money_plus tr;
     money_minus := money_minus tr;
     list_items := list_items tr; text_value := text_value tr;
     amount_value := amount_value tr;
     transactionTypeInputs := transactionTypeInputs tr;
     categorySelect := s;
     transactions := transactions tr; categories := categories tr |}.

Definition with_transactions (ts : list Transaction) (tr : ExpenseTracker) :=
  {| balance := balance tr; money_plus := money_plus tr;
     money_minus := money_minus tr;
     list_items := list_items tr; text_value := text_value tr;
     amount_value := amount_value tr;
     transactionTypeInputs := transactionTypeInputs tr;
     categorySelect := categorySelect tr;
     transactions := ts; categories := categories tr |}.

(** *** The constructor's restoration (lines 25 and 26)

    [localStorage.getItem] gives [null] for a missing key, which
    [JSON.parse] reads as the text ["null"]. *)
Definition getItem (storage : gmap jsstring jsstring) (key : jsstring)
    : option jsstring :=
  storage !! key.

Definition JSON_parse_item (item : option jsstring) : completion value :=
  JSON_parse (match item with Some s => s | None => lit "null" end).

(** [JSON.parse(localStorage.getItem(key)) || []]. *)
Definition load_key (storage : gmap jsstring jsstring) (key : jsstring)
    : completion value :=
  match JSON_parse_item (getItem storage key) with
  | Normal v => Normal (if truthy v then v else VArr [])
  | Throw e => Throw e
  end.

(** Both restorations in order: the pair (transactions, categories), or
    the first exception. *)
Definition load (storage : gmap jsstring jsstring) : completion (value * value) :=
  match load_key storage (lit "transactions") with
  | Normal ts =>
      match load_key storage (lit "categories") with
      | Normal cs => Normal (ts, cs)
      | Throw e => Throw e
      end
  | Throw e => Throw e
  end.

(** *** populateCategoryDropdown *)
Definition populateCategoryDropdown (tr : ExpenseTracker) : ExpenseTracker :=
  match categorySelect tr with
  | None => tr
  | Some _ =>
      with_categorySelect
        (Some {| options := ([], lit "Uncategorized")
                            :: List.map (fun cat => (cat, cat)) (categories tr);
                 select_value := [] |})
        tr
  end.

(** *** addTransactionDOM *)
Definition addTransactionDOM (transaction : Transaction) (tr : ExpenseTracker)
    : ExpenseTracker :=
  let sign := if lt (amount transaction) zero then lit "-" else lit "+" in
  let formattedAmount := lit "$" ++ toFixed2 (Math_abs (amount transaction)) in
  let li :=
    {| className := if lt (amount transaction) zero then lit "minus" else lit "plus";
       dataset_id := id transaction;
       textSpan := text transaction;
       categorySpan := category transaction;
       amountSpan := sign ++ formattedAmount |} in
  with_list_items (list_items tr ++ [li]) tr.

(** *** updateValues *)

(** The three constants [total], [income] and [expense] of the method. *)
Record Totals := {
  total : number;
  income : number;
  expense : number;
}.

(** [array.reduce((acc, item) => acc + item, 0)]. *)
Definition reduce_add (amounts : list number) : number :=
  fold_left (fun acc item => add acc item) amounts zero.

Definition totals (ts : list Transaction) : Totals :=
  let amounts := List.map (fun t => amount t) ts in
  {| total := reduce_add amounts;
     income := reduce_add (List.filter (fun item => gt item zero) amounts);
     expense := reduce_add (List.filter (fun item => lt item zero) amounts) |}.

Definition updateValues (tr : ExpenseTracker) : ExpenseTracker :=
  let t := totals (transactions tr) in
  with_summary (lit "$" ++ toFixed2 (total t))
               (lit "+$" ++ toFixed2 (income t))
               (lit "-$" ++ toFixed2 (Math_abs (expense t)))
               tr.

(** *** init *)
Definition init (tr : ExpenseTracker) : ExpenseTracker :=
  let tr := with_list_items [] tr in
  let tr := populateCategoryDropdown tr in
  let tr := fold_left (fun acc transaction => addTransactionDOM transaction acc)
                      (transactions tr) tr in
  updateValues tr.

(** *** getSelectedTransactionType *)
Fixpoint getSelectedTransactionType (inputs : list RadioInput) : jsstring :=
  match inputs with
  | input :: rest =>
      if checked input then radio_value input
      else getSelectedTransactionType rest
  | [] => lit "expense"
  end.

(** *** updateLocalStorage

    The write of a run in which the browser accepts it. A browser may
    refuse it: [setItem] and [updateLocalStorage_or_throw] below follow
    the code through the exception that [localStorage.setItem] then
    throws. *)
Definition updateLocalStorage (st : State) : State :=
  {| this := this st;
     localStorage :=
       <[ lit "transactions" :=
            JSON_stringify (VArr (List.map Transaction_value (transactions (this st)))) ]>
         (localStorage st) |}.

(** *** addTransaction

    The handler returns nothing; what a caller observes is either the
    [alert] of an early return or the transaction that was pushed. *)
Variant Outcome :=
  | Alert (message : jsstring)
  | Added (transaction : Transaction).

(** The two validation failures, named as in the error taxonomy. *)
Definition EmptyInput : Outcome := Alert (lit "Please enter text and amount").
Definition InvalidNumber : Outcome := Alert (lit "Please enter a valid number").

(** [now] is the reading of [Date.now()] during the call. *)
Definition addTransaction (now : Z) (st : State) : Outcome * State :=
  let text := trim (text_value (this st)) in
  let amountValue := trim (amount_value (this st)) in
  if jsstring_eqb text [] || jsstring_eqb amountValue [] then
    (EmptyInput, st)
  else
    let amount := Math_abs (parseFloat amountValue) in
    if isNaN amount then (InvalidNumber, st)
    else
      let type := getSelectedTransactionType (transactionTypeInputs (this st)) in
      let amount := if jsstring_eqb type (lit "expense") then neg amount else amount in
      let category :=
        match categorySelect (this st) with
        | Some sel =>
            if string_truthy (select_value sel) then select_value sel else []
        | None => []
        end in
      let transaction :=
        {| id := now;
           text := text;
           amount := amount;
           category := if string_truthy category then category
                       else lit "Uncategorized" |} in
      let st := {| this := with_transactions (transactions (this st) ++ [transaction]) (this st);
                   localStorage := localStorage st |} in
      let st := updateLocalStorage st in
      let tr := addTransactionDOM transaction (this st) in
      let tr := updateValues tr in
      let tr := with_inputs [] [] tr in
      (Added transaction, {| this := tr; localStorage := localStorage st |}).

(** *** removeTransaction *)
Definition removeTransaction (id0 : Z) (st : State) : State :=
  let st := {| this := with_transactions
                         (List.filter (fun t => negb (id t =? id0)) (transactions (this st)))
                         (this st);
               localStorage := localStorage st |} in
  let st := updateLocalStorage st in
  {| this := init (this st); localStorage := localStorage st |}.

(** *** Runs of the page

    Between two events the user edits the form: the two text fields, the
    radio buttons and the drop-down. *)
Definition edit (label rawAmount : jsstring) (radios : list RadioInput)
    (select : option Select) (st : State) : State :=
  {| this :=
       {| balance := balance (this st); money_plus := money_plus (this st);
          money_minus := money_minus (this st);
          list_items := list_items (this st);
          text_value := label; amount_value := rawAmount;
          transactionTypeInputs := radios;
          categorySelect := select;
          transactions := transactions (this st);
          categories := categories (this st) |};
     localStorage := localStorage st |}.

(** The form filled with a label, an amount text, a kind (the one checked
    radio button) and, when there is one, a chosen category: the inputs
    of one submission. *)
Definition fill (label rawAmount kind : jsstring) (category : option jsstring)
    (st : State) : State :=
  edit label rawAmount
       [ {| checked := true; radio_value := kind |} ]
       (match category with
        | Some c => Some {| options := []; select_value := c |}
        | None => None
        end)
       st.

(** The tracker of a first visit: nothing rendered, both arrays empty,
    nothing stored. *)
Definition first_visit : State :=
  {| this :=
       init {| balance := []; money_plus := []; money_minus := [];
               list_items := []; text_value := []; amount_value := [];
               transactionTypeInputs :=
                 [ {| checked := false; radio_value := lit "income" |};
                   {| checked := true; radio_value := lit "expense" |} ];
               categorySelect := Some {| options := []; select_value := [] |};
               transactions := []; categories := [] |};
     localStorage := ∅ |}.

(** The states a page goes through: it starts with an empty transaction
    array, and then the user edits the form, submits it or deletes an
    entry. *)
Inductive reachable : State -> Prop :=
  | reachable_start st :
      transactions (this st) = [] -> reachable st
  | reachable_edit label rawAmount radios select st :
      reachable st -> reachable (edit label rawAmount radios select st)
  | reachable_add now st :
      reachable st -> reachable (snd (addTransaction now st))
  | reachable_remove id0 st :
      reachable st -> reachable (removeTransaction id0 st).

(** The same runs with the clock made explicit: [reachable_at c st] when
    [st] is reached by a run whose submissions read strictly increasing
    values of [Date.now()], the last of them at most [c]. *)
Inductive reachable_at : Z -> State -> Prop :=
  | at_start c st :
      transactions (this st) = [] -> reachable_at c st
  | at_edit c label rawAmount radios select st :
      reachable_at c st -> reachable_at c (edit label rawAmount radios select st)
  | at_add c now st :
      reachable_at c st -> c < now ->
      reachable_at now (snd (addTransaction now st))
  | at_remove c id0 st :
      reachable_at c st -> reachable_at c (removeTransaction id0 st).

(** *** The wording of the totals

    "Strictly positive" and "strictly negative" on Numbers, by sign: a
    zero of either sign and NaN are neither. *)
Definition strictly_positive (x : number) : bool :=
  match x with
  | S754_finite false _ _ | S754_infinity false => true
  | _ => false
  end.

Definition strictly_negative (x : number) : bool :=
  match x with
  | S754_finite true _ _ | S754_infinity true => true
  | _ => false
  end.

(** The sum of the amounts of [ts], accumulated from 0 in sequence
    order. *)
Fixpoint sum_from (acc : number) (ts : list Transaction) : number :=
  match ts with
  | [] => acc
  | t :: ts' => sum_from (add acc (amount t)) ts'
  end.

Definition sum_of_amounts (ts : list Transaction) : number := sum_from zero ts.

(** A text has a numeric prefix when, after leading white space and an
    optional sign, it starts with [Infinity], with a digit, or with a dot
    followed by a digit. *)
Definition unsigned_numeric_prefix (u : jsstring) : bool :=
  starts_with (lit "Infinity") u
  || match u with
     | c :: u' =>
         is_digit c
         || (c =? 46)%N && match u' with d :: _ => is_digit d | [] => false end
     | [] => false
     end.

Definition numeric_prefix (s : jsstring) : bool :=
  match trim_start s with
  | c :: u =>
      if ((c =? 43) || (c =? 45))%N then unsigned_numeric_prefix u
      else unsigned_numeric_prefix (c :: u)
  | [] => false
  end.

(** A ledger whose transactions have the given amounts, for examples. *)
Definition with_amounts (amounts : list number) : list Transaction :=
  List.map (fun a => {| id := 0; text := lit "x"; amount := a;
                        category := lit "Uncategorized" |}) amounts.

(** *** The three paths through addTransaction *)

(** The kind read from the radio buttons and the category read from the
    drop-down. *)
Definition kind_of (st : State) : jsstring :=
  getSelectedTransactionType (transactionTypeInputs (this st)).

Definition chosen_category (st : State) : jsstring :=
  match categorySelect (this st) with
  | Some sel => select_value sel
  | None => []
  end.

(** The transaction a successful submission builds. *)
Definition built (now : Z) (st : State) : Transaction :=
  let magnitude := Math_abs (parseFloat (trim (amount_value (this st)))) in
  {| id := now;
     text := trim (text_value (this st));
     amount := if jsstring_eqb (kind_of st) (lit "expense")
               then neg magnitude else magnitude;
     category := match chosen_category st with
                 | [] => lit "Uncategorized"
                 | c => c
                 end |}.

(** The state a successful submission leaves. *)
Definition after_add (now : Z) (st : State) : State :=
  let ts := transactions (this st) ++ [built now st] in
  {| this :=
       with_inputs [] []
         (updateValues
            (addTransactionDOM (built now st) (with_transactions ts (this st))));
     localStorage :=
       <[ lit "transactions" :=
            JSON_stringify (VArr (List.map Transaction_value ts)) ]>
         (localStorage st) |}.

Variant add_path (now : Z) (st : State) : Prop :=
  | path_empty :
      trim (text_value (this st)) = [] \/ trim (amount_value (this st)) = [] ->
      addTransaction now st = (EmptyInput, st) -> add_path now st
  | path_invalid :
      trim (text_value (this st)) <> [] -> trim (amount_value (this st)) <> [] ->
      parseFloat (trim (amount_value (this st))) = NaN ->
      addTransaction now st = (InvalidNumber, st) -> add_path now st
  | path_added :
      trim (text_value (this st)) <> [] -> trim (amount_value (this st)) <> [] ->
      parseFloat (trim (amount_value (this st))) <> NaN ->
      addTransaction now st = (Added (built now st), after_add now st) ->
      add_path now st.

(** The [<li>] that [addTransactionDOM] appends for a transaction. *)
Definition item_of (transaction : Transaction) : Item :=
  {| className := if lt (amount transaction) zero then lit "minus" else lit "plus";
     dataset_id := id transaction;
     textSpan := text transaction;
     categorySpan := category transaction;
     amountSpan := (if lt (amount transaction) zero then lit "-" else lit "+")
                   ++ lit "$" ++ toFixed2 (Math_abs (amount transaction)) |}.

(** *** Particular runs *)

(** Two submissions read at the same millisecond. *)
Definition same_millisecond_twice : State :=
  let st1 := snd (addTransaction 7
                    (fill (lit "a") (lit "1") (lit "income") None first_visit)) in
  snd (addTransaction 7 (fill (lit "b") (lit "2") (lit "income") None st1)).

(** One submission whose amount text is [1e999]. *)
Definition overflowing_amount : State :=
  snd (addTransaction 1700000000000
         (fill (lit "Rent") (lit "1e999") (lit "expense") None first_visit)).

(** A store whose transactions entry is not JSON text. *)
Definition malformed_store : gmap jsstring jsstring :=
  <[ lit "transactions" := lit "[{" ]> ∅.

(** *** What the page shows and what the store holds *)

(** The history list and the three summary texts are the ones that
    [addTransactionDOM] and [updateValues] produce for the transactions in
    memory. *)
Definition view_in_sync (tr : ExpenseTracker) : Prop :=
  list_items tr = List.map item_of (transactions tr)
  /\ balance tr = lit "$" ++ toFixed2 (total (totals (transactions tr)))
  /\ money_plus tr = lit "+$" ++ toFixed2 (income (totals (transactions tr)))
  /\ money_minus tr
     = lit "-$" ++ toFixed2 (Math_abs (expense (totals (transactions tr)))).

(** The snapshot in the store is the text of the transactions in memory. *)
Definition store_in_sync (st : State) : Prop :=
  getItem (localStorage st) (lit "transactions")
  = Some (JSON_stringify
            (VArr (List.map Transaction_value (transactions (this st))))).

(** The user picks the option of value [c] in the drop-down, when the page
    has one, and touches nothing else. *)
Definition pick (c : jsstring) (st : State) : State :=
  edit (text_value (this st)) (amount_value (this st))
       (transactionTypeInputs (this st))
       (match categorySelect (this st) with
        | Some sel => Some {| options := options sel; select_value := c |}
        | None => None
        end)
       st.

(** An income and an expense whose amount texts are both [Infinity]. *)
Definition infinite_both_ways : State :=
  let st1 := snd (addTransaction 7
                    (fill (lit "a") (lit "Infinity") (lit "income") None
                       first_visit)) in
  snd (addTransaction 8 (fill (lit "b") (lit "Infinity") (lit "expense") None st1)).


(** A Number that is zero, of either sign. *)
Definition is_zero (x : number) : bool :=
  match x with
  | S754_zero _ => true
  | _ => false
  end.

(** An amount text that starts with neither white space nor a sign. *)
Definition starts_unsigned (u : jsstring) : Prop :=
  match u with
  | c :: _ => is_white_space c = false /\ c <> 43%N /\ c <> 45%N
  | [] => False
  end.

(** The values of the options of the drop-down. *)
Definition option_values (tr : ExpenseTracker) : list jsstring :=
  match categorySelect tr with
  | Some sel => List.map fst (options sel)
  | None => []
  end.

(** *** A store that refuses a write

    [localStorage.setItem] throws a [QuotaExceededError] when the browser
    does not accept the new value: the store is full, or storage is
    disabled. What is accepted is the browser's decision, [accepts storage
    key value]. [updateLocalStorage], [addTransaction] and
    [removeTransaction] above are the runs in which every write is
    accepted; the definitions below follow the same code when a write may
    be refused. Nothing in the class catches the exception: it leaves the
    method at the call of [updateLocalStorage], after the array in memory
    was changed and before anything is rendered. *)
Definition Browser : Type :=
  gmap jsstring jsstring -> jsstring -> jsstring -> bool.

Variant DOMException := QuotaExceededError.

(** How a call ends: it returns, or an exception leaves it. *)
Variant Call (A : Type) :=
  | Returned (a : A)
  | Uncaught (e : DOMException).
Arguments Returned {A} a.
Arguments Uncaught {A} e.

(** [localStorage.setItem(key, value)]. *)
Definition setItem (accepts : Browser) (key value : jsstring)
    (storage : gmap jsstring jsstring) : Call (gmap jsstring jsstring) :=
  if accepts storage key value then Returned (<[ key := value ]> storage)
  else Uncaught QuotaExceededError.

Definition updateLocalStorage_or_throw (accepts : Browser) (st : State)
    : Call State :=
  match setItem accepts (lit "transactions")
          (JSON_stringify (VArr (List.map Transaction_value (transactions (this st)))))
          (localStorage st)
  with
  | Returned storage => Returned {| this := this st; localStorage := storage |}
  | Uncaught e => Uncaught e
  end.

(** [addTransaction]: how the handler ends, and the state it leaves. *)
Definition addTransaction_or_throw (accepts : Browser) (now : Z) (st : State)
    : Call Outcome * State :=
  let text := trim (text_value (this st)) in
  let amountValue := trim (amount_value (this st)) in
  if jsstring_eqb text [] || jsstring_eqb amountValue [] then
    (Returned EmptyInput, st)
  else
    let amount := Math_abs (parseFloat amountValue) in
    if isNaN amount then (Returned InvalidNumber, st)
    else
      let type := getSelectedTransactionType (transactionTypeInputs (this st)) in
      let amount := if jsstring_eqb type (lit "expense") then neg amount else amount in
      let category :=
        match categorySelect (this st) with
        | Some sel =>
            if string_truthy (select_value sel) then select_value sel else []
        | None => []
        end in
      let transaction :=
        {| id := now;
           text := text;
           amount := amount;
           category := if string_truthy category then category
                       else lit "Uncategorized" |} in
      let st := {| this := with_transactions (transactions (this st) ++ [transaction]) (this st);
                   localStorage := localStorage st |} in
      match updateLocalStorage_or_throw accepts st with
      | Uncaught e => (Uncaught e, st)
      | Returned st =>
          let tr := addTransactionDOM transaction (this st) in
          let tr := updateValues tr in
          let tr := with_inputs [] [] tr in
          (Returned (Added transaction), {| this := tr; localStorage := localStorage st |})
      end.

(** [removeTransaction]: how the call ends, and the state it leaves. *)
Definition removeTransaction_or_throw (accepts : Browser) (id0 : Z) (st : State)
    : Call unit * State :=
  let st := {| this := with_transactions
                         (List.filter (fun t => negb (id t =? id0)) (transactions (this st)))
                         (this st);
               localStorage := localStorage st |} in
  match updateLocalStorage_or_throw accepts st with
  | Uncaught e => (Uncaught e, st)
  | Returned st => (Returned tt, {| this := init (this st); localStorage := localStorage st |})
  end.

(** A browser that accepts every write, and one whose store is full. *)
Definition roomy : Browser := fun _ _ _ => true.
Definition full : Browser := fun _ _ _ => false.

(** The state a submission leaves when its write is refused: the
    transaction is in the array and nowhere else. *)
Definition pushed (now : Z) (st : State) : State :=
  {| this := with_transactions (transactions (this st) ++ [built now st]) (this st);
     localStorage := localStorage st |}.

(** The text that a submission writes. *)
Definition snapshot_after_add (now : Z) (st : State) : jsstring :=
  JSON_stringify
    (VArr (List.map Transaction_value (transactions (this st) ++ [built now st]))).

(** One submission on a first visit to a browser whose store is full. *)
Definition refused_write : Call Outcome * State :=
  addTransaction_or_throw full 7
    (fill (lit "Rent") (lit "5") (lit "expense") None first_visit).

(** *** The spec's reading of a number

    The text, all of it, is a decimal number: an optional sign, digits
    with an optional fraction (or a fraction alone), an optional exponent,
    and nothing after. *)
Definition whole_number_text (s : jsstring) : bool :=
  let '(_, u) := eat_sign s in
  let '(ip, r1) := take_digits u in
  let '(fp, r2) :=
    match eat 46 r1 with
    | Some r => take_digits r
    | None => ([], r1)
    end in
  let '(_, r3) := scan_exponent r2 in
  negb (bool_decide (ip ++ fp = [])) && bool_decide (r3 = []).

(** *** The constructor

    Lines 14 to 22 grab the elements of the page, lines 25 and 26 restore
    the two arrays and line 29 renders them. What [JSON.parse] returns is
    any JSON value. The constructor is followed through every exception
    that [init] throws on such values; where it throws none, the tracker
    it builds is given when the restored values are an array of
    transaction records and an array of strings, over which the methods
    are embedded, and otherwise the restored values alone are given. *)

(** ToPrimitive and ToString return on [v]. On an object with an own
    property [toString] they throw a TypeError (a property that comes
    from JSON text is no function, and it hides the [toString] of the
    prototype, while [valueOf] returns the object); on an array, [join]
    converts the elements, [null] to the empty string. *)
Fixpoint coerces (v : value) : bool :=
  match v with
  | VObj props =>
      negb (existsb (fun kv => jsstring_eqb (fst kv) (lit "toString")) props)
  | VArr items => forallb coerces items
  | _ => true
  end.

(** [v.k] for a value other than [null] and a key that no prototype has:
    the own property of an object, and [undefined] ([None]) on anything
    else. *)
Definition get_property (k : jsstring) (v : value) : option value :=
  match v with
  | VObj props =>
      match List.find (fun kv => jsstring_eqb (fst kv) k) props with
      | Some kv => Some (snd kv)
      | None => None
      end
  | _ => None
  end.

(** [init] gets through the element [t] of the restored transactions:
    [addTransactionDOM] reads [t.amount] (a TypeError on [null]), compares
    it and takes its magnitude, and assigns [t.id], [t.text] and
    [t.category] to strings of the page, which converts them; then
    [updateValues] adds the amounts from 0, and the sum is a string, on
    which [toFixed] is no function, as soon as one amount is a string, an
    array or an object. *)
Definition renders (t : value) : bool :=
  match t with
  | VNull => false
  | _ =>
      let converts k :=
        match get_property k t with
        | Some v => coerces v
        | None => true
        end in
      converts (lit "id") && converts (lit "text") && converts (lit "category")
      && match get_property (lit "amount") t with
         | Some (VStr _) | Some (VArr _) | Some (VObj _) => false
         | _ => true
         end
  end.

(** The integer that a Number is, when it is one. *)
Definition to_Z (x : number) : option Z :=
  match x with
  | S754_zero _ => Some 0
  | S754_finite s m e =>
      let '(p, q) := exact_ratio m e in
      if p mod q =? 0 then Some (if s then - (p / q) else p / q) else None
  | _ => None
  end.

(** The record that a restored value is, when it is an object with the
    four properties of the literal of [addTransaction], in that order and
    of those types, whose [id] is an integer. *)
Definition as_Transaction (v : value) : option Transaction :=
  match v with
  | VObj [ (k1, VNum i); (k2, VStr s); (k3, VNum a); (k4, VStr c) ] =>
      if jsstring_eqb k1 (lit "id") && jsstring_eqb k2 (lit "text")
         && jsstring_eqb k3 (lit "amount") && jsstring_eqb k4 (lit "category")
      then
        match to_Z i with
        | Some n =>
            if same_value (of_Z n) i
            then Some {| id := n; text := s; amount := a; category := c |}
            else None
        | None => None
        end
      else None
  | _ => None
  end.

Definition as_category (v : value) : option jsstring :=
  match v with
  | VStr s => Some s
  | _ => None
  end.

Fixpoint read_all {A : Type} (read : value -> option A) (items : list value)
    : option (list A) :=
  match items with
  | [] => Some []
  | v :: items' =>
      match read v, read_all read items' with
      | Some a, Some l => Some (a :: l)
      | _, _ => None
      end
  end.


(** [populateCategoryDropdown] gets through the restored categories: they
    are an array, on which [forEach] is a function, and each of them
    converts to the string of an option. *)
Definition populates (cs : value) : bool :=
  match cs with
  | VArr cats => forallb coerces cats
  | _ => false
  end.

(** What [new ExpenseTracker()] gives: an exception, or a tracker, which
    is [Constructed st] when the restored values are transaction records
    and strings, and otherwise a tracker whose [this.transactions] and
    [this.categories] are the restored values [ts] and [cs]. *)
Variant Construction :=
  | Constructed (st : State)
  | Raised (e : error)
  | BuiltOver (ts cs : value).

(** [page] gives the elements of the page (its two arrays are not read). *)
Definition constructor (page : ExpenseTracker)
    (storage : gmap jsstring jsstring) : Construction :=
  match load storage with
  | Throw e => Raised e
  | Normal (ts, cs) =>
      (* this.init(): populateCategoryDropdown, when the page has the
         drop-down, calls this.categories.forEach and assigns each
         category to an option; then this.transactions.forEach calls
         addTransactionDOM, and updateValues sums the amounts *)
      if match categorySelect page with
         | Some _ => negb (populates cs)
         | None => false
         end
      then Raised TypeError
      else
        match ts with
        | VArr items =>
            if negb (forallb renders items) then Raised TypeError
            else
              match read_all as_Transaction items,
                    match cs with
                    | VArr cats => read_all as_category cats
                    | _ => None
                    end
              with
              | Some ts', Some cs' =>
                  Constructed
                    {| this :=
                         init {| balance := balance page;
                                 money_plus := money_plus page;
                                 money_minus := money_minus page;
                                 list_items := list_items page;
                                 text_value := text_value page;
                                 amount_value := amount_value page;
                                 transactionTypeInputs := transactionTypeInputs page;
                                 categorySelect := categorySelect page;
                                 transactions := ts';
                                 categories := cs' |};
                       localStorage := storage |}
              | _, _ => BuiltOver ts cs
              end
        | _ => Raised TypeError
        end
  end.



End Tracker.

(* ===================================================================== *)
(** ** Vocabulary of the properties                                       *)
(* ===================================================================== *)

Module Text.
Import JS.

(** The rational [p / q] is the value [m * 2^e]. *)
Definition ratio_is (p q m : positive) (e : Z) : Prop :=
  if 0 <=? e then Zpos p = Zpos m * 2 ^ e * Zpos q
  else Zpos p * 2 ^ (- e) = Zpos m * Zpos q.

(** The value [m * 2^e] of a positive finite Number, as a rational. *)
Definition float_Q (m : positive) (e : Z) : Q :=
  if 0 <=? e then inject_Z (Zpos m * 2 ^ e)
  else Qmake (Zpos m) (Z.to_pos (2 ^ (- e))).

(** The mantissa [m] at exponent [e] has at least the digits that its
    magnitude asks for. *)
Definition enough_digits (m e : Z) : Prop :=
  e <= fexp prec emax (Zdigits2 m + e).

(** A mantissa at an exponent is zero at the least exponent, or
    canonical. *)
Definition zero_or_canonical (m e : Z) : Prop :=
  0 <= m
  /\ (m = 0 -> e = emin prec emax)
  /\ (0 < m -> fexp prec emax (Zdigits2 m + e) = e).

(** A run of digits ends where [rest] begins. *)
Definition no_digit_ahead (rest : jsstring) : Prop :=
  match rest with
  | c :: _ => is_digit c = false
  | [] => True
  end.

(** A number token ends where [rest] begins: [rest] does not go on with
    a digit, a dot or an exponent mark. *)
Definition ends_number (rest : jsstring) : Prop :=
  match rest with
  | c :: _ => is_digit c = false /\ c <> 46%N /\ c <> 101%N /\ c <> 69%N
  | [] => True
  end.

(** The text of a number: sign, integer digits, fraction digits (when
    there are any) and exponent (when there is one, with its sign). *)
Definition number_text (minus : bool) (ip fp : jsstring)
    (ex : option (bool * jsstring)) : jsstring :=
  (if minus then [45%N] else [])
  ++ ip
  ++ match fp with [] => [] | _ => [46%N] ++ fp end
  ++ match ex with
     | Some (eminus, es) => [101%N] ++ (if eminus then [45%N] else [43%N]) ++ es
     | None => []
     end.

Definition exp_value (ex : option (bool * jsstring)) : Z :=
  match ex with
  | Some (eminus, es) => if eminus then - digits_value es else digits_value es
  | None => 0
  end.

(** What makes the parts of [number_text] a JSON number. *)
Definition number_parts_ok (ip fp : jsstring) (ex : option (bool * jsstring)) : Prop :=
  ip <> []
  /\ Forall (fun c => is_digit c = true) ip
  /\ starts_with [48%N] ip && (1 <? length ip)%nat = false
  /\ Forall (fun c => is_digit c = true) fp
  /\ match ex with
     | Some (_, es) => es <> [] /\ Forall (fun c => is_digit c = true) es
     | None => True
     end.

(** What [parse_string_body] returns once one more code unit [c] has been
    read in front of [more]. *)
Definition after_unit (c : code_unit) (more : option (jsstring * jsstring))
    : option (jsstring * jsstring) :=
  match more with
  | Some (cs, rest) => Some (c :: cs, rest)
  | None => None
  end.

(** The Number that JSON text carries for a finite [x]: a zero loses its
    sign. *)
Definition carried (x : number) : number :=
  match x with
  | S754_zero _ => S754_zero false
  | _ => x
  end.

(** The properties of an object in the order in which creating them one
    after the other leaves them. *)
Definition created (props : list (jsstring * value)) : list (jsstring * value) :=
  fold_left (fun acc kv => define_property (fst kv) (snd kv) acc) props [].

(** The value that JSON text carries for [v]: a Number that is not finite
    becomes [null], a zero loses its sign, and the properties of an object
    come back in creation order. *)
Fixpoint carried_value (v : value) : value :=
  match v with
  | VNum x => if is_finite x then VNum (carried x) else VNull
  | VArr items => VArr (List.map carried_value items)
  | VObj props =>
      VObj (created (List.map (fun kv => (fst kv, carried_value (snd kv))) props))
  | _ => v
  end.

(** Every Number inside [v] is a binary64 value. *)
Fixpoint numbers_valid (v : value) : bool :=
  match v with
  | VNum x => number_valid x
  | VArr items => forallb numbers_valid items
  | VObj props => forallb (fun kv => numbers_valid (snd kv)) props
  | _ => true
  end.

(** The fuel [parse_value] needs for the text of [v]. *)
Fixpoint need (v : value) : nat :=
  match v with
  | VArr items =>
      S (fold_right (fun item n => S (Nat.max (need item) n)) O items)
  | VObj props =>
      S (fold_right (fun kv n => S (Nat.max (need (snd kv)) n)) O props)
  | _ => 1%nat
  end.

(** The text of one member of an object. *)
Definition member_text (kv : jsstring * value) : jsstring :=
  QuoteJSONString (fst kv) ++ [58%N] ++ JSON_stringify (snd kv).

(** The text of [v], followed by anything that ends a number, reads back
    as [carried_value v] whatever fuel above [need v] is given. *)
Definition reads_back (v : value) : Prop :=
  numbers_valid v = true ->
  forall fuel rest,
    (need v <= fuel)%nat -> ends_number rest ->
    parse_value fuel (JSON_stringify v ++ rest) = Some (carried_value v, rest).

(** What the three parsers return is shorter than what they were given,
    and does not depend on the fuel once that exceeds twice the text. *)
Definition fuel_enough (f : nat) : Prop :=
  (forall s v r, parse_value f s = Some (v, r) -> (length r < length s)%nat)
  /\ (forall s acc v r, parse_elements f s acc = Some (v, r) ->
        (length r < length s)%nat)
  /\ (forall s acc v r, parse_members f s acc = Some (v, r) ->
        (length r < length s)%nat)
  /\ (forall g s, (2 * length s < f)%nat -> (2 * length s < g)%nat ->
        parse_value f s = parse_value g s)
  /\ (forall g s acc, (2 * length s + 1 < f)%nat -> (2 * length s + 1 < g)%nat ->
        parse_elements f s acc = parse_elements g s acc)
  /\ (forall g s acc, (2 * length s + 1 < f)%nat -> (2 * length s + 1 < g)%nat ->
        parse_members f s acc = parse_members g s acc).

(** A transaction that JSON text carries unchanged: its identifier is a
    time value (an integer below [2^53]), and its amount is a finite
    binary64 value other than the negative zero. *)
Definition storable (t : Tracker.Transaction) : Prop :=
  0 <= Tracker.id t < 2 ^ 53
  /\ number_valid (Tracker.amount t) = true
  /\ is_finite (Tracker.amount t) = true
  /\ Tracker.amount t <> S754_zero true.

(** [n] hundredths is the decimal with two fraction digits nearest to
    [p / q], the larger one when two are equally near. *)
Definition nearest_hundredths (p q n : Z) : Prop :=
  2 * q * n <= 200 * p + q < 2 * q * (n + 1).

(** An integer part as decimal text: the digit [0] alone, or digits that
    do not start with [0]. *)
Definition integer_text (ip : jsstring) : Prop :=
  Forall (fun c => is_digit c = true) ip
  /\ (ip = [48%N] \/ exists d l, ip = d :: l /\ d <> 48%N).

(** The categories in memory are the ones the store holds, as they are
    right after the constructor restored them. *)
Definition categories_in_sync (st : Tracker.State) : Prop :=
  Tracker.load_key (Tracker.localStorage st) (lit "categories")
  = Normal (VArr (List.map VStr (Tracker.categories (Tracker.this st)))).

End Text.

(* ===================================================================== *)
(** ** Properties of the ledger operations                                 *)
(* ===================================================================== *)

Import JS Tracker Text.

(** *** addTransaction, path by path *)

Lemma isNaN_abs (x : number) : isNaN (Math_abs x) = true <-> x = NaN.
Proof. destruct x; simpl; split; intros H; try discriminate; reflexivity. Qed.

Lemma jsstring_eqb_nil (s : list N) : jsstring_eqb s [] = true <-> s = [].
Proof. unfold jsstring_eqb. apply bool_decide_eq_true. Qed.

Lemma addTransaction_path now st : add_path now st.
Proof.
  destruct (jsstring_eqb (trim (text_value (this st))) []) eqn:Ht.
  { apply path_empty; [left; now apply jsstring_eqb_nil |].
    unfold addTransaction. now rewrite Ht. }
  destruct (jsstring_eqb (trim (amount_value (this st))) []) eqn:Ha.
  { apply path_empty; [right; now apply jsstring_eqb_nil |].
    unfold addTransaction. now rewrite Ht, Ha. }
  assert (Ht' : trim (text_value (this st)) <> []).
  { intros E. apply jsstring_eqb_nil in E. congruence. }
  assert (Ha' : trim (amount_value (this st)) <> []).
  { intros E. apply jsstring_eqb_nil in E. congruence. }
  destruct (isNaN (Math_abs (parseFloat (trim (amount_value (this st)))))) eqn:Hn.
  { apply path_invalid; auto; [now apply isNaN_abs |].
    unfold addTransaction. now rewrite Ht, Ha, Hn. }
  apply path_added; auto.
  { intros E. apply isNaN_abs in E. congruence. }
  unfold addTransaction. rewrite Ht, Ha, Hn. simpl orb. cbv iota.
  unfold built, after_add, kind_of, chosen_category, updateLocalStorage. simpl.
  assert (Hc :
    (if string_truthy
          match categorySelect (this st) with
          | Some sel => if string_truthy (select_value sel) then select_value sel else []
          | None => []
          end
     then match categorySelect (this st) with
          | Some sel => if string_truthy (select_value sel) then select_value sel else []
          | None => []
          end
     else lit "Uncategorized")
    = match match categorySelect (this st) with
            | Some sel => select_value sel
            | None => []
            end with
      | [] => lit "Uncategorized"
      | c => c
      end).
  { destruct (categorySelect (this st)) as [sel|]; [|reflexivity].
    destruct (select_value sel); reflexivity. }
  rewrite Hc. reflexivity.
Qed.

(** *** All or nothing, when the write is accepted *)

(** In a run in which the browser accepts the write, a submission either
    goes through completely (the transaction is appended to the array and
    the whole array is written to [localStorage]; the categories are
    untouched) or is rejected by one of the two validation alerts and
    leaves the whole state, the stored snapshot included, as it was. *)
Lemma addTransaction_all_or_nothing (now : Z) (st : State) :
  (exists t,
      fst (addTransaction now st) = Added t
      /\ transactions (this (snd (addTransaction now st)))
         = transactions (this st) ++ [t]
      /\ categories (this (snd (addTransaction now st))) = categories (this st)
      /\ localStorage (snd (addTransaction now st))
         = <[ lit "transactions" :=
                JSON_stringify
                  (VArr (List.map Transaction_value (transactions (this st) ++ [t]))) ]>
             (localStorage st))
  \/ ((fst (addTransaction now st) = EmptyInput
       \/ fst (addTransaction now st) = InvalidNumber)
      /\ snd (addTransaction now st) = st).
Proof.
  destruct (addTransaction_path now st) as [_ E | _ _ _ E | _ _ _ E]; rewrite E.
  - right. split; [now left | reflexivity].
  - right. split; [now right | reflexivity].
  - left. exists (built now st). repeat split.
Qed.

(** *** Rendering does not touch the arrays *)

Lemma render_all (ts : list Transaction) (tr : ExpenseTracker) :
  fold_left (fun acc transaction => addTransactionDOM transaction acc) ts tr
  = with_list_items (list_items tr ++ List.map item_of ts) tr.
Proof.
  revert tr. induction ts as [|t ts IH]; intros tr; simpl.
  - rewrite app_nil_r. now destruct tr.
  - rewrite IH. unfold addTransactionDOM, with_list_items; simpl.
    f_equal. now rewrite <- app_assoc.
Qed.

Lemma init_transactions (tr : ExpenseTracker) :
  transactions (init tr) = transactions tr.
Proof.
  unfold init. rewrite render_all. simpl.
  unfold populateCategoryDropdown. now destruct (categorySelect _).
Qed.

Lemma init_categories (tr : ExpenseTracker) :
  categories (init tr) = categories tr.
Proof.
  unfold init. rewrite render_all. simpl.
  unfold populateCategoryDropdown. now destruct (categorySelect _).
Qed.

Lemma init_init (tr : ExpenseTracker) : init (init tr) = init tr.
Proof.
  unfold init. rewrite !render_all.
  destruct tr as [b p m l tv av radios sel ts cs].
  unfold populateCategoryDropdown; destruct sel as [sel|]; reflexivity.
Qed.

Lemma with_transactions_same (tr : ExpenseTracker) :
  with_transactions (transactions tr) tr = tr.
Proof. now destruct tr. Qed.

Lemma removeTransaction_transactions (id0 : Z) (st : State) :
  transactions (this (removeTransaction id0 st))
  = List.filter (fun t => negb (id t =? id0)) (transactions (this st)).
Proof.
  unfold removeTransaction, updateLocalStorage. cbn [this].
  now rewrite init_transactions.
Qed.

Lemma filter_keeps_all {A} (f : A -> bool) (l : list A) :
  (forall x, In x l -> f x = true) -> List.filter f l = l.
Proof.
  induction l as [|a l IH]; intros H; simpl; [reflexivity|].
  rewrite (H a (or_introl eq_refl)). f_equal. apply IH.
  intros x Hx. apply H. now right.
Qed.

Lemma filter_twice {A} (f : A -> bool) (l : list A) :
  List.filter f (List.filter f l) = List.filter f l.
Proof.
  apply filter_keeps_all. intros x Hx. now apply List.filter_In in Hx.
Qed.

Lemma filter_sublist {A} (f : A -> bool) (l : list A) :
  sublist (List.filter f l) l.
Proof.
  induction l as [|a l IH]; simpl; [constructor|].
  destruct (f a); now constructor.
Qed.

(** *** C7 *)

(** C7. Deleting the same identifier a second time changes nothing: the
    state after two calls of [removeTransaction(id)] is the state after
    one (array, stored snapshot and rendered page alike). Deleting an
    identifier that no transaction carries leaves the array as it was,
    and no path of the method raises an error. *)
Theorem removeTransaction_idempotent (id0 : Z) (st : State) :
  removeTransaction id0 (removeTransaction id0 st) = removeTransaction id0 st
  /\ ((forall t, In t (transactions (this st)) -> id t <> id0) ->
      transactions (this (removeTransaction id0 st)) = transactions (this st)).
Proof.
  split.
  - set (once := removeTransaction id0 st).
    assert (Hts : List.filter (fun t => negb (id t =? id0)) (transactions (this once))
                  = transactions (this once)).
    { unfold once. rewrite removeTransaction_transactions. apply filter_twice. }
    assert (Hinit : init (this once) = this once).
    { unfold once, removeTransaction. cbn [this]. apply init_init. }
    assert (Hsto : localStorage once
                   = <[ lit "transactions" :=
                          JSON_stringify
                            (VArr (List.map Transaction_value (transactions (this once)))) ]>
                       (localStorage st)).
    { unfold once at 1. unfold removeTransaction, updateLocalStorage.
      cbn [this localStorage]. unfold once.
      now rewrite removeTransaction_transactions. }
    unfold removeTransaction at 1. unfold updateLocalStorage. cbn [this localStorage].
    rewrite Hts, with_transactions_same, Hinit.
    rewrite Hsto at 1. rewrite insert_insert_eq, <- Hsto.
    now destruct once.
  - intros H. rewrite removeTransaction_transactions.
    apply filter_keeps_all. intros t Ht.
    apply negb_true_iff, Z.eqb_neq. now apply H.
Qed.

Lemma removeTransaction_idempotent_witness :
  transactions (this (removeTransaction 5 same_millisecond_twice))
  = transactions (this same_millisecond_twice).
Proof.
  apply (proj2 (removeTransaction_idempotent 5 same_millisecond_twice)).
  intros t Ht.
  assert (E : List.map id (transactions (this same_millisecond_twice)) = [7; 7])
    by (vm_compute; reflexivity).
  apply (in_map id) in Ht. rewrite E in Ht. simpl in Ht. lia.
Defined.

(** *** C10 *)

(** C10. [removeTransaction(id)] keeps exactly the transactions whose
    identifier differs from [id], in their order: every transaction that
    carries [id] goes, however many there are. Two submissions read at
    the same millisecond do share an identifier, and one call deletes
    both. *)
Theorem removeTransaction_removes_all (id0 : Z) (st : State) :
  Forall (fun t => id t <> id0) (transactions (this (removeTransaction id0 st)))
  /\ (forall t, In t (transactions (this (removeTransaction id0 st)))
                <-> In t (transactions (this st)) /\ id t <> id0)
  /\ sublist (transactions (this (removeTransaction id0 st)))
             (transactions (this st))
  /\ (List.map id (transactions (this same_millisecond_twice)) = [7; 7]
      /\ transactions (this (removeTransaction 7 same_millisecond_twice)) = []).
Proof.
  rewrite removeTransaction_transactions.
  split; [|split; [|split]].
  - apply List.Forall_forall. intros t Ht. apply List.filter_In in Ht.
    destruct Ht as [_ Ht]. now apply negb_true_iff, Z.eqb_neq in Ht.
  - intros t. rewrite List.filter_In, negb_true_iff, Z.eqb_neq. reflexivity.
  - apply filter_sublist.
  - vm_compute. split; reflexivity.
Qed.

(** *** C9 *)

Lemma built_category (now : Z) (st : State) :
  category (built now st) <> []
  /\ (chosen_category st = [] -> category (built now st) = lit "Uncategorized")
  /\ (chosen_category st <> [] -> category (built now st) = chosen_category st).
Proof.
  unfold built; cbn [category].
  destruct (chosen_category st) as [|c cs]; repeat split; try discriminate; congruence.
Qed.

Lemma added_is_built now st t st' :
  addTransaction now st = (Added t, st') ->
  t = built now st /\ st' = after_add now st.
Proof.
  destruct (addTransaction_path now st) as [_ E | _ _ _ E | _ _ _ E];
    rewrite E; intros H; inversion H; auto.
Qed.

Lemma addTransaction_transactions now st :
  transactions (this (snd (addTransaction now st))) = transactions (this st)
  \/ transactions (this (snd (addTransaction now st)))
     = transactions (this st) ++ [built now st]
     /\ fst (addTransaction now st) = Added (built now st).
Proof.
  destruct (addTransaction_path now st) as [_ E | _ _ _ E | _ _ _ E]; rewrite E;
    [left | left | right]; auto.
Qed.

(** C9. The transaction a submission builds never has an empty category:
    it is the drop-down's value when that is a non-empty string, and
    ["Uncategorized"] when the drop-down is missing or its value is
    empty. So no transaction of a state reached from an empty array has
    an empty category. *)
Theorem category_never_empty :
  (forall now st t st',
      addTransaction now st = (Added t, st') ->
      category t <> []
      /\ (chosen_category st = [] -> category t = lit "Uncategorized")
      /\ (chosen_category st <> [] -> category t = chosen_category st))
  /\ (forall st, reachable st ->
        Forall (fun t => category t <> []) (transactions (this st))).
Proof.
  split.
  - intros now st t st' H. apply added_is_built in H as [-> _].
    apply built_category.
  - intros st H. induction H as [st E | | now st H IH | id0 st H IH].
    + rewrite E. constructor.
    + exact IHreachable.
    + destruct (addTransaction_transactions now st) as [E | [E _]]; rewrite E.
      * exact IH.
      * apply Forall_app. split; [exact IH|].
        constructor; [apply built_category | constructor].
    + rewrite removeTransaction_transactions.
      apply List.Forall_forall. intros t Ht. apply List.filter_In in Ht as [Ht _].
      revert t Ht. now apply List.Forall_forall.
Qed.

Lemma category_never_empty_witness :
  Forall (fun t => category t <> []) (transactions (this same_millisecond_twice)).
Proof.
  apply (proj2 category_never_empty).
  unfold same_millisecond_twice.
  apply reachable_add, reachable_edit, reachable_add, reachable_edit, reachable_start.
  reflexivity.
Defined.

(** *** C6 *)

(** C6, as the claim states it, fails: two submissions read at the same
    millisecond are both accepted and carry the same identifier, in a
    state reached by add operations only. *)
Lemma identifier_collision :
  reachable same_millisecond_twice
  /\ ~ NoDup (List.map id (transactions (this same_millisecond_twice))).
Proof.
  split.
  - unfold same_millisecond_twice.
    apply reachable_add, reachable_edit, reachable_add, reachable_edit, reachable_start.
    reflexivity.
  - assert (E : List.map id (transactions (this same_millisecond_twice)) = [7; 7])
      by (vm_compute; reflexivity).
    rewrite E. intros H. apply NoDup_cons in H as [H _]. apply H. now left.
Qed.

(** C6, amended. The identifier of a new transaction is the reading of
    [Date.now()] at the submission. When the readings of successive
    submissions strictly increase, every identifier in the array is at
    most the last reading, so a new one differs from all of them, and the
    identifiers of every state reached from an empty array by add and
    remove operations are pairwise distinct. *)
Theorem identifiers_distinct_under_increasing_clock :
  (forall now st t st', addTransaction now st = (Added t, st') -> id t = now)
  /\ (forall c st,
        reachable_at c st ->
        NoDup (List.map id (transactions (this st)))
        /\ Forall (fun t => id t <= c) (transactions (this st))
        /\ (forall now, c < now ->
              Forall (fun t => id t <> now) (transactions (this st)))).
Proof.
  split.
  - intros now st t st' H. now apply added_is_built in H as [-> _].
  - assert (main : forall c st, reachable_at c st ->
              NoDup (List.map id (transactions (this st)))
              /\ Forall (fun t => id t <= c) (transactions (this st))).
    { intros c st H.
      induction H as [c st E | c l a r s st H IH | c now st H IH Hlt | c id0 st H IH].
      - rewrite E. split; constructor.
      - exact IH.
      - destruct IH as [IHn IHb].
        assert (IHb' : Forall (fun t => id t <= now) (transactions (this st))).
        { eapply Forall_impl; [exact IHb|]. simpl. intros; lia. }
        destruct (addTransaction_transactions now st) as [E | [E _]]; rewrite E.
        + now split.
        + split.
          * rewrite map_app. apply NoDup_app. split; [exact IHn|].
            split; [|simpl; apply NoDup_singleton].
            intros x Hx Hin. apply list_elem_of_In in Hx, Hin.
            simpl in Hin. destruct Hin as [<-|[]].
            apply in_map_iff in Hx as [t [Ht Hin]].
            rewrite List.Forall_forall in IHb. apply IHb in Hin. lia.
          * apply Forall_app. split; [exact IHb'|].
            constructor; [simpl; lia | constructor].
      - destruct IH as [IHn IHb]. rewrite removeTransaction_transactions. split.
        + clear IHb. induction (transactions (this st)) as [|t ts IHts]; simpl.
          * constructor.
          * apply NoDup_cons in IHn as [Hn Hd]. destruct (negb (id t =? id0)); simpl.
            -- apply NoDup_cons. split; [|now apply IHts].
               intros Hin. apply Hn. apply list_elem_of_In in Hin.
               apply list_elem_of_In.
               apply in_map_iff in Hin as [u [Hu Hin]]. apply List.filter_In in Hin as [Hin _].
               apply in_map_iff. now exists u.
            -- now apply IHts.
        + apply List.Forall_forall. intros t Ht. apply List.filter_In in Ht as [Ht _].
          revert t Ht. now apply List.Forall_forall. }
    intros c st H. destruct (main c st H) as [Hn Hb].
    split; [exact Hn | split; [exact Hb|]].
    intros now Hlt. eapply Forall_impl; [exact Hb|]. simpl. intros; lia.
Qed.

Lemma identifiers_distinct_witness :
  NoDup (List.map id
           (transactions
              (this (snd (addTransaction 8
                       (fill (lit "b") (lit "2") (lit "income") None
                          (snd (addTransaction 7
                             (fill (lit "a") (lit "1") (lit "income") None
                                first_visit)))))))))
  /\ id (built 8 (fill (lit "b") (lit "2") (lit "income") None first_visit)) = 8.
Proof.
  split.
  - eapply (proj2 identifiers_distinct_under_increasing_clock 8).
    apply at_add with (c := 7); [|lia].
    apply at_edit.
    apply at_add with (c := 0); [|lia].
    apply at_edit, at_start. reflexivity.
  - apply (proj1 identifiers_distinct_under_increasing_clock 8
             (fill (lit "b") (lit "2") (lit "income") None first_visit)
             (built 8 (fill (lit "b") (lit "2") (lit "income") None first_visit))
             (after_add 8 (fill (lit "b") (lit "2") (lit "income") None first_visit))).
    vm_compute. reflexivity.
Defined.

(** *** Rounding never produces NaN *)

Section RoundingSign.

Lemma shr_1_nonneg (mrs : shr_record) :
  0 <= shr_m mrs -> 0 <= shr_m (shr_1 mrs).
Proof.
  destruct mrs as [m r s]; simpl.
  destruct m as [|p|p]; [| destruct p | destruct p]; simpl; lia.
Qed.

Lemma iter_pos_preserves {A : Type} (P : A -> Prop) (f : A -> A) :
  (forall x, P x -> P (f x)) ->
  forall (n : positive) (x : A), P x -> P (SpecFloat.iter_pos f n x).
Proof.
  intros Hf. induction n as [n IH | n IH |]; simpl; intros x Hx; auto.
Qed.

Lemma shr_nonneg (mrs : shr_record) (e n : Z) :
  0 <= shr_m mrs -> 0 <= shr_m (fst (shr mrs e n)).
Proof.
  intros H. unfold shr. destruct n as [|p|p]; simpl; try assumption.
  apply (iter_pos_preserves (fun r => 0 <= shr_m r)); [apply shr_1_nonneg | assumption].
Qed.

Lemma shr_record_of_loc_m (m : Z) (l : location) :
  shr_m (shr_record_of_loc m l) = m.
Proof. destruct l as [|[]]; reflexivity. Qed.

Lemma shr_fexp_nonneg (m e : Z) (l : location) :
  0 <= m -> 0 <= shr_m (fst (shr_fexp prec emax m e l)).
Proof.
  intros H. unfold shr_fexp. apply shr_nonneg. now rewrite shr_record_of_loc_m.
Qed.

Lemma round_nearest_even_nonneg (m : Z) (l : location) :
  0 <= m -> 0 <= round_nearest_even m l.
Proof.
  intros H. destruct l as [|[]]; simpl; try lia. destruct (Z.even m); lia.
Qed.

Lemma binary_round_aux_not_nan (sx : bool) (mx ex : Z) (lx : location) :
  0 <= mx -> binary_round_aux prec emax sx mx ex lx <> S754_nan.
Proof.
  intros H. unfold binary_round_aux.
  pose proof (shr_fexp_nonneg mx ex lx H) as H1.
  destruct (shr_fexp prec emax mx ex lx) as [mrs' e']. simpl in H1.
  pose proof (shr_fexp_nonneg _ e' loc_Exact
                (round_nearest_even_nonneg _ (loc_of_shr_record mrs') H1)) as H2.
  destruct (shr_fexp prec emax _ e' loc_Exact) as [mrs'' e'']. simpl in H2.
  destruct (shr_m mrs'') as [|m|m]; [discriminate | | lia].
  destruct (e'' <=? emax - prec); discriminate.
Qed.

Lemma round_ratio_not_nan (sign : bool) (p q : positive) :
  round_ratio sign p q <> NaN.
Proof.
  unfold round_ratio, SFdiv, SFdiv_core_binary.
  set (e' := Z.min _ _). set (m' := match 0 - 0 - e' with 0 => _ | _ => _ end).
  assert (Hm : 0 <= m').
  { unfold m'. destruct (0 - 0 - e'); try lia. rewrite Z.shiftl_mul_pow2; lia. }
  pose proof (Z.div_eucl_eq m' (Zpos q) ltac:(lia)) as Hd.
  pose proof (Z.mod_pos_bound m' (Zpos q) ltac:(lia)) as Hr.
  unfold Z.modulo in Hr.
  destruct (Z.div_eucl m' (Zpos q)) as [d r].
  apply binary_round_aux_not_nan. nia.
Qed.

Lemma of_decimal_not_nan (sign : bool) (d e : Z) : of_decimal sign d e <> NaN.
Proof.
  unfold of_decimal, round_Q. destruct (Qnum _); try discriminate.
  apply round_ratio_not_nan.
Qed.

End RoundingSign.

(** *** parseFloat gives NaN exactly on texts without a numeric prefix *)

Lemma eat_cons (c d : N) (r : list N) :
  eat c (d :: r) = if (d =? c)%N then Some r else None.
Proof. reflexivity. Qed.

Lemma take_digits_nondigit (c : N) (s : list N) :
  is_digit c = false -> take_digits (c :: s) = ([], c :: s).
Proof. intros H. simpl. now rewrite H. Qed.

Lemma take_digits_digit (c : N) (s : list N) :
  is_digit c = true ->
  take_digits (c :: s) = (c :: fst (take_digits s), snd (take_digits s)).
Proof. intros H. simpl. rewrite H. now destruct (take_digits s). Qed.

Lemma scan_unsigned_literal_none (u : list N) :
  scan_unsigned_literal u = None <-> unsigned_numeric_prefix u = false.
Proof.
  unfold scan_unsigned_literal, unsigned_numeric_prefix.
  destruct (starts_with (lit "Infinity") u); [easy|]. simpl orb.
  destruct u as [|c u'].
  { simpl. easy. }
  destruct (is_digit c) eqn:Hc.
  - rewrite (take_digits_digit _ _ Hc). simpl orb.
    destruct (eat 46 (snd (take_digits u'))) as [r1'|].
    + destruct (take_digits r1') as [fp r2]. simpl.
      destruct (scan_exponent r2). easy.
    + simpl. destruct (scan_exponent _). easy.
  - rewrite (take_digits_nondigit _ _ Hc). rewrite eat_cons. simpl orb.
    destruct (c =? 46)%N; [|easy]. simpl andb.
    destruct u' as [|d u''].
    { simpl. easy. }
    destruct (is_digit d) eqn:Hd.
    + rewrite (take_digits_digit _ _ Hd). destruct (scan_exponent _). easy.
    + rewrite (take_digits_nondigit _ _ Hd). easy.
Qed.

Lemma eat_sign_cases (s : list N) :
  match s with
  | c :: u => if ((c =? 43) || (c =? 45))%N
              then snd (eat_sign s) = u else snd (eat_sign s) = s
  | [] => snd (eat_sign s) = []
  end.
Proof.
  destruct s as [|c u]; [reflexivity|]. unfold eat_sign. rewrite !eat_cons.
  destruct (c =? 43)%N; [reflexivity|]. destruct (c =? 45)%N; reflexivity.
Qed.

Lemma parseFloat_NaN (s : list N) :
  parseFloat s = NaN <-> numeric_prefix s = false.
Proof.
  unfold parseFloat, numeric_prefix.
  pose proof (eat_sign_cases (trim_start s)) as Hs.
  destruct (eat_sign (trim_start s)) as [minus u]. simpl in Hs.
  assert (Hu : unsigned_numeric_prefix u
               = match trim_start s with
                 | c :: u0 => if ((c =? 43) || (c =? 45))%N
                              then unsigned_numeric_prefix u0
                              else unsigned_numeric_prefix (c :: u0)
                 | [] => false
                 end).
  { destruct (trim_start s) as [|c u0]; [now subst|].
    destruct ((c =? 43) || (c =? 45))%N; now subst. }
  rewrite <- Hu, <- scan_unsigned_literal_none.
  destruct (scan_unsigned_literal u) as [[|d e]|]; split; intros H;
    try discriminate; try reflexivity.
  now apply of_decimal_not_nan in H.
Qed.

(** *** C2 *)

(** C2, as the claim states it, fails: an amount text that is not a
    number as a whole is accepted when it starts with one. The amount
    [12 apples] is accepted as 12 and the amount [1,000] as 1, although
    neither text is a number. *)
Lemma trailing_text_is_accepted :
  whole_number_text (lit "12 apples") = false
  /\ (exists t,
        fst (addTransaction 1
               (fill (lit "Gift") (lit "12 apples") (lit "income") None first_visit))
        = Added t
        /\ amount t = of_Z 12)
  /\ whole_number_text (lit "1,000") = false
  /\ (exists t,
        fst (addTransaction 1
               (fill (lit "Gift") (lit "1,000") (lit "income") None first_visit))
        = Added t
        /\ amount t = of_Z 1).
Proof.
  split; [vm_compute; reflexivity|]. split.
  { eexists. split; vm_compute; reflexivity. }
  split; [vm_compute; reflexivity|].
  eexists. split; vm_compute; reflexivity.
Qed.

(** The other direction holds: a text that is a number as a whole has a
    numeric prefix, so such an amount is never rejected as invalid. *)
Lemma unsigned_number_has_prefix (u : list N) :
  negb (bool_decide
          (fst (take_digits u)
           ++ fst match eat 46 (snd (take_digits u)) with
                  | Some r => take_digits r
                  | None => ([], snd (take_digits u))
                  end = [])) = true ->
  unsigned_numeric_prefix u = true.
Proof.
  intros H. apply negb_true_iff, bool_decide_eq_false in H.
  unfold unsigned_numeric_prefix. apply orb_true_iff. right.
  destruct u as [|d u']; [now destruct H|].
  destruct (is_digit d) eqn:Hd; [reflexivity|].
  rewrite take_digits_nondigit in H by exact Hd. cbn [fst snd app] in H.
  rewrite eat_cons in H. cbn [orb].
  destruct (d =? 46)%N; [|now destruct H]. cbn [andb].
  destruct u' as [|d' u'']; [now destruct H|].
  destruct (is_digit d') eqn:Hd'; [reflexivity|].
  rewrite take_digits_nondigit in H by exact Hd'. now destruct H.
Qed.

Lemma whole_number_text_has_prefix (s : list N) :
  whole_number_text s = true -> numeric_prefix s = true.
Proof.
  unfold whole_number_text, numeric_prefix.
  destruct (eat_sign s) as [minus u] eqn:Es.
  destruct (take_digits u) as [ip r1] eqn:Eu.
  destruct (match eat 46 r1 with
            | Some r => take_digits r
            | None => ([], r1)
            end) as [fp r2] eqn:Ef.
  destruct (scan_exponent r2) as [e r3].
  intros H. apply andb_true_iff in H as [H _].
  assert (Hu : unsigned_numeric_prefix u = true).
  { apply unsigned_number_has_prefix. rewrite Eu. cbn [fst snd].
    rewrite Ef. exact H. }
  pose proof (eat_sign_cases s) as Hs. rewrite Es in Hs. cbn [snd] in Hs.
  destruct s as [|c s']; [now subst u|].
  destruct ((c =? 43) || (c =? 45))%N eqn:Hc.
  - assert (Hws : is_white_space c = false).
    { apply orb_true_iff in Hc as [Hc|Hc]; apply N.eqb_eq in Hc; now subst c. }
    cbn [trim_start]. rewrite Hws, Hc. now subst u.
  - subst u. destruct (is_white_space c) eqn:Hws.
    + exfalso. unfold unsigned_numeric_prefix in Hu.
      assert (Hd : is_digit c = false).
      { unfold is_white_space in Hws. unfold is_digit.
        destruct (48 <=? c)%N eqn:H1, (c <=? 57)%N eqn:H2; try reflexivity.
        apply N.leb_le in H1, H2. exfalso.
        repeat (apply orb_true_iff in Hws as [Hws|Hws]);
          try (apply andb_true_iff in Hws as [Ha Hb]; apply N.leb_le in Ha, Hb; lia);
          try (apply N.eqb_eq in Hws; lia). }
      assert (H46 : (c =? 46)%N = false).
      { apply N.eqb_neq. intros ->. discriminate. }
      assert (HI : starts_with (lit "Infinity") (c :: s') = false).
      { unfold starts_with. apply bool_decide_eq_false. intros E.
        assert (c = 73%N) by (now injection E). subst c. discriminate. }
      rewrite HI, Hd, H46 in Hu. discriminate.
    + cbn [trim_start]. rewrite Hws, Hc. exact Hu.
Qed.

(** C2, amended. A submission is rejected with the empty-input alert
    exactly when the trimmed label or the trimmed amount text is empty.
    When both are non-empty it is rejected with the invalid-number alert
    exactly when [parseFloat] finds no number at the head of the amount
    text, that is when the text has no numeric prefix (whatever follows
    such a prefix is ignored); otherwise it goes through and yields the
    transaction built from the form. In particular a blank label with
    amount [5] is rejected as empty input, and label [Gift] with amount
    [abc] as an invalid number. *)
Theorem addTransaction_validation (now : Z) (st : State) :
  (fst (addTransaction now st) = EmptyInput
   <-> trim (text_value (this st)) = [] \/ trim (amount_value (this st)) = [])
  /\ (trim (text_value (this st)) <> [] ->
      trim (amount_value (this st)) <> [] ->
      (fst (addTransaction now st) = InvalidNumber
       <-> parseFloat (trim (amount_value (this st))) = NaN)
      /\ (parseFloat (trim (amount_value (this st))) = NaN
          <-> numeric_prefix (trim (amount_value (this st))) = false)
      /\ (numeric_prefix (trim (amount_value (this st))) = true ->
          fst (addTransaction now st) = Added (built now st)))
  /\ (forall category,
        fst (addTransaction now (fill (lit "") (lit "5") (lit "expense") category st))
        = EmptyInput)
  /\ (forall category,
        fst (addTransaction now (fill (lit "Gift") (lit "abc") (lit "income") category st))
        = InvalidNumber).
Proof.
  assert (Hne : EmptyInput <> InvalidNumber) by (vm_compute; discriminate).
  split; [|split; [|split]].
  - destruct (addTransaction_path now st) as [H E | Ht Ha _ E | Ht Ha _ E];
      rewrite E; cbn [fst]; split; intros H'.
    + exact H.
    + reflexivity.
    + now symmetry in H'.
    + destruct H'; contradiction.
    + discriminate H'.
    + destruct H'; contradiction.
  - intros Ht Ha. split; [|split].
    + destruct (addTransaction_path now st) as [[H|H] E | _ _ Hn E | _ _ Hn E];
        try contradiction; rewrite E; cbn [fst]; split; intros H'.
      * exact Hn.
      * reflexivity.
      * discriminate H'.
      * contradiction.
    + apply parseFloat_NaN.
    + intros Hp.
      destruct (addTransaction_path now st) as [[H|H] E | _ _ Hn E | _ _ Hn E];
        try contradiction; rewrite E; cbn [fst].
      * apply parseFloat_NaN in Hn. congruence.
      * reflexivity.
  - intros category.
    destruct (addTransaction_path now (fill (lit "") (lit "5") (lit "expense") category st))
      as [_ E | Ht _ _ _ | Ht _ _ _]; [now rewrite E | |]; now destruct Ht.
  - intros category.
    destruct (addTransaction_path now (fill (lit "Gift") (lit "abc") (lit "income") category st))
      as [[H|H] _ | _ _ _ E | _ _ Hn _]; try discriminate H; [now rewrite E|].
    now destruct Hn.
Qed.

Lemma addTransaction_validation_witness :
  fst (addTransaction 1 (fill (lit "Gift") (lit "12 apples") (lit "income") None first_visit))
  = Added (built 1 (fill (lit "Gift") (lit "12 apples") (lit "income") None first_visit)).
Proof.
  apply (proj1 (proj2 (addTransaction_validation 1
           (fill (lit "Gift") (lit "12 apples") (lit "income") None first_visit)))).
  - vm_compute. discriminate.
  - vm_compute. discriminate.
  - vm_compute. reflexivity.
Defined.

(** *** C4 *)

Lemma gt_zero (x : number) : gt x zero = strictly_positive x.
Proof. destruct x as [s|s| |s m e]; try destruct s; reflexivity. Qed.

Lemma lt_zero (x : number) : lt x zero = strictly_negative x.
Proof. destruct x as [s|s| |s m e]; try destruct s; reflexivity. Qed.

Lemma fold_add_sum_from (ts : list Transaction) (acc : number) :
  fold_left (fun acc item => add acc item) (List.map (fun t => amount t) ts) acc
  = sum_from acc ts.
Proof.
  revert acc. induction ts as [|t ts IH]; intros acc; simpl; [reflexivity|].
  apply IH.
Qed.

Lemma filter_amounts (p : number -> bool) (ts : list Transaction) :
  List.filter p (List.map (fun t => amount t) ts)
  = List.map (fun t => amount t) (List.filter (fun t => p (amount t)) ts).
Proof.
  induction ts as [|t ts IH]; simpl; [reflexivity|].
  destruct (p (amount t)); simpl; now rewrite IH.
Qed.

Lemma filter_ext_bool {A} (f g : A -> bool) (l : list A) :
  (forall x, f x = g x) -> List.filter f l = List.filter g l.
Proof.
  intros H. induction l as [|a l IH]; simpl; [reflexivity|].
  rewrite H, IH. reflexivity.
Qed.

(** C4. The three totals of [updateValues] are sums accumulated from 0
    in sequence order with the addition of Numbers: [total] over all
    amounts, [income] over the strictly positive ones and [expense] over
    the strictly negative ones, the last kept with its sign. For the
    amounts +100, -40, -10 they are 50, 100 and -50, which [toFixed(2)]
    prints as 50.00, 100.00 and -50.00. *)
Theorem totals_are_sums (ts : list Transaction) :
  total (totals ts) = sum_of_amounts ts
  /\ income (totals ts)
     = sum_of_amounts (List.filter (fun t => strictly_positive (amount t)) ts)
  /\ expense (totals ts)
     = sum_of_amounts (List.filter (fun t => strictly_negative (amount t)) ts)
  /\ (List.map amount ts = [of_Z 100; of_Z (-40); of_Z (-10)] ->
      totals ts = {| total := of_Z 50; income := of_Z 100; expense := of_Z (-50) |}
      /\ toFixed2 (total (totals ts)) = lit "50.00"
      /\ toFixed2 (income (totals ts)) = lit "100.00"
      /\ toFixed2 (expense (totals ts)) = lit "-50.00").
Proof.
  unfold totals, sum_of_amounts, reduce_add; cbn [total income expense].
  split; [|split; [|split]].
  - apply fold_add_sum_from.
  - rewrite filter_amounts, fold_add_sum_from. f_equal.
    apply filter_ext_bool. intros t. apply gt_zero.
  - rewrite filter_amounts, fold_add_sum_from. f_equal.
    apply filter_ext_bool. intros t. apply lt_zero.
  - intros H. change (List.map (fun t => amount t) ts) with (List.map amount ts).
    rewrite H. vm_compute. repeat split.
Qed.

Lemma totals_are_sums_witness :
  totals (with_amounts [of_Z 100; of_Z (-40); of_Z (-10)])
  = {| total := of_Z 50; income := of_Z 100; expense := of_Z (-50) |}.
Proof.
  apply (proj2 (proj2 (proj2
           (totals_are_sums (with_amounts [of_Z 100; of_Z (-40); of_Z (-10)]))))).
  vm_compute. reflexivity.
Defined.

(** *** C5 *)

Lemma fill_inputs label rawAmount kind category st :
  text_value (this (fill label rawAmount kind category st)) = label
  /\ amount_value (this (fill label rawAmount kind category st)) = rawAmount
  /\ kind_of (fill label rawAmount kind category st) = kind.
Proof. repeat split. Qed.

(** C5. When the trimmed label is non-empty and [parseFloat] finds a
    number in the trimmed amount text, the submission goes through and
    the amount of its transaction is the absolute value of that number,
    negated exactly when the selected kind is ["expense"]. Coffee, 3.50,
    expense gives the Number nearest to -3.50; Paycheck, 1000, income
    gives 1000. *)
Theorem addTransaction_amount_sign :
  (forall now st,
      trim (text_value (this st)) <> [] ->
      parseFloat (trim (amount_value (this st))) <> NaN ->
      exists t,
        fst (addTransaction now st) = Added t
        /\ amount t
           = if jsstring_eqb (kind_of st) (lit "expense")
             then neg (Math_abs (parseFloat (trim (amount_value (this st)))))
             else Math_abs (parseFloat (trim (amount_value (this st)))))
  /\ (forall now st category,
        exists t,
          fst (addTransaction now
                 (fill (lit "Coffee") (lit "3.50") (lit "expense") category st))
          = Added t
          /\ amount t = of_decimal true 350 (-2)
          /\ toFixed2 (amount t) = lit "-3.50")
  /\ (forall now st category,
        exists t,
          fst (addTransaction now
                 (fill (lit "Paycheck") (lit "1000") (lit "income") category st))
          = Added t
          /\ amount t = of_Z 1000
          /\ toFixed2 (amount t) = lit "1000.00").
Proof.
  assert (general : forall now st,
      trim (text_value (this st)) <> [] ->
      parseFloat (trim (amount_value (this st))) <> NaN ->
      fst (addTransaction now st) = Added (built now st)).
  { intros now st Ht Hn.
    destruct (addTransaction_path now st) as [[H|H] E | _ _ Hn' E | _ _ _ E];
      rewrite E; cbn [fst]; try reflexivity; try contradiction.
    rewrite H in Hn. now destruct Hn. }
  split; [|split].
  - intros now st Ht Hn. exists (built now st). split; [now apply general|].
    reflexivity.
  - intros now st category.
    exists (built now (fill (lit "Coffee") (lit "3.50") (lit "expense") category st)).
    split; [apply general; vm_compute; discriminate|].
    split; vm_compute; reflexivity.
  - intros now st category.
    exists (built now (fill (lit "Paycheck") (lit "1000") (lit "income") category st)).
    split; [apply general; vm_compute; discriminate|].
    split; vm_compute; reflexivity.
Qed.

Lemma addTransaction_amount_sign_witness :
  exists t,
    fst (addTransaction 1 (fill (lit "Tea") (lit " 2.25 ") (lit "expense") None first_visit))
    = Added t
    /\ amount t = of_decimal true 225 (-2).
Proof.
  destruct (proj1 addTransaction_amount_sign 1
              (fill (lit "Tea") (lit " 2.25 ") (lit "expense") None first_visit))
    as [t [E A]].
  - vm_compute. discriminate.
  - vm_compute. discriminate.
  - exists t. split; [exact E|]. rewrite A. vm_compute. reflexivity.
Defined.

(* ===================================================================== *)
(** ** Writing a Number as decimal text and reading it back               *)
(* ===================================================================== *)

(** *** Binary digits *)

Lemma digits2_pos_size (p : positive) : digits2_pos p = Pos.size p.
Proof. induction p as [p IH | p IH |]; simpl; now rewrite ?IH. Qed.

Lemma Zdigits2_log2 (p : positive) :
  Zdigits2 (Zpos p) = Z.log2 (Zpos p) + 1.
Proof.
  simpl. rewrite digits2_pos_size.
  destruct p as [p | p |]; simpl; try reflexivity; lia.
Qed.

Lemma Zdigits2_bounds (p : positive) :
  2 ^ (Zdigits2 (Zpos p) - 1) <= Zpos p < 2 ^ Zdigits2 (Zpos p).
Proof.
  rewrite Zdigits2_log2.
  replace (Z.log2 (Zpos p) + 1 - 1) with (Z.log2 (Zpos p)) by lia.
  apply (Z.log2_spec (Zpos p)). lia.
Qed.

Lemma Zdigits2_unique (n d : Z) :
  0 < n -> 2 ^ (d - 1) <= n < 2 ^ d -> Zdigits2 n = d.
Proof.
  intros Hn H. destruct n as [|p|p]; try lia.
  rewrite Zdigits2_log2.
  assert (Hd : 0 < d).
  { destruct (Z.le_gt_cases d 0) as [Hle|]; [|assumption].
    destruct H as [_ H].
    destruct (Z.eq_dec d 0) as [->|]; [simpl in H; lia|].
    rewrite Z.pow_neg_r in H; lia. }
  rewrite (Z.log2_unique (Zpos p) (d - 1)); [lia | lia |].
  now replace (Z.succ (d - 1)) with d by lia.
Qed.

Lemma Zdigits2_mul_pow2 (p : positive) (j : Z) :
  0 <= j -> Zdigits2 (Zpos p * 2 ^ j) = Zdigits2 (Zpos p) + j.
Proof.
  intros Hj. pose proof (Zdigits2_bounds p) as [Hlo Hhi].
  assert (Hd : 0 < Zdigits2 (Zpos p)) by (simpl; lia).
  assert (Hp : 0 < 2 ^ j) by (apply Z.pow_pos_nonneg; lia).
  apply Zdigits2_unique; [nia|].
  replace (Zdigits2 (Zpos p) + j - 1) with (Zdigits2 (Zpos p) - 1 + j) by lia.
  rewrite !Z.pow_add_r by lia. split; nia.
Qed.

(** *** Shifting out zero bits *)

Lemma iter_pos_nat {A : Type} (f : A -> A) (p : positive) (x : A) :
  SpecFloat.iter_pos f p x = Nat.iter (Pos.to_nat p) f x.
Proof.
  revert x. induction p as [p IH | p IH |]; intros x; cbn [SpecFloat.iter_pos].
  - rewrite !IH, Pos2Nat.inj_xI.
    replace (S (2 * Pos.to_nat p)) with (Pos.to_nat p + S (Pos.to_nat p))%nat by lia.
    rewrite Nat.iter_add. f_equal. now rewrite Nat.iter_succ_r.
  - rewrite !IH, Pos2Nat.inj_xO.
    replace (2 * Pos.to_nat p)%nat with (Pos.to_nat p + Pos.to_nat p)%nat by lia.
    now rewrite Nat.iter_add.
  - reflexivity.
Qed.

Lemma shr_1_even (a : Z) :
  0 <= a ->
  shr_1 {| shr_m := 2 * a; shr_r := false; shr_s := false |}
  = {| shr_m := a; shr_r := false; shr_s := false |}.
Proof. intros H. destruct a as [|p|p]; try lia; reflexivity. Qed.

Lemma shr_zero_bits (n : nat) (a : Z) :
  0 <= a ->
  Nat.iter n shr_1 {| shr_m := a * 2 ^ Z.of_nat n; shr_r := false; shr_s := false |}
  = {| shr_m := a; shr_r := false; shr_s := false |}.
Proof.
  intros Ha. induction n as [|n IH].
  - simpl. now rewrite Z.mul_1_r.
  - rewrite Nat.iter_succ_r.
    replace (a * 2 ^ Z.of_nat (S n)) with (2 * (a * 2 ^ Z.of_nat n)).
    + rewrite shr_1_even; [exact IH|].
      apply Z.mul_nonneg_nonneg; [assumption|]. apply Z.pow_nonneg. lia.
    + rewrite Nat2Z.inj_succ, Z.pow_succ_r by lia. ring.
Qed.

Lemma shr_exact (a e j : Z) :
  0 <= a -> 0 <= j ->
  shr {| shr_m := a * 2 ^ j; shr_r := false; shr_s := false |} e j
  = ({| shr_m := a; shr_r := false; shr_s := false |}, e + j).
Proof.
  intros Ha Hj. unfold shr. destruct j as [|p|p]; try lia.
  - simpl. now rewrite Z.mul_1_r, Z.add_0_r.
  - rewrite iter_pos_nat. f_equal.
    rewrite <- (positive_nat_Z p). now apply shr_zero_bits.
Qed.

(** *** A representable quotient is rounded to itself *)

Lemma binary_round_aux_exact (sign : bool) (m : positive) (e j : Z) :
  bounded prec emax m e = true -> 0 <= j ->
  binary_round_aux prec emax sign (Zpos m * 2 ^ j) (e - j) loc_Exact
  = S754_finite sign m e.
Proof.
  intros Hb Hj. unfold bounded, canonical_mantissa in Hb.
  apply andb_true_iff in Hb as [Hc He]. apply Z.eqb_eq in Hc.
  unfold binary_round_aux, shr_fexp.
  rewrite Zdigits2_mul_pow2 by assumption.
  replace (Zdigits2 (Zpos m) + j + (e - j)) with (Zpos (digits2_pos m) + e)
    by (simpl; lia).
  rewrite Hc. replace (e - (e - j)) with j by lia.
  cbn [shr_record_of_loc]. rewrite shr_exact by lia.
  cbn [shr_m loc_of_shr_record round_nearest_even].
  replace (e - j + j) with e by lia.
  change (Zdigits2 (Zpos m)) with (Zpos (digits2_pos m)).
  rewrite Hc, Z.sub_diag. cbn [shr_record_of_loc shr shr_m].
  now rewrite He.
Qed.

Lemma fexp_monotone (a b : Z) : a <= b -> fexp prec emax a <= fexp prec emax b.
Proof. unfold fexp, emin. lia. Qed.

Lemma div_eucl_multiple (a b : Z) :
  0 < b -> Z.div_eucl (a * b) b = (a, 0).
Proof.
  intros Hb.
  pose proof (Z.div_mul a b ltac:(lia)) as Hq.
  pose proof (Z.mod_mul a b ltac:(lia)) as Hr.
  unfold Z.div, Z.modulo in Hq, Hr.
  destruct (Z.div_eucl (a * b) b) as [q r]. simpl in *. congruence.
Qed.

Lemma new_location_zero (n : Z) : new_location n 0 = loc_Exact.
Proof.
  unfold new_location, new_location_even, new_location_odd.
  destruct (Z.even n); reflexivity.
Qed.

Lemma round_ratio_exact (sign : bool) (p q m : positive) (e : Z) :
  bounded prec emax m e = true ->
  ratio_is p q m e ->
  round_ratio sign p q = S754_finite sign m e.
Proof.
  intros Hb Hv.
  pose proof Hb as Hb'. unfold bounded, canonical_mantissa in Hb'.
  apply andb_true_iff in Hb' as [Hc _]. apply Z.eqb_eq in Hc.
  pose proof (Zdigits2_bounds p) as [Hp1 Hp2].
  pose proof (Zdigits2_bounds q) as [Hq1 Hq2].
  pose proof (Zdigits2_bounds m) as [Hm1 Hm2].
  set (d1 := Zdigits2 (Zpos p)) in *. set (d2 := Zdigits2 (Zpos q)) in *.
  set (dm := Zdigits2 (Zpos m)) in *.
  assert (Hd1 : 0 < d1) by (unfold d1; simpl; lia).
  assert (Hd2 : 0 < d2) by (unfold d2; simpl; lia).
  assert (Hdm : 0 < dm) by (unfold dm; simpl; lia).
  (* the estimate of the magnitude is not above the magnitude *)
  assert (Hmag : d1 - d2 <= dm + e).
  { unfold ratio_is in Hv. destruct (0 <=? e) eqn:He.
    - apply Z.leb_le in He.
      assert (H : 2 ^ (d1 - 1) < 2 ^ (dm + e + d2)).
      { rewrite !Z.pow_add_r by lia.
        assert (H2e : 0 < 2 ^ e) by (apply Z.pow_pos_nonneg; lia).
        assert (Hme : Zpos m * 2 ^ e < 2 ^ dm * 2 ^ e)
          by (apply Z.mul_lt_mono_pos_r; assumption).
        assert (Hall : Zpos m * 2 ^ e * Zpos q < 2 ^ dm * 2 ^ e * 2 ^ d2)
          by (apply Z.mul_lt_mono_nonneg; lia).
        lia. }
      apply Z.pow_lt_mono_r_iff in H; lia.
    - apply Z.leb_gt in He.
      assert (H : 2 ^ (d1 - 1 + - e) < 2 ^ (dm + d2)).
      { rewrite !Z.pow_add_r by lia.
        assert (H2e : 0 < 2 ^ (- e)) by (apply Z.pow_pos_nonneg; lia).
        assert (Hpe : 2 ^ (d1 - 1) * 2 ^ (- e) <= Zpos p * 2 ^ (- e))
          by (apply Z.mul_le_mono_pos_r; assumption).
        assert (Hall : Zpos m * Zpos q < 2 ^ dm * 2 ^ d2)
          by (apply Z.mul_lt_mono_nonneg; lia).
        lia. }
      apply Z.pow_lt_mono_r_iff in H; lia. }
  set (e' := Z.min (fexp prec emax (d1 - d2)) 0).
  assert (He'0 : e' <= 0) by (unfold e'; lia).
  assert (He'e : e' <= e).
  { pose proof (fexp_monotone _ _ Hmag) as H.
    change dm with (Zpos (digits2_pos m)) in H. rewrite Hc in H. unfold e'. lia. }
  assert (Hquot : Zpos p * 2 ^ (- e') = Zpos m * 2 ^ (e - e') * Zpos q).
  { unfold ratio_is in Hv. destruct (0 <=? e) eqn:He.
    - apply Z.leb_le in He. rewrite Hv.
      replace (e - e') with (e + - e') by lia. rewrite Z.pow_add_r by lia. ring.
    - apply Z.leb_gt in He.
      replace (- e') with (- e + (e - e')) by lia. rewrite Z.pow_add_r by lia.
      rewrite Z.mul_assoc, Hv. ring. }
  unfold round_ratio, SFdiv, SFdiv_core_binary.
  fold d1 d2.
  replace (d1 + 0 - (d2 + 0)) with (d1 - d2) by lia.
  change (0 - 0) with 0. fold e'.
  assert (Hshift : match 0 - e' with
                   | 0 => Zpos p
                   | Zpos _ => Z.shiftl (Zpos p) (0 - e')
                   | Zneg _ => 0
                   end = Zpos m * 2 ^ (e - e') * Zpos q).
  { rewrite <- Hquot. replace (0 - e') with (- e') by lia.
    destruct (- e') as [|s|s] eqn:Hs.
    - now rewrite Z.pow_0_r, Z.mul_1_r.
    - rewrite Z.shiftl_mul_pow2 by lia. reflexivity.
    - lia. }
  rewrite Hshift, div_eucl_multiple by lia.
  rewrite new_location_zero, xorb_false_r.
  replace e' with (e - (e - e')) at 2 by lia.
  apply binary_round_aux_exact; [assumption | lia].
Qed.

(** *** Decimal digits *)

Lemma fold_digits_shift (ds : list N) (acc : Z) :
  fold_left (fun a c => 10 * a + (Z.of_N c - 48)) ds acc
  = acc * 10 ^ Z.of_nat (length ds) + digits_value ds.
Proof.
  unfold digits_value. revert acc.
  induction ds as [|c ds IH]; intros acc.
  - simpl. lia.
  - cbn [fold_left length]. rewrite IH, (IH (10 * 0 + _)).
    rewrite Nat2Z.inj_succ, Z.pow_succ_r by lia. ring.
Qed.

Lemma digits_value_app (a b : list N) :
  digits_value (a ++ b) = digits_value a * 10 ^ Z.of_nat (length b) + digits_value b.
Proof.
  unfold digits_value at 1. rewrite fold_left_app, fold_digits_shift. reflexivity.
Qed.

Lemma digits_value_cons (c : N) (l : list N) :
  digits_value (c :: l) = (Z.of_N c - 48) * 10 ^ Z.of_nat (length l) + digits_value l.
Proof.
  change (c :: l) with ([c] ++ l). rewrite digits_value_app.
  unfold digits_value at 1. simpl. lia.
Qed.

Lemma digits_value_zeros (n : Z) : digits_value (zeros n) = 0.
Proof.
  unfold zeros. induction (Z.to_nat n) as [|k IH]; [reflexivity|].
  cbn [repeat]. rewrite digits_value_cons, IH. lia.
Qed.

Lemma zeros_length (n : Z) : Z.of_nat (length (zeros n)) = Z.max 0 n.
Proof. unfold zeros. rewrite repeat_length. lia. Qed.

Lemma zeros_digits (n : Z) : Forall (fun c => is_digit c = true) (zeros n).
Proof.
  unfold zeros. induction (Z.to_nat n); simpl; constructor; auto.
Qed.

Lemma digit_unit_spec (d : Z) :
  0 <= d < 10 -> is_digit (digit_unit d) = true /\ Z.of_N (digit_unit d) - 48 = d.
Proof.
  intros H. unfold digit_unit, is_digit. split; [|lia].
  apply andb_true_iff. split; apply N.leb_le; lia.
Qed.

Lemma digits_onto_value (fuel : nat) (n : Z) (acc : list N) :
  0 <= n < 2 ^ Z.of_nat fuel ->
  digits_value (digits_onto fuel n acc)
  = n * 10 ^ Z.of_nat (length acc) + digits_value acc.
Proof.
  revert n acc. induction fuel as [|fuel IH]; intros n acc Hn.
  - simpl in *. assert (n = 0) by lia. subst. lia.
  - cbn [digits_onto].
    pose proof (Z.mod_pos_bound n 10 ltac:(lia)) as Hm.
    pose proof (Z.div_mod n 10 ltac:(lia)) as Hd.
    destruct (digit_unit_spec _ Hm) as [_ Hv].
    destruct (n <? 10) eqn:Hlt.
    + apply Z.ltb_lt in Hlt. rewrite digits_value_cons, Hv.
      rewrite Z.mod_small by lia. reflexivity.
    + apply Z.ltb_ge in Hlt. rewrite IH.
      * rewrite digits_value_cons, Hv. cbn [length].
        rewrite Nat2Z.inj_succ, Z.pow_succ_r by lia.
        set (P := 10 ^ Z.of_nat (length acc)). nia.
      * rewrite Nat2Z.inj_succ, Z.pow_succ_r in Hn by lia.
        split; [apply Z.div_pos; lia|].
        apply Z.div_lt_upper_bound; lia.
Qed.

Lemma digits_onto_digits (fuel : nat) (n : Z) (acc : list N) :
  0 <= n ->
  Forall (fun c => is_digit c = true) acc ->
  Forall (fun c => is_digit c = true) (digits_onto fuel n acc).
Proof.
  revert n acc. induction fuel as [|fuel IH]; intros n acc Hn Hacc; [exact Hacc|].
  cbn [digits_onto].
  pose proof (Z.mod_pos_bound n 10 ltac:(lia)) as Hm.
  destruct (digit_unit_spec _ Hm) as [Hd _].
  destruct (n <? 10).
  - now constructor.
  - apply IH; [apply Z.div_pos; lia | now constructor].
Qed.

Lemma digits_onto_head (fuel : nat) (n : Z) (acc : list N) :
  0 < n < 2 ^ Z.of_nat fuel ->
  exists d l, digits_onto fuel n acc = d :: l /\ d <> 48%N.
Proof.
  revert n acc. induction fuel as [|fuel IH]; intros n acc Hn.
  - simpl in Hn. lia.
  - cbn [digits_onto]. destruct (n <? 10) eqn:Hlt.
    + apply Z.ltb_lt in Hlt. eexists _, _. split; [reflexivity|].
      unfold digit_unit. rewrite Z.mod_small by lia. lia.
    + apply Z.ltb_ge in Hlt. apply IH.
      rewrite Nat2Z.inj_succ, Z.pow_succ_r in Hn by lia.
      split.
      * apply Z.div_str_pos. lia.
      * apply Z.div_lt_upper_bound; lia.
Qed.

Lemma digits_of_fuel (n : Z) :
  0 <= n -> 0 <= n < 2 ^ Z.of_nat (S (Z.to_nat (Z.log2 n))).
Proof.
  intros Hn. split; [assumption|].
  destruct (Z.eq_dec n 0) as [->|Hne]; [simpl; lia|].
  rewrite Nat2Z.inj_succ, Z2Nat.id by apply Z.log2_nonneg.
  apply Z.log2_spec. lia.
Qed.

Lemma digits_of_value (n : Z) : 0 <= n -> digits_value (digits_of n) = n.
Proof.
  intros Hn. unfold digits_of.
  rewrite digits_onto_value by now apply digits_of_fuel.
  simpl. unfold digits_value. simpl. lia.
Qed.

Lemma digits_of_digits (n : Z) :
  0 <= n -> Forall (fun c => is_digit c = true) (digits_of n).
Proof. intros Hn. apply digits_onto_digits; [assumption | constructor]. Qed.

Lemma digits_of_head (n : Z) :
  0 < n -> exists d l, digits_of n = d :: l /\ d <> 48%N.
Proof.
  intros Hn. apply digits_onto_head.
  split; [assumption|]. apply digits_of_fuel. lia.
Qed.

Lemma digits_of_small (n : Z) :
  0 <= n < 10 -> digits_of n = [digit_unit n].
Proof.
  intros Hn. unfold digits_of. cbn [digits_onto].
  destruct (n <? 10) eqn:Hlt; [|apply Z.ltb_ge in Hlt; lia].
  now rewrite Z.mod_small by lia.
Qed.

Lemma take_digits_app (ds rest : list N) :
  Forall (fun c => is_digit c = true) ds ->
  no_digit_ahead rest ->
  take_digits (ds ++ rest) = (ds, rest).
Proof.
  intros Hds Hrest. induction Hds as [|c ds Hc _ IH].
  - simpl. destruct rest as [|c r]; [reflexivity|].
    simpl in *. now rewrite Hrest.
  - cbn [app take_digits]. now rewrite Hc, IH.
Qed.

(** *** The Number value depends on the rational only *)

Lemma pos_pow (b k : Z) : 0 < b -> 0 <= k -> Zpos (Z.to_pos (b ^ k)) = b ^ k.
Proof. intros Hb Hk. apply Z2Pos.id. now apply Z.pow_pos_nonneg. Qed.

Lemma round_Q_eq (sign : bool) (x y : Q) :
  Qeq x y -> round_Q sign x = round_Q sign y.
Proof. intros H. unfold round_Q. now rewrite (Qred_complete _ _ H). Qed.

Lemma round_Q_exact (sign : bool) (x : Q) (m : positive) (e : Z) :
  bounded prec emax m e = true ->
  Qeq x (float_Q m e) ->
  round_Q sign x = S754_finite sign m e.
Proof.
  intros Hb Hx. unfold round_Q.
  pose proof (Qred_correct x) as Hr.
  assert (Hv : Qeq (Qred x) (float_Q m e)) by (now rewrite Hr).
  destruct (Qred x) as [num den]. cbn [Qnum Qden].
  unfold Qeq, float_Q in Hv.
  destruct (0 <=? e) eqn:He.
  - apply Z.leb_le in He. cbn [Qnum Qden inject_Z] in Hv.
    assert (H2 : 0 < 2 ^ e) by (apply Z.pow_pos_nonneg; lia).
    destruct num as [|p|p]; try nia.
    apply round_ratio_exact; [assumption|].
    unfold ratio_is. apply Z.leb_le in He. rewrite He. lia.
  - apply Z.leb_gt in He. cbn [Qnum Qden] in Hv.
    rewrite pos_pow in Hv by lia.
    assert (H2 : 0 < 2 ^ (- e)) by (apply Z.pow_pos_nonneg; lia).
    destruct num as [|p|p]; try nia.
    apply round_ratio_exact; [assumption|].
    unfold ratio_is. apply Z.leb_gt in He. now rewrite He.
Qed.

(** Two decimals with the same value over a common power of ten. *)
Lemma decimal_Q_common (c s e : Z) :
  c <= e -> c <= 0 ->
  Qeq (decimal_Q s e) (Qmake (s * 10 ^ (e - c)) (Z.to_pos (10 ^ (- c)))).
Proof.
  intros Hce Hc0. unfold decimal_Q, Qeq.
  destruct (0 <=? e) eqn:He.
  - apply Z.leb_le in He. cbn [Qnum Qden inject_Z].
    rewrite pos_pow by lia.
    replace (e - c) with (e + - c) by lia. rewrite Z.pow_add_r by lia. ring.
  - apply Z.leb_gt in He. cbn [Qnum Qden].
    rewrite !pos_pow by lia.
    replace (- c) with (e - c + - e) at 1 by lia. rewrite Z.pow_add_r by lia. ring.
Qed.

Lemma decimal_Q_eq (c s1 e1 s2 e2 : Z) :
  c <= e1 -> c <= e2 -> c <= 0 ->
  s1 * 10 ^ (e1 - c) = s2 * 10 ^ (e2 - c) ->
  Qeq (decimal_Q s1 e1) (decimal_Q s2 e2).
Proof.
  intros H1 H2 H0 H.
  rewrite (decimal_Q_common c s1 e1), (decimal_Q_common c s2 e2) by assumption.
  now rewrite H.
Qed.

Lemma of_decimal_eq (sign : bool) (c s1 e1 s2 e2 : Z) :
  c <= e1 -> c <= e2 -> c <= 0 ->
  s1 * 10 ^ (e1 - c) = s2 * 10 ^ (e2 - c) ->
  of_decimal sign s1 e1 = of_decimal sign s2 e2.
Proof.
  intros. unfold of_decimal. apply round_Q_eq. now apply (decimal_Q_eq c).
Qed.

Lemma exact_decimal_value (m : positive) (e : Z) :
  Qeq (decimal_Q (fst (exact_decimal m e)) (snd (exact_decimal m e))) (float_Q m e).
Proof.
  unfold exact_decimal, float_Q, decimal_Q.
  destruct (0 <=? e) eqn:He; cbn [fst snd].
  - simpl. unfold Qeq. cbn [Qnum Qden inject_Z]. lia.
  - rewrite He. apply Z.leb_gt in He. unfold Qeq. cbn [Qnum Qden].
    rewrite !pos_pow by lia.
    replace 10 with (5 * 2) by lia. rewrite Z.pow_mul_l. ring.
Qed.

Lemma of_decimal_exact (m : positive) (e : Z) :
  bounded prec emax m e = true ->
  of_decimal false (fst (exact_decimal m e)) (snd (exact_decimal m e))
  = S754_finite false m e.
Proof.
  intros Hb. unfold of_decimal. apply round_Q_exact; [assumption|].
  apply exact_decimal_value.
Qed.

Lemma of_decimal_finite_pos (sign s0 : bool) (d e : Z) (m : positive) (e2 : Z) :
  of_decimal sign d e = S754_finite s0 m e2 -> 0 < d.
Proof.
  unfold of_decimal, round_Q. intros H.
  destruct (Qnum (Qred (decimal_Q d e))) as [|p|p] eqn:Hn; try discriminate.
  pose proof (Qred_correct (decimal_Q d e)) as Hr.
  unfold Qeq in Hr. rewrite Hn in Hr.
  unfold decimal_Q in Hr. destruct (0 <=? e) eqn:He.
  - apply Z.leb_le in He. cbn [Qnum Qden inject_Z] in Hr.
    assert (0 < 10 ^ e) by (apply Z.pow_pos_nonneg; lia). nia.
  - cbn [Qnum Qden] in Hr. nia.
Qed.

(** *** The digit search returns a decimal that reads back as the Number *)

Lemma shortest_from_sound (fuel : nat) (k : Z) (m : positive) (e mag : Z) :
  bounded prec emax m e = true ->
  of_decimal false (fst (shortest_from fuel k m e mag))
                   (snd (shortest_from fuel k m e mag))
  = S754_finite false m e.
Proof.
  intros Hb. revert k. induction fuel as [|fuel IH]; intros k.
  - now apply of_decimal_exact.
  - cbn [shortest_from].
    destruct (exact_ratio m e) as [p q].
    destruct (scale10 p q (k - mag)) as [a b].
    set (lo := a / b).
    destruct (same_value (of_decimal false lo (mag - k)) (S754_finite false m e)) eqn:Hlo;
    destruct (same_value (of_decimal false (lo + 1) (mag - k)) (S754_finite false m e)) eqn:Hhi;
      cbn [andb];
      try (apply bool_decide_eq_true in Hlo);
      try (apply bool_decide_eq_true in Hhi).
    + destruct (2 * (a mod b) ?= b); [destruct (Z.even lo)| |]; cbn [fst snd]; assumption.
    + cbn [fst snd]. assumption.
    + cbn [fst snd]. assumption.
    + apply IH.
Qed.

Lemma shortest_decimal_sound (m : positive) (e : Z) :
  bounded prec emax m e = true ->
  of_decimal false (fst (shortest_decimal m e)) (snd (shortest_decimal m e))
  = S754_finite false m e.
Proof.
  intros Hb. unfold shortest_decimal. destruct (exact_ratio m e) as [p q].
  now apply shortest_from_sound.
Qed.

(** *** Reading the text of a number *)

Lemma eat_hit (c : N) (r : list N) : eat c (c :: r) = Some r.
Proof. unfold eat. now rewrite N.eqb_refl. Qed.

Lemma eat_miss (c d : N) (r : list N) : d <> c -> eat c (d :: r) = None.
Proof. intros H. unfold eat. apply N.eqb_neq in H. now rewrite H. Qed.

Lemma is_digit_range (c : N) : is_digit c = true -> (48 <= c <= 57)%N.
Proof.
  unfold is_digit. intros H. apply andb_true_iff in H as [H1 H2].
  apply N.leb_le in H1, H2. lia.
Qed.

Lemma not_digit (c : N) : (c < 48 \/ 57 < c)%N -> is_digit c = false.
Proof.
  intros H. unfold is_digit. apply andb_false_iff.
  destruct H; [left | right]; apply N.leb_gt; lia.
Qed.

Lemma ends_number_no_digit (rest : list N) : ends_number rest -> no_digit_ahead rest.
Proof. destruct rest; simpl; tauto. Qed.

Lemma parse_number_text (minus : bool) (ip fp : list N)
    (ex : option (bool * list N)) (rest : list N) :
  number_parts_ok ip fp ex ->
  ends_number rest ->
  parse_number (number_text minus ip fp ex ++ rest)
  = Some (of_decimal minus (digits_value (ip ++ fp))
            (exp_value ex - Z.of_nat (length fp)), rest).
Proof.
  intros (Hne & Hip & Hlead & Hfp & Hex) Hrest.
  set (extext := match ex with
                 | Some (eminus, es) =>
                     [101%N] ++ (if eminus then [45%N] else [43%N]) ++ es
                 | None => []
                 end).
  set (fptext := match fp with [] => [] | _ => [46%N] ++ fp end).
  assert (Hexd : no_digit_ahead (extext ++ rest)).
  { unfold extext. destruct ex as [[em es]|]; [now simpl|].
    now apply ends_number_no_digit. }
  assert (Hfpd : no_digit_ahead (fptext ++ extext ++ rest)).
  { unfold fptext. destruct fp; [exact Hexd | now simpl]. }
  unfold parse_number, number_text. fold extext fptext.
  (* the sign *)
  assert (Hsign :
    match eat 45 ((if minus then [45%N] else []) ++ ip ++ fptext ++ extext ++ rest) with
    | Some r => (true, r)
    | None => (false, (if minus then [45%N] else []) ++ ip ++ fptext ++ extext ++ rest)
    end = (minus, ip ++ fptext ++ extext ++ rest)).
  { destruct minus; [simpl; reflexivity|].
    destruct ip as [|c ip']; [congruence|].
    cbn [app]. rewrite eat_miss; [reflexivity|].
    inversion Hip as [|? ? Hc _]; subst. apply is_digit_range in Hc. lia. }
  rewrite <- !app_assoc. rewrite Hsign.
  rewrite (take_digits_app ip _ Hip Hfpd).
  assert (Hip0 : bool_decide (ip = []) = false) by now apply bool_decide_eq_false.
  rewrite Hip0, Hlead. cbn [orb].
  (* the fraction *)
  assert (Hfrac :
    match eat 46 (fptext ++ extext ++ rest) with
    | Some r1' =>
        let '(fp0, r2) := take_digits r1' in
        match fp0 with [] => None | _ => Some (fp0, r2) end
    | None => Some ([], fptext ++ extext ++ rest)
    end = Some (fp, extext ++ rest)).
  { unfold fptext. destruct fp as [|f fp'].
    - cbn [app]. unfold extext. destruct ex as [[em es]|].
      + cbn [app]. rewrite eat_miss by lia. reflexivity.
      + cbn [app]. destruct rest as [|c r]; [reflexivity|].
        destruct Hrest as (_ & H46 & _). now rewrite eat_miss.
    - cbn [app]. rewrite eat_hit.
      change (f :: fp' ++ extext ++ rest) with ((f :: fp') ++ extext ++ rest).
      now rewrite (take_digits_app _ _ Hfp Hexd). }
  rewrite Hfrac.
  (* the exponent *)
  unfold extext, exp_value. destruct ex as [[em es]|].
  - destruct Hex as [Hesne Hes]. cbn [app]. cbn [N.eqb Pos.eqb orb].
    assert (Hs : eat_sign (((if em then [45%N] else [43%N]) ++ es) ++ rest) = (em, es ++ rest)).
    { destruct em; reflexivity. }
    rewrite Hs, (take_digits_app es rest Hes (ends_number_no_digit _ Hrest)).
    destruct es; [congruence|]. reflexivity.
  - cbn [app]. destruct rest as [|c r]; [reflexivity|].
    destruct Hrest as (_ & _ & H101 & H69).
    apply N.eqb_neq in H101, H69. now rewrite H101, H69.
Qed.

(** *** The text that Number::toString writes is such a number *)

Lemma strip_zeros_spec (fuel : nat) (s e : Z) :
  0 < s ->
  0 < fst (strip_zeros fuel s e)
  /\ e <= snd (strip_zeros fuel s e)
  /\ s = fst (strip_zeros fuel s e) * 10 ^ (snd (strip_zeros fuel s e) - e).
Proof.
  revert s e. induction fuel as [|fuel IH]; intros s e Hs.
  - simpl. rewrite Z.sub_diag. lia.
  - cbn [strip_zeros].
    destruct ((s mod 10 =? 0) && negb (s =? 0)) eqn:Hc.
    + apply andb_true_iff in Hc as [Hm _]. apply Z.eqb_eq in Hm.
      pose proof (Z.div_mod s 10 ltac:(lia)) as Hd. rewrite Hm in Hd.
      assert (Hq : 0 < s / 10) by lia.
      destruct (IH (s / 10) (e + 1) Hq) as (H1 & H2 & H3).
      split; [exact H1|]. split; [lia|].
      replace (snd (strip_zeros fuel (s / 10) (e + 1)) - e)
        with (Z.succ (snd (strip_zeros fuel (s / 10) (e + 1)) - (e + 1))) by lia.
      rewrite Z.pow_succ_r by lia. lia.
    + cbn [fst snd]. rewrite Z.sub_diag. lia.
Qed.

(** The fuel given by [format_decimal] strips every trailing zero. *)
Lemma strip_zeros_done (fuel : nat) (s e : Z) :
  0 < s < 2 ^ (Z.of_nat fuel + 1) ->
  fst (strip_zeros fuel s e) mod 10 <> 0.
Proof.
  revert s e. induction fuel as [|fuel IH]; intros s e Hs.
  - simpl in *. assert (s = 1) by lia. subst. discriminate.
  - cbn [strip_zeros].
    destruct ((s mod 10 =? 0) && negb (s =? 0)) eqn:Hc.
    + apply andb_true_iff in Hc as [Hm _]. apply Z.eqb_eq in Hm.
      pose proof (Z.div_mod s 10 ltac:(lia)) as Hd. rewrite Hm in Hd.
      apply IH. rewrite Nat2Z.inj_succ in Hs.
      replace (Z.succ (Z.of_nat fuel) + 1) with (Z.succ (Z.of_nat fuel + 1)) in Hs by lia.
      rewrite Z.pow_succ_r in Hs by lia. lia.
    + cbn [fst]. apply andb_false_iff in Hc as [Hc|Hc].
      * now apply Z.eqb_neq in Hc.
      * apply negb_false_iff, Z.eqb_eq in Hc. lia.
Qed.

Lemma format_decimal_strips (s : Z) (e : Z) :
  0 < s -> fst (strip_zeros (Z.to_nat (Z.log2 s)) s e) mod 10 <> 0.
Proof.
  intros Hs. apply strip_zeros_done. split; [assumption|].
  rewrite Z2Nat.id by apply Z.log2_nonneg.
  pose proof (Z.log2_spec s Hs) as [_ H].
  now replace (Z.log2 s + 1) with (Z.succ (Z.log2 s)) by lia.
Qed.

Lemma strip_zeros_of_decimal (sign : bool) (fuel : nat) (s e : Z) :
  0 < s ->
  of_decimal sign (fst (strip_zeros fuel s e)) (snd (strip_zeros fuel s e))
  = of_decimal sign s e.
Proof.
  intros Hs. destruct (strip_zeros_spec fuel s e Hs) as (H1 & H2 & H3).
  set (s' := fst _) in *. set (e' := snd _) in *.
  clearbody s' e'.
  apply (of_decimal_eq sign (Z.min e 0)); try lia.
  rewrite H3. rewrite <- Z.mul_assoc, <- Z.pow_add_r by lia.
  f_equal. f_equal. lia.
Qed.

Lemma starts_with_other (c d : N) (l : list N) :
  d <> c -> starts_with [c] (d :: l) = false.
Proof.
  intros H. unfold starts_with. apply bool_decide_eq_false. simpl. congruence.
Qed.

Lemma format_decimal_shape (s0 e0 : Z) :
  0 < s0 ->
  exists ip fp ex,
    format_decimal s0 e0 = number_text false ip fp ex
    /\ number_parts_ok ip fp ex
    /\ forall sign,
         of_decimal sign (digits_value (ip ++ fp)) (exp_value ex - Z.of_nat (length fp))
         = of_decimal sign s0 e0.
Proof.
  intros Hs0. unfold format_decimal.
  pose proof (strip_zeros_spec (Z.to_nat (Z.log2 s0)) s0 e0 Hs0) as (Hs & _ & _).
  pose proof (fun sign => strip_zeros_of_decimal sign (Z.to_nat (Z.log2 s0)) s0 e0 Hs0) as Hval.
  destruct (strip_zeros (Z.to_nat (Z.log2 s0)) s0 e0) as [s e]. cbn [fst snd] in *.
  pose proof (digits_of_value s ltac:(lia)) as Hv.
  pose proof (digits_of_digits s ltac:(lia)) as Hd.
  destruct (digits_of_head s Hs) as (d & l & Hds & Hd0).
  set (ds := digits_of s) in *. clearbody ds.
  set (k := Z.of_nat (length ds)).
  assert (Hk : 1 <= k) by (unfold k; rewrite Hds; simpl; lia).
  set (n := e + k).
  set (ex := Some (negb (0 <? n - 1), digits_of (Z.abs (n - 1)))).
  assert (Hexv : exp_value ex = n - 1).
  { unfold ex, exp_value. rewrite digits_of_value by lia.
    destruct (0 <? n - 1) eqn:Hn; simpl; [apply Z.ltb_lt in Hn | apply Z.ltb_ge in Hn]; lia. }
  assert (Hexok : match ex with
                  | Some (_, es) => es <> [] /\ Forall (fun c => is_digit c = true) es
                  | None => True
                  end).
  { unfold ex. split; [|apply digits_of_digits; lia].
    destruct (Z.eq_dec (n - 1) 0) as [E|E].
    - rewrite E. simpl. discriminate.
    - destruct (digits_of_head (Z.abs (n - 1)) ltac:(lia)) as (? & ? & -> & _).
      discriminate. }
  assert (Hextext : (if 0 <? n - 1 then lit "+" else lit "-") ++ digits_of (Z.abs (n - 1))
                    = (if negb (0 <? n - 1) then [45%N] else [43%N])
                      ++ digits_of (Z.abs (n - 1))).
  { destruct (0 <? n - 1); reflexivity. }
  destruct ((k <=? n) && (n <=? 21)) eqn:C1.
  { (* digits followed by zeros *)
    apply andb_true_iff in C1 as [C1 _]. apply Z.leb_le in C1.
    exists (ds ++ zeros (n - k)), [], None. split; [|split].
    - unfold number_text. simpl. now rewrite !app_nil_r.
    - unfold number_parts_ok. split; [|split; [|split; [|split]]].
      + rewrite Hds. discriminate.
      + apply Forall_app. split; [exact Hd | apply zeros_digits].
      + rewrite Hds. cbn [app]. rewrite starts_with_other by assumption. reflexivity.
      + constructor.
      + exact I.
    - intros sign. rewrite <- Hval. rewrite app_nil_r.
      rewrite digits_value_app, digits_value_zeros, Hv, zeros_length. cbn [exp_value length].
      apply (of_decimal_eq sign 0); try lia.
      rewrite !Z.sub_0_r, Z.max_r by lia.
      replace (n - k) with e by (unfold n; lia). simpl. lia. }
  destruct ((0 <? n) && (n <=? 21)) eqn:C2.
  { (* a dot inside the digits *)
    apply andb_true_iff in C2 as [C2 C2']. apply Z.ltb_lt in C2.
    apply andb_false_iff in C1. rewrite C2' in C1.
    assert (Hnk : n < k) by (destruct C1 as [C1|C1]; [now apply Z.leb_gt in C1 | discriminate]).
    assert (Hlen : (Z.to_nat n < length ds)%nat) by (unfold k in Hnk; lia).
    exists (take (Z.to_nat n) ds), (drop (Z.to_nat n) ds), None. split; [|split].
    - unfold number_text. cbn [app]. rewrite app_nil_r.
      destruct (drop (Z.to_nat n) ds) eqn:Hdrop.
      + apply (f_equal length) in Hdrop. rewrite length_drop in Hdrop. simpl in Hdrop. lia.
      + reflexivity.
    - unfold number_parts_ok. split; [|split; [|split; [|split]]].
      + rewrite Hds. destruct (Z.to_nat n) eqn:E; [lia|]. discriminate.
      + apply Forall_take. exact Hd.
      + rewrite Hds. destruct (Z.to_nat n) eqn:E; [lia|]. cbn [take].
        rewrite starts_with_other by assumption. reflexivity.
      + apply Forall_drop. exact Hd.
      + exact I.
    - intros sign. rewrite <- Hval, take_drop, Hv. cbn [exp_value].
      rewrite length_drop. f_equal. unfold n, k in *. lia. }
  destruct ((-6 <? n) && (n <=? 0)) eqn:C3.
  { (* zeros after the dot, then the digits *)
    apply andb_true_iff in C3 as [_ C3]. apply Z.leb_le in C3.
    exists [48%N], (zeros (- n) ++ ds), None. split; [|split].
    - unfold number_text. cbn [app]. rewrite app_nil_r.
      destruct (zeros (- n) ++ ds) eqn:Hz.
      + apply app_eq_nil in Hz as [_ Hz]. rewrite Hds in Hz. discriminate.
      + reflexivity.
    - unfold number_parts_ok. split; [|split; [|split; [|split]]].
      + discriminate.
      + repeat constructor.
      + reflexivity.
      + apply Forall_app. split; [apply zeros_digits | exact Hd].
      + exact I.
    - intros sign. rewrite <- Hval.
      change ([48%N] ++ zeros (- n) ++ ds) with (48%N :: (zeros (- n) ++ ds)).
      rewrite digits_value_cons, digits_value_app, digits_value_zeros, Hv.
      cbn [exp_value]. rewrite length_app, Nat2Z.inj_add, zeros_length.
      change (Z.of_N 48 - 48) with 0. rewrite !Z.mul_0_l.
      f_equal; unfold n, k in *; lia. }
  (* exponent notation *)
  destruct (k =? 1) eqn:C4.
  { apply Z.eqb_eq in C4.
    exists ds, [], ex. split; [|split].
    - unfold number_text, ex. cbn [app]. rewrite Hextext. reflexivity.
    - unfold number_parts_ok. split; [|split; [|split; [|split]]].
      + rewrite Hds. discriminate.
      + exact Hd.
      + rewrite Hds. cbn [app]. now rewrite starts_with_other by assumption.
      + constructor.
      + exact Hexok.
    - intros sign. rewrite <- Hval, app_nil_r, Hv, Hexv. cbn [length].
      f_equal. unfold n. lia. }
  { apply Z.eqb_neq in C4.
    assert (Hl : l <> []).
    { intros ->. unfold k in C4. rewrite Hds in C4. simpl in C4. lia. }
    exists [d], l, ex. split; [|split].
    - unfold number_text, ex. rewrite Hds. cbn [app take drop]. rewrite Hextext.
      destruct l; [congruence|]. reflexivity.
    - unfold number_parts_ok. split; [|split; [|split; [|split]]].
      + discriminate.
      + rewrite Hds in Hd. inversion Hd; subst. repeat constructor. assumption.
      + rewrite starts_with_other by assumption. reflexivity.
      + rewrite Hds in Hd. now inversion Hd.
      + exact Hexok.
    - intros sign. rewrite <- Hval. change ([d] ++ l) with (d :: l).
      rewrite <- Hds, Hv, Hexv. f_equal.
      unfold n, k. rewrite Hds. cbn [length]. lia. }
Qed.

(** *** A finite Number written by Number::toString reads back *)

Lemma binary_round_aux_sign (sign : bool) (mx ex : Z) (lx : location)
    (m : positive) (e : Z) :
  binary_round_aux prec emax false mx ex lx = S754_finite false m e ->
  binary_round_aux prec emax sign mx ex lx = S754_finite sign m e.
Proof.
  unfold binary_round_aux.
  destruct (shr_fexp prec emax mx ex lx) as [mrs' e'].
  destruct (shr_fexp prec emax _ e' loc_Exact) as [mrs'' e''].
  destruct (shr_m mrs'') as [|p|p]; try discriminate.
  destruct (e'' <=? emax - prec); try discriminate.
  intros H. inversion H. reflexivity.
Qed.

Lemma of_decimal_sign (sign : bool) (d e : Z) (m : positive) (e2 : Z) :
  of_decimal false d e = S754_finite false m e2 ->
  of_decimal sign d e = S754_finite sign m e2.
Proof.
  unfold of_decimal, round_Q.
  destruct (Qnum (Qred (decimal_Q d e))) as [|p|p]; try discriminate.
  unfold round_ratio, SFdiv.
  destruct (SFdiv_core_binary prec emax (Zpos p) 0 _ 0) as [[mz ez] lz].
  rewrite !xorb_false_r. apply binary_round_aux_sign.
Qed.

Lemma Number_toString_shape (x : number) :
  number_valid x = true -> is_finite x = true ->
  exists minus ip fp ex,
    Number_toString x = number_text minus ip fp ex
    /\ number_parts_ok ip fp ex
    /\ of_decimal minus (digits_value (ip ++ fp))
                  (exp_value ex - Z.of_nat (length fp)) = carried x.
Proof.
  intros Hvalid Hfin. destruct x as [s | s | | s m e]; try discriminate.
  - exists false, [48%N], [], None. split; [reflexivity|]. split; [|reflexivity].
    unfold number_parts_ok. repeat split; try discriminate; repeat constructor.
  - cbn [Number_toString carried].
    pose proof (shortest_decimal_sound m e Hvalid) as Hsound.
    destruct (shortest_decimal m e) as [d e10]. cbn [fst snd] in Hsound.
    pose proof (of_decimal_finite_pos _ _ _ _ _ _ Hsound) as Hd.
    destruct (format_decimal_shape d e10 Hd) as (ip & fp & ex & Htext & Hok & Hval).
    exists s, ip, fp, ex. split; [|split; [assumption|]].
    + rewrite Htext. unfold number_text. destruct s; reflexivity.
    + rewrite Hval. now apply of_decimal_sign.
Qed.

Lemma parse_number_toString (x : number) (rest : list N) :
  number_valid x = true -> is_finite x = true -> ends_number rest ->
  parse_number (Number_toString x ++ rest) = Some (carried x, rest).
Proof.
  intros Hvalid Hfin Hrest.
  destruct (Number_toString_shape x Hvalid Hfin) as (minus & ip & fp & ex & -> & Hok & <-).
  now apply parse_number_text.
Qed.

Lemma Number_toString_head (x : number) :
  number_valid x = true -> is_finite x = true ->
  exists c t, Number_toString x = c :: t /\ (c = 45%N \/ is_digit c = true).
Proof.
  intros Hvalid Hfin.
  destruct (Number_toString_shape x Hvalid Hfin)
    as (minus & ip & fp & ex & -> & (Hne & Hip & _) & _).
  unfold number_text. destruct minus.
  - eexists _, _. split; [reflexivity | now left].
  - destruct ip as [|c ip']; [congruence|]. inversion Hip; subst.
    eexists _, _. split; [reflexivity | now right].
Qed.

(* ===================================================================== *)
(** ** Writing a value as JSON text and reading it back                   *)
(* ===================================================================== *)

(** *** A string written by QuoteJSONString reads back *)

Lemma hex_value_unit (d : N) : (d < 16)%N -> hex_value (hex_unit d) = Some d.
Proof.
  intros H. unfold hex_unit, hex_value.
  destruct (d <? 10)%N eqn:Hd.
  - apply N.ltb_lt in Hd.
    replace ((48 <=? 48 + d) && (48 + d <=? 57))%N with true.
    + f_equal. lia.
    + symmetry. apply andb_true_iff. split; apply N.leb_le; lia.
  - apply N.ltb_ge in Hd.
    replace ((48 <=? 87 + d) && (87 + d <=? 57))%N with false.
    + replace ((97 <=? 87 + d) && (87 + d <=? 102))%N with true.
      * f_equal. lia.
      * symmetry. apply andb_true_iff. split; apply N.leb_le; lia.
    + symmetry. apply andb_false_iff. right. apply N.leb_gt. lia.
Qed.

Lemma hex4_escape (c : N) :
  (c < 65536)%N ->
  hex4 (hex_unit (c / 4096 mod 16)) (hex_unit (c / 256 mod 16))
       (hex_unit (c / 16 mod 16)) (hex_unit (c mod 16)) = Some c.
Proof.
  intros Hc. unfold hex4.
  rewrite !hex_value_unit by (apply N.mod_lt; lia).
  f_equal.
  assert (H1 : (c / 4096 mod 16 = c / 4096)%N).
  { apply N.mod_small. apply N.Div0.div_lt_upper_bound. lia. }
  rewrite H1.
  assert (D1 : (c / 16 / 16 = c / 256)%N) by (now rewrite N.Div0.div_div).
  assert (D2 : (c / 256 / 16 = c / 4096)%N) by (now rewrite N.Div0.div_div).
  pose proof (N.Div0.div_mod c 16) as E0.
  pose proof (N.Div0.div_mod (c / 16) 16) as E1. rewrite D1 in E1.
  pose proof (N.Div0.div_mod (c / 256) 16) as E2. rewrite D2 in E2.
  lia.
Qed.

Lemma parse_unicode_escape (c : N) (more : list N) :
  (c < 65536)%N ->
  parse_string_body (unicode_escape c ++ more)
  = after_unit c (parse_string_body more).
Proof.
  intros Hc. unfold unicode_escape. cbn [app parse_string_body].
  change (92 =? 34)%N with false. change (92 =? 92)%N with true.
  change (117 =? 117)%N with true. cbn iota.
  rewrite (hex4_escape c Hc). reflexivity.
Qed.

Lemma parse_raw_unit (c : N) (more : list N) :
  (c =? 34)%N = false -> (c =? 92)%N = false -> (c <? 32)%N = false ->
  parse_string_body (c :: more) = after_unit c (parse_string_body more).
Proof.
  intros H1 H2 H3. cbn [parse_string_body]. now rewrite H1, H2, H3.
Qed.

Lemma parse_quote_unit (c : N) (more : list N) :
  parse_string_body (quote_unit c ++ more)
  = after_unit c (parse_string_body more).
Proof.
  unfold quote_unit.
  destruct (N.eqb_spec c 8) as [->|H8]; [reflexivity|].
  destruct (N.eqb_spec c 9) as [->|H9]; [reflexivity|].
  destruct (N.eqb_spec c 10) as [->|H10]; [reflexivity|].
  destruct (N.eqb_spec c 12) as [->|H12]; [reflexivity|].
  destruct (N.eqb_spec c 13) as [->|H13]; [reflexivity|].
  destruct (N.eqb_spec c 34) as [->|H34]; [reflexivity|].
  destruct (N.eqb_spec c 92) as [->|H92]; [reflexivity|].
  destruct ((c <? 32)%N || is_high_surrogate c || is_low_surrogate c) eqn:Hesc.
  - apply parse_unicode_escape.
    apply orb_true_iff in Hesc as [Hesc|Hesc];
      [apply orb_true_iff in Hesc as [Hesc|Hesc]|].
    + apply N.ltb_lt in Hesc. lia.
    + unfold is_high_surrogate in Hesc. apply andb_true_iff in Hesc as [_ H].
      apply N.leb_le in H. lia.
    + unfold is_low_surrogate in Hesc. apply andb_true_iff in Hesc as [_ H].
      apply N.leb_le in H. lia.
  - apply orb_false_iff in Hesc as [Hesc _]. apply orb_false_iff in Hesc as [Hesc _].
    cbn [app]. apply parse_raw_unit; [now apply N.eqb_neq .. | assumption].
Qed.

Lemma parse_surrogate (c : N) (more : list N) :
  (55296 <= c)%N ->
  parse_string_body (c :: more) = after_unit c (parse_string_body more).
Proof.
  intros H. apply parse_raw_unit.
  - apply N.eqb_neq. lia.
  - apply N.eqb_neq. lia.
  - apply N.ltb_ge. lia.
Qed.

Lemma quote_units_pair (c d : N) (s : list N) :
  quote_units (c :: d :: s)
  = if is_high_surrogate c && is_low_surrogate d
    then c :: d :: quote_units s
    else quote_unit c ++ quote_units (d :: s).
Proof. reflexivity. Qed.

Lemma parse_quote_units_bounded (n : nat) (s rest : list N) :
  (length s <= n)%nat ->
  parse_string_body (quote_units s ++ 34%N :: rest) = Some (s, rest).
Proof.
  revert s. induction n as [|n IH]; intros s Hlen.
  - destruct s; [reflexivity | simpl in Hlen; lia].
  - destruct s as [|c [|d s'']].
    + reflexivity.
    + cbn [quote_units]. rewrite parse_quote_unit. reflexivity.
    + rewrite quote_units_pair.
      destruct (is_high_surrogate c && is_low_surrogate d) eqn:Hpair.
      * apply andb_true_iff in Hpair as [Hc Hd].
        unfold is_high_surrogate in Hc. unfold is_low_surrogate in Hd.
        apply andb_true_iff in Hc as [Hc _]. apply andb_true_iff in Hd as [Hd _].
        apply N.leb_le in Hc, Hd.
        cbn [app]. rewrite parse_surrogate by lia. rewrite parse_surrogate by lia.
        rewrite IH by (simpl in *; lia). reflexivity.
      * rewrite <- app_assoc, parse_quote_unit.
        rewrite IH by (simpl in *; lia). reflexivity.
Qed.

Lemma parse_quoted (s rest : list N) :
  parse_string_body (quote_units s ++ 34%N :: rest) = Some (s, rest).
Proof. now apply (parse_quote_units_bounded (length s)). Qed.

(** *** A value written by JSON.stringify reads back *)

Lemma value_induction (P : value -> Prop) :
  P VNull ->
  (forall b, P (VBool b)) ->
  (forall x, P (VNum x)) ->
  (forall s, P (VStr s)) ->
  (forall items, Forall P items -> P (VArr items)) ->
  (forall props, Forall (fun kv => P (snd kv)) props -> P (VObj props)) ->
  forall v, P v.
Proof.
  intros Hnull Hbool Hnum Hstr Harr Hobj.
  fix IH 1. intros [| b | x | s | items | props].
  - exact Hnull.
  - apply Hbool.
  - apply Hnum.
  - apply Hstr.
  - apply Harr. revert items. fix IHl 1. intros [|v items].
    + constructor.
    + constructor; [apply IH | apply IHl].
  - apply Hobj. revert props. fix IHl 1. intros [|kv props].
    + constructor.
    + constructor; [apply IH | apply IHl].
Qed.

Lemma parse_value_unfold (fuel : nat) (s : list N) :
  parse_value (S fuel) s
  = match skip_ws s with
    | [] => None
    | c :: r =>
        if (c =? 123)%N then
          match eat 125 (skip_ws r) with
          | Some r' => Some (VObj [], r')
          | None => parse_members fuel r []
          end
        else if (c =? 91)%N then
          match eat 93 (skip_ws r) with
          | Some r' => Some (VArr [], r')
          | None => parse_elements fuel r []
          end
        else if (c =? 34)%N then
          match parse_string_body r with
          | Some (str, r') => Some (VStr str, r')
          | None => None
          end
        else if starts_with (lit "null") (c :: r)
        then Some (VNull, drop 4 (c :: r))
        else if starts_with (lit "true") (c :: r)
        then Some (VBool true, drop 4 (c :: r))
        else if starts_with (lit "false") (c :: r)
        then Some (VBool false, drop 5 (c :: r))
        else
          match parse_number (c :: r) with
          | Some (x, r') => Some (VNum x, r')
          | None => None
          end
    end.
Proof. reflexivity. Qed.

Lemma parse_elements_unfold (fuel : nat) (s : list N) (acc : list value) :
  parse_elements (S fuel) s acc
  = match parse_value fuel s with
    | Some (v, r) =>
        match eat 44 (skip_ws r) with
        | Some r' => parse_elements fuel r' (acc ++ [v])
        | None =>
            match eat 93 (skip_ws r) with
            | Some r' => Some (VArr (acc ++ [v]), r')
            | None => None
            end
        end
    | None => None
    end.
Proof. reflexivity. Qed.

Lemma parse_members_unfold (fuel : nat) (s : list N) (acc : list (list N * value)) :
  parse_members (S fuel) s acc
  = match eat 34 (skip_ws s) with
    | Some r =>
        match parse_string_body r with
        | Some (k, r1) =>
            match eat 58 (skip_ws r1) with
            | Some r2 =>
                match parse_value fuel r2 with
                | Some (v, r3) =>
                    match eat 44 (skip_ws r3) with
                    | Some r4 => parse_members fuel r4 (define_property k v acc)
                    | None =>
                        match eat 125 (skip_ws r3) with
                        | Some r4 => Some (VObj (define_property k v acc), r4)
                        | None => None
                        end
                    end
                | None => None
                end
            | None => None
            end
        | None => None
        end
    | None => None
    end.
Proof. reflexivity. Qed.

Lemma skip_ws_head (c : N) (r : list N) :
  is_json_ws c = false -> skip_ws (c :: r) = c :: r.
Proof. intros H. simpl. now rewrite H. Qed.

Lemma starts_with_head (p0 c : N) (p t : list N) :
  c <> p0 -> starts_with (p0 :: p) (c :: t) = false.
Proof.
  intros H. unfold starts_with. apply bool_decide_eq_false.
  cbn [length take]. congruence.
Qed.

Lemma parse_value_literal (fuel : nat) (word rest : list N) (v : value) :
  (word = lit "null" /\ v = VNull)
  \/ (word = lit "true" /\ v = VBool true)
  \/ (word = lit "false" /\ v = VBool false) ->
  parse_value (S fuel) (word ++ rest) = Some (v, rest).
Proof.
  intros [[-> ->] | [[-> ->] | [-> ->]]]; reflexivity.
Qed.

Lemma parse_value_string (fuel : nat) (s rest : list N) :
  parse_value (S fuel) (QuoteJSONString s ++ rest) = Some (VStr s, rest).
Proof.
  rewrite parse_value_unfold. unfold QuoteJSONString.
  cbn [app]. rewrite skip_ws_head by reflexivity.
  change (34 =? 123)%N with false. change (34 =? 91)%N with false.
  change (34 =? 34)%N with true. cbn iota.
  rewrite <- app_assoc. cbn [app]. now rewrite parse_quoted.
Qed.

Lemma parse_value_number (fuel : nat) (x : number) (rest : list N) :
  number_valid x = true -> is_finite x = true -> ends_number rest ->
  parse_value (S fuel) (Number_toString x ++ rest) = Some (VNum (carried x), rest).
Proof.
  intros Hvalid Hfin Hrest.
  pose proof (parse_number_toString x rest Hvalid Hfin Hrest) as Hparse.
  destruct (Number_toString_head x Hvalid Hfin) as (c & t & Htext & Hc).
  rewrite Htext in *. cbn [app] in *.
  assert (Hrange : c = 45%N \/ (48 <= c <= 57)%N).
  { destruct Hc as [->|Hc]; [now left | right; now apply is_digit_range]. }
  rewrite parse_value_unfold.
  rewrite skip_ws_head.
  2:{ unfold is_json_ws. repeat (apply orb_false_iff; split); apply N.eqb_neq; lia. }
  replace (c =? 123)%N with false by (symmetry; apply N.eqb_neq; lia).
  replace (c =? 91)%N with false by (symmetry; apply N.eqb_neq; lia).
  replace (c =? 34)%N with false by (symmetry; apply N.eqb_neq; lia).
  change (lit "null") with [110; 117; 108; 108]%N.
  change (lit "true") with [116; 114; 117; 101]%N.
  change (lit "false") with [102; 97; 108; 115; 101]%N.
  rewrite !starts_with_head by lia.
  now rewrite Hparse.
Qed.

Lemma stringify_head (v : value) :
  numbers_valid v = true ->
  exists c t, JSON_stringify v = c :: t /\ is_json_ws c = false /\ c <> 93%N.
Proof.
  intros Hvalid. destruct v as [| [|] | x | s | items | props].
  - eexists _, _. split; [reflexivity|]. split; [reflexivity | discriminate].
  - eexists _, _. split; [reflexivity|]. split; [reflexivity | discriminate].
  - eexists _, _. split; [reflexivity|]. split; [reflexivity | discriminate].
  - cbn [JSON_stringify]. destruct (is_finite x) eqn:Hfin.
    + destruct (Number_toString_head x Hvalid Hfin) as (c & t & -> & Hc).
      exists c, t. split; [reflexivity|].
      assert (Hrange : c = 45%N \/ (48 <= c <= 57)%N).
      { destruct Hc as [->|Hc]; [now left | right; now apply is_digit_range]. }
      split; [|lia].
      unfold is_json_ws. repeat (apply orb_false_iff; split); apply N.eqb_neq; lia.
    + eexists _, _. split; [reflexivity|]. split; [reflexivity | discriminate].
  - eexists _, _. split; [reflexivity|]. split; [reflexivity | discriminate].
  - eexists _, _. split; [reflexivity|]. split; [reflexivity | discriminate].
  - eexists _, _. split; [reflexivity|]. split; [reflexivity | discriminate].
Qed.

Lemma join_commas_more (x y : list N) (l : list (list N)) :
  join_commas (x :: y :: l) = x ++ [44%N] ++ join_commas (y :: l).
Proof. reflexivity. Qed.

Lemma ends_number_mark (c : N) (r : list N) :
  c = 44%N \/ c = 93%N \/ c = 125%N -> ends_number (c :: r).
Proof.
  intros [-> | [-> | ->]]; simpl; repeat split; discriminate.
Qed.

Lemma parse_elements_items (items : list value) :
  Forall reads_back items -> items <> [] ->
  forallb numbers_valid items = true ->
  forall fuel acc rest,
    (fold_right (fun item n => S (Nat.max (need item) n)) O items <= fuel)%nat ->
    parse_elements fuel (join_commas (List.map JSON_stringify items) ++ 93%N :: rest) acc
    = Some (VArr (acc ++ List.map carried_value items), rest).
Proof.
  intros Hall. induction Hall as [|v vs Hv Hvs IH]; [congruence|].
  intros _ Hvalid fuel acc rest Hfuel.
  cbn [forallb] in Hvalid. apply andb_true_iff in Hvalid as [Hvv Hvvs].
  cbn [fold_right] in Hfuel.
  destruct fuel as [|fuel]; [lia|].
  rewrite parse_elements_unfold.
  destruct vs as [|w ws].
  - cbn [List.map join_commas].
    rewrite (Hv Hvv fuel (93%N :: rest)); [| lia | apply ends_number_mark; tauto].
    rewrite skip_ws_head by reflexivity.
    rewrite eat_miss by discriminate. rewrite eat_hit. reflexivity.
  - cbn [List.map]. rewrite join_commas_more. rewrite <- !app_assoc.
    rewrite (Hv Hvv fuel); [| lia | apply ends_number_mark; tauto].
    cbn [app]. rewrite skip_ws_head by reflexivity. rewrite eat_hit.
    change (JSON_stringify w :: List.map JSON_stringify ws)
      with (List.map JSON_stringify (w :: ws)).
    rewrite IH; [| discriminate | assumption | lia].
    cbn [List.map]. now rewrite <- app_assoc.
Qed.

Lemma parse_members_props (props : list (list N * value)) :
  Forall (fun kv => reads_back (snd kv)) props -> props <> [] ->
  forallb (fun kv => numbers_valid (snd kv)) props = true ->
  forall fuel acc rest,
    (fold_right (fun kv n => S (Nat.max (need (snd kv)) n)) O props <= fuel)%nat ->
    parse_members fuel (join_commas (List.map member_text props) ++ 125%N :: rest) acc
    = Some (VObj (fold_left (fun acc kv => define_property (fst kv) (snd kv) acc)
                    (List.map (fun kv => (fst kv, carried_value (snd kv))) props) acc),
            rest).
Proof.
  intros Hall. induction Hall as [|[k v] kvs Hv Hvs IH]; [congruence|].
  intros _ Hvalid fuel acc rest Hfuel.
  cbn [forallb snd] in Hvalid. apply andb_true_iff in Hvalid as [Hvv Hvvs].
  cbn [fold_right snd] in Hfuel. cbn [snd] in Hv.
  destruct fuel as [|fuel]; [lia|].
  rewrite parse_members_unfold.
  assert (Hkey : forall tail,
    eat 34 (skip_ws (member_text (k, v) ++ tail))
    = Some (quote_units k ++ 34%N :: 58%N :: JSON_stringify v ++ tail)).
  { intros tail. unfold member_text, QuoteJSONString. cbn [fst snd app].
    rewrite skip_ws_head by reflexivity. rewrite eat_hit.
    f_equal. rewrite <- !app_assoc. reflexivity. }
  destruct kvs as [|kw kws].
  - cbn [List.map join_commas].
    rewrite Hkey, parse_quoted.
    rewrite skip_ws_head by reflexivity. rewrite eat_hit.
    rewrite (Hv Hvv fuel (125%N :: rest)); [| lia | apply ends_number_mark; tauto].
    rewrite skip_ws_head by reflexivity.
    rewrite eat_miss by discriminate. rewrite eat_hit. reflexivity.
  - cbn [List.map]. rewrite join_commas_more. rewrite <- !app_assoc.
    rewrite Hkey, parse_quoted.
    rewrite skip_ws_head by reflexivity. rewrite eat_hit.
    rewrite (Hv Hvv fuel); [| lia | apply ends_number_mark; tauto].
    cbn [app]. rewrite skip_ws_head by reflexivity. rewrite eat_hit.
    change (member_text kw :: List.map member_text kws)
      with (List.map member_text (kw :: kws)).
    rewrite IH; [| discriminate | assumption | lia].
    reflexivity.
Qed.

Lemma every_value_reads_back (v : value) : reads_back v.
Proof.
  induction v as [| b | x | s | items IH | props IH] using value_induction;
    intros Hvalid fuel rest Hfuel Hrest;
    (destruct fuel as [|fuel]; [simpl in Hfuel; lia|]).
  - now apply parse_value_literal; left.
  - destruct b; apply parse_value_literal; tauto.
  - cbn [JSON_stringify carried_value]. destruct (is_finite x) eqn:Hfin.
    + now apply parse_value_number.
    + now apply parse_value_literal; left.
  - apply parse_value_string.
  - cbn [JSON_stringify carried_value need] in *.
    rewrite parse_value_unfold. rewrite <- !app_assoc. cbn [app].
    rewrite skip_ws_head by reflexivity.
    change (91 =? 123)%N with false. change (91 =? 91)%N with true. cbn iota.
    destruct items as [|v vs].
    + cbn [List.map join_commas app]. rewrite skip_ws_head by reflexivity.
      now rewrite eat_hit.
    + assert (Hhead : exists c t,
                join_commas (List.map JSON_stringify (v :: vs)) = c :: t
                /\ is_json_ws c = false /\ c <> 93%N).
      { cbn [numbers_valid forallb] in Hvalid. apply andb_true_iff in Hvalid as [Hv _].
        destruct (stringify_head v Hv) as (c & t & Hc & Hws & H93).
        destruct vs as [|w ws].
        - cbn [List.map join_commas]. rewrite Hc. eauto.
        - cbn [List.map]. rewrite join_commas_more, Hc. cbn [app]. eauto. }
      destruct Hhead as (c & t & Hc & Hws & H93).
      rewrite Hc at 1. cbn [app]. rewrite skip_ws_head by assumption.
      rewrite eat_miss by assumption.
      rewrite (parse_elements_items (v :: vs) IH); [reflexivity | discriminate | | lia].
      exact Hvalid.
  - cbn [JSON_stringify carried_value need] in *.
    rewrite parse_value_unfold. rewrite <- !app_assoc. cbn [app].
    rewrite skip_ws_head by reflexivity.
    change (123 =? 123)%N with true. cbn iota.
    destruct props as [|kv kvs].
    + cbn [List.map join_commas app]. rewrite skip_ws_head by reflexivity.
      now rewrite eat_hit.
    + change (fun kv0 : list N * value =>
                QuoteJSONString (fst kv0) ++ [58%N] ++ JSON_stringify (snd kv0))
        with member_text.
      assert (Hhead : exists t,
                join_commas (List.map member_text (kv :: kvs)) = 34%N :: t).
      { destruct kvs as [|kw kws].
        - cbn [List.map join_commas]. unfold member_text, QuoteJSONString.
          cbn [app]. eauto.
        - cbn [List.map]. rewrite join_commas_more.
          unfold member_text at 1. unfold QuoteJSONString. cbn [app]. eauto. }
      destruct Hhead as (t & Hc).
      rewrite Hc at 1. cbn [app]. rewrite skip_ws_head by reflexivity.
      rewrite eat_miss by discriminate.
      rewrite (parse_members_props (kv :: kvs) IH); [reflexivity | discriminate | | lia].
      exact Hvalid.
Qed.

(** *** The fuel of the parser does not matter once it exceeds the text *)

Lemma skip_ws_length (s : list N) : (length (skip_ws s) <= length s)%nat.
Proof.
  induction s as [|c s IH]; [reflexivity|]. simpl.
  destruct (is_json_ws c); simpl; lia.
Qed.

Lemma eat_length (c : N) (s r : list N) :
  eat c s = Some r -> length s = S (length r).
Proof.
  destruct s as [|d s]; [discriminate|]. unfold eat.
  destruct (d =? c)%N; [|discriminate]. intros H; inversion H. reflexivity.
Qed.

Lemma take_digits_length (s : list N) :
  length s = (length (fst (take_digits s)) + length (snd (take_digits s)))%nat.
Proof.
  induction s as [|c s IH]; [reflexivity|]. simpl.
  destruct (is_digit c); [|reflexivity].
  destruct (take_digits s) as [ds r]. simpl in *. lia.
Qed.

Lemma eat_sign_length (s : list N) : (length (snd (eat_sign s)) <= length s)%nat.
Proof.
  unfold eat_sign. destruct (eat 43 s) as [r|] eqn:E1.
  - apply eat_length in E1. simpl. lia.
  - destruct (eat 45 s) as [r|] eqn:E2; simpl; [|lia].
    apply eat_length in E2. lia.
Qed.

Lemma parse_string_body_length (s cs rest : list N) :
  parse_string_body s = Some (cs, rest) -> (length rest < length s)%nat.
Proof.
  remember (length s) as n eqn:Hn. revert s cs rest Hn.
  induction n as [n IH] using lt_wf_ind. intros s cs rest Hn.
  destruct s as [|c r]; [discriminate|]. cbn [parse_string_body].
  destruct (c =? 34)%N.
  { intros H; inversion H; subst. simpl. lia. }
  destruct (c =? 92)%N.
  { destruct r as [|e r1]; [discriminate|].
    destruct (e =? 117)%N.
    - destruct r1 as [|h1 [|h2 [|h3 [|h4 r2]]]]; try discriminate.
      destruct (hex4 h1 h2 h3 h4); [|discriminate].
      destruct (parse_string_body r2) as [[cs' rest']|] eqn:E; [|discriminate].
      intros H; inversion H; subst.
      apply (IH (length r2)) in E; simpl in *; lia.
    - destruct (unescape e); [|discriminate].
      destruct (parse_string_body r1) as [[cs' rest']|] eqn:E; [|discriminate].
      intros H; inversion H; subst.
      apply (IH (length r1)) in E; simpl in *; lia. }
  destruct (c <? 32)%N; [discriminate|].
  destruct (parse_string_body r) as [[cs' rest']|] eqn:E; [|discriminate].
  intros H; inversion H; subst.
  apply (IH (length r)) in E; simpl in *; lia.
Qed.

Lemma parse_number_length (s : list N) (x : number) (rest : list N) :
  parse_number s = Some (x, rest) -> (length rest < length s)%nat.
Proof.
  unfold parse_number.
  assert (Hs1 : (length (snd (match eat 45 s with
                               | Some r => (true, r)
                               | None => (false, s)
                               end)) <= length s)%nat).
  { destruct (eat 45 s) as [r|] eqn:E; simpl; [|lia]. apply eat_length in E. lia. }
  destruct (match eat 45 s with Some r => (true, r) | None => (false, s) end)
    as [minus s1]. cbn [snd] in Hs1.
  pose proof (take_digits_length s1) as Hip.
  destruct (take_digits s1) as [ip r1]. cbn [fst snd] in Hip.
  destruct (bool_decide (ip = [])) eqn:Hne; [discriminate|].
  apply bool_decide_eq_false in Hne.
  assert (Hipl : (1 <= length ip)%nat) by (destruct ip; [congruence | simpl; lia]).
  destruct (starts_with [48%N] ip && (1 <? length ip)%nat); [discriminate|].
  cbn [orb].
  assert (Hfrac : forall fp r2,
            match eat 46 r1 with
            | Some r1' =>
                let '(fp0, r3) := take_digits r1' in
                match fp0 with [] => None | _ => Some (fp0, r3) end
            | None => Some ([], r1)
            end = Some (fp, r2) -> (length r2 <= length r1)%nat).
  { intros fp r2. destruct (eat 46 r1) as [r1'|] eqn:E.
    - apply eat_length in E. pose proof (take_digits_length r1') as Hfp.
      destruct (take_digits r1') as [fp0 r3]. cbn [fst snd] in Hfp.
      destruct fp0; [discriminate|]. intros H; inversion H; subst. lia.
    - intros H; inversion H; subst. lia. }
  destruct (match eat 46 r1 with
            | Some r1' => _
            | None => Some ([], r1)
            end) as [[fp r2]|] eqn:Efrac; [|discriminate].
  specialize (Hfrac fp r2 eq_refl).
  assert (Hex : forall e rest0,
            match r2 with
            | c :: r3 =>
                if ((c =? 101) || (c =? 69))%N then
                  let '(eminus, r4) := eat_sign r3 in
                  let '(es, r5) := take_digits r4 in
                  match es with
                  | [] => None
                  | _ => Some ((if eminus then - digits_value es
                                else digits_value es), r5)
                  end
                else Some (0, r2)
            | [] => Some (0, r2)
            end = Some (e, rest0) -> (length rest0 <= length r2)%nat).
  { intros e rest0. destruct r2 as [|c r3]; [intros H; inversion H; subst; lia|].
    destruct ((c =? 101) || (c =? 69))%N; [|intros H; inversion H; subst; lia].
    pose proof (eat_sign_length r3) as Hsg.
    destruct (eat_sign r3) as [eminus r4]. cbn [snd] in Hsg.
    pose proof (take_digits_length r4) as Hes.
    destruct (take_digits r4) as [es r5]. cbn [fst snd] in Hes.
    destruct es; [discriminate|]. intros H; inversion H; subst. simpl in *. lia. }
  destruct (match r2 with
            | c :: r3 => _
            | [] => Some (0, r2)
            end) as [[e rest0]|] eqn:Eex; [|discriminate].
  specialize (Hex e rest0 eq_refl).
  intros H; inversion H; subst. lia.
Qed.

Lemma every_fuel_enough (f : nat) : fuel_enough f.
Proof.
  induction f as [|f (IHv & IHe & IHm & IHvf & IHef & IHmf)].
  { repeat split; intros; try discriminate; lia. }
  assert (Hv : forall s v r, parse_value (S f) s = Some (v, r) ->
               (length r < length s)%nat).
  { intros s v r. rewrite parse_value_unfold.
    pose proof (skip_ws_length s) as Hws.
    destruct (skip_ws s) as [|c t]; [discriminate|]. simpl in Hws.
    pose proof (skip_ws_length t) as Hwt.
    destruct (c =? 123)%N.
    { destruct (eat 125 (skip_ws t)) as [r'|] eqn:E.
      - apply eat_length in E. intros H; inversion H; subst. lia.
      - intros H. apply IHm in H. lia. }
    destruct (c =? 91)%N.
    { destruct (eat 93 (skip_ws t)) as [r'|] eqn:E.
      - apply eat_length in E. intros H; inversion H; subst. lia.
      - intros H. apply IHe in H. lia. }
    destruct (c =? 34)%N.
    { destruct (parse_string_body t) as [[str r']|] eqn:E; [|discriminate].
      apply parse_string_body_length in E. intros H; inversion H; subst. lia. }
    destruct (starts_with (lit "null") (c :: t)).
    { intros H; inversion H; subst. rewrite length_drop. simpl. lia. }
    destruct (starts_with (lit "true") (c :: t)).
    { intros H; inversion H; subst. rewrite length_drop. simpl. lia. }
    destruct (starts_with (lit "false") (c :: t)).
    { intros H; inversion H; subst. rewrite length_drop. simpl. lia. }
    destruct (parse_number (c :: t)) as [[x r']|] eqn:E; [|discriminate].
    apply parse_number_length in E. intros H; inversion H; subst. simpl in E. lia. }
  assert (He : forall s acc v r, parse_elements (S f) s acc = Some (v, r) ->
               (length r < length s)%nat).
  { intros s acc v r. rewrite parse_elements_unfold.
    destruct (parse_value f s) as [[v0 r0]|] eqn:E0; [|discriminate].
    apply IHv in E0. pose proof (skip_ws_length r0) as Hw.
    destruct (eat 44 (skip_ws r0)) as [r'|] eqn:E1.
    - apply eat_length in E1. intros H. apply IHe in H. lia.
    - destruct (eat 93 (skip_ws r0)) as [r'|] eqn:E2; [|discriminate].
      apply eat_length in E2. intros H; inversion H; subst. lia. }
  assert (Hm : forall s acc v r, parse_members (S f) s acc = Some (v, r) ->
               (length r < length s)%nat).
  { intros s acc v r. rewrite parse_members_unfold.
    pose proof (skip_ws_length s) as Hw0.
    destruct (eat 34 (skip_ws s)) as [r0|] eqn:E0; [|discriminate].
    apply eat_length in E0.
    destruct (parse_string_body r0) as [[k r1]|] eqn:E1; [|discriminate].
    apply parse_string_body_length in E1. pose proof (skip_ws_length r1) as Hw1.
    destruct (eat 58 (skip_ws r1)) as [r2|] eqn:E2; [|discriminate].
    apply eat_length in E2.
    destruct (parse_value f r2) as [[v0 r3]|] eqn:E3; [|discriminate].
    apply IHv in E3. pose proof (skip_ws_length r3) as Hw3.
    destruct (eat 44 (skip_ws r3)) as [r4|] eqn:E4.
    - apply eat_length in E4. intros H. apply IHm in H. lia.
    - destruct (eat 125 (skip_ws r3)) as [r4|] eqn:E5; [|discriminate].
      apply eat_length in E5. intros H; inversion H; subst. lia. }
  split; [exact Hv|]. split; [exact He|]. split; [exact Hm|].
  split; [|split].
  - intros g s Hf Hg. destruct g as [|g]; [lia|].
    rewrite !parse_value_unfold.
    pose proof (skip_ws_length s) as Hws.
    destruct (skip_ws s) as [|c t]; [reflexivity|]. simpl in Hws.
    pose proof (skip_ws_length t) as Hwt.
    rewrite (IHmf g t []) by lia. rewrite (IHef g t []) by lia. reflexivity.
  - intros g s acc Hf Hg. destruct g as [|g]; [lia|].
    rewrite !parse_elements_unfold.
    rewrite (IHvf g s) by lia.
    destruct (parse_value g s) as [[v0 r0]|] eqn:E0; [|reflexivity].
    assert (E0' : parse_value f s = Some (v0, r0)) by (rewrite (IHvf g s); [exact E0 | lia | lia]).
    apply IHv in E0'. pose proof (skip_ws_length r0) as Hw.
    destruct (eat 44 (skip_ws r0)) as [r'|] eqn:E1; [|reflexivity].
    apply eat_length in E1. apply IHef; lia.
  - intros g s acc Hf Hg. destruct g as [|g]; [lia|].
    rewrite !parse_members_unfold.
    pose proof (skip_ws_length s) as Hw0.
    destruct (eat 34 (skip_ws s)) as [r0|] eqn:E0; [|reflexivity].
    apply eat_length in E0.
    destruct (parse_string_body r0) as [[k r1]|] eqn:E1; [|reflexivity].
    apply parse_string_body_length in E1. pose proof (skip_ws_length r1) as Hw1.
    destruct (eat 58 (skip_ws r1)) as [r2|] eqn:E2; [|reflexivity].
    apply eat_length in E2.
    rewrite (IHvf g r2) by lia.
    destruct (parse_value g r2) as [[v0 r3]|] eqn:E3; [|reflexivity].
    assert (E3' : parse_value f r2 = Some (v0, r3)) by (rewrite (IHvf g r2); [exact E3 | lia | lia]).
    apply IHv in E3'. pose proof (skip_ws_length r3) as Hw3.
    destruct (eat 44 (skip_ws r3)) as [r4|] eqn:E4; [|reflexivity].
    apply eat_length in E4. apply IHmf; lia.
Qed.

(** Giving [parse_value] more fuel than [JSON_parse] does changes
    nothing: a SyntaxError is never for want of fuel. *)
Theorem parse_value_fuel (fuel : nat) (text : list N) :
  (2 * length text < fuel)%nat ->
  parse_value fuel text = parse_value (S (2 * length text)) text.
Proof.
  intros H. destruct (every_fuel_enough fuel) as (_ & _ & _ & Hf & _).
  apply Hf; lia.
Qed.

(** *** The fuel of JSON.parse is enough *)

Lemma stringify_nonempty (v : value) :
  numbers_valid v = true -> (1 <= length (JSON_stringify v))%nat.
Proof.
  intros H. destruct (stringify_head v H) as (c & t & -> & _). simpl. lia.
Qed.

Lemma need_le_length (v : value) :
  numbers_valid v = true -> (need v <= length (JSON_stringify v))%nat.
Proof.
  induction v as [| b | x | s | items IH | props IH] using value_induction;
    intros Hvalid; try (now apply stringify_nonempty).
  - cbn [need JSON_stringify]. rewrite !length_app. cbn [length].
    cbn [numbers_valid] in Hvalid.
    assert (H : (fold_right (fun item n => S (Nat.max (need item) n)) O items
                 <= S (length (join_commas (List.map JSON_stringify items))))%nat).
    { induction IH as [|v vs Hv _ IHvs]; [simpl; lia|].
      cbn [forallb] in Hvalid. apply andb_true_iff in Hvalid as [Hvv Hvvs].
      specialize (Hv Hvv). specialize (IHvs Hvvs). cbn [fold_right].
      destruct vs as [|w ws].
      - cbn [List.map join_commas fold_right]. lia.
      - cbn [List.map]. rewrite join_commas_more, !length_app. cbn [length].
        cbn [List.map] in IHvs. lia. }
    lia.
  - cbn [need JSON_stringify]. rewrite !length_app. cbn [length].
    cbn [numbers_valid] in Hvalid.
    change (fun kv : list N * value =>
              QuoteJSONString (fst kv) ++ [58%N] ++ JSON_stringify (snd kv))
      with member_text.
    assert (Hm : forall kv, numbers_valid (snd kv) = true ->
                 (need (snd kv) <= length (JSON_stringify (snd kv)))%nat ->
                 (need (snd kv) <= length (member_text kv))%nat).
    { intros kv _ Hle. unfold member_text. rewrite !length_app. lia. }
    assert (H : (fold_right (fun kv n => S (Nat.max (need (snd kv)) n)) O props
                 <= S (length (join_commas (List.map member_text props))))%nat).
    { induction IH as [|kv kvs Hv _ IHkvs]; [simpl; lia|].
      cbn [forallb] in Hvalid. apply andb_true_iff in Hvalid as [Hvv Hvvs].
      specialize (Hm kv Hvv (Hv Hvv)). specialize (IHkvs Hvvs). cbn [fold_right].
      destruct kvs as [|kw kws].
      - cbn [List.map join_commas fold_right]. lia.
      - cbn [List.map]. rewrite join_commas_more, !length_app. cbn [length].
        cbn [List.map] in IHkvs. lia. }
    lia.
Qed.

(** [JSON.parse(JSON.stringify(v))] is [carried_value v] for every value
    whose Numbers are binary64 values. *)
Theorem JSON_parse_stringify (v : value) :
  numbers_valid v = true ->
  JSON_parse (JSON_stringify v) = Normal (carried_value v).
Proof.
  intros Hvalid. unfold JSON_parse.
  pose proof (every_value_reads_back v Hvalid
                (S (2 * length (JSON_stringify v))) []) as H.
  rewrite app_nil_r in H. rewrite H; [reflexivity | | exact I].
  pose proof (need_le_length v Hvalid). lia.
Qed.

(** *** Time values are binary64 values *)

Lemma of_Z_time_value (n : Z) :
  0 <= n < 2 ^ 53 ->
  number_valid (of_Z n) = true /\ is_finite (of_Z n) = true
  /\ carried (of_Z n) = of_Z n.
Proof.
  intros Hn. unfold of_Z.
  replace (n <? 0) with false by (symmetry; apply Z.ltb_ge; lia).
  rewrite Z.abs_eq by lia.
  destruct n as [|p|p]; [repeat split | | lia].
  pose proof (Zdigits2_bounds p) as [Hlo Hhi].
  set (d := Zdigits2 (Zpos p)) in *.
  assert (Hd1 : 1 <= d) by (unfold d; simpl; lia).
  assert (Hd53 : d <= 53).
  { destruct (Z.le_gt_cases d 53) as [H|H]; [exact H|].
    assert (2 ^ 53 <= 2 ^ (d - 1)) by (apply Z.pow_le_mono_r; lia). lia. }
  assert (Hpow : 0 < 2 ^ (53 - d)) by (apply Z.pow_pos_nonneg; lia).
  set (m := Z.to_pos (Zpos p * 2 ^ (53 - d))).
  assert (Hm : Zpos m = Zpos p * 2 ^ (53 - d)) by (unfold m; apply Z2Pos.id; lia).
  assert (Hb : bounded prec emax m (d - 53) = true).
  { unfold bounded, canonical_mantissa. apply andb_true_iff. split.
    - apply Z.eqb_eq.
      change (Zpos (digits2_pos m)) with (Zdigits2 (Zpos m)).
      rewrite Hm, Zdigits2_mul_pow2 by lia. fold d.
      unfold fexp, emin, prec, emax. lia.
    - apply Z.leb_le. unfold prec, emax. lia. }
  assert (E : of_decimal false (Zpos p) 0 = S754_finite false m (d - 53)).
  { unfold of_decimal. apply round_Q_exact; [exact Hb|].
    unfold decimal_Q, float_Q, Qeq. cbn [Z.leb Z.compare Z.pow Qnum Qden inject_Z].
    destruct (0 <=? d - 53) eqn:He.
    - apply Z.leb_le in He. assert (d = 53) by lia.
      cbn [Qnum Qden inject_Z]. rewrite Hm.
      replace (53 - d) with 0 by lia. replace (d - 53) with 0 by lia. simpl. lia.
    - apply Z.leb_gt in He. cbn [Qnum Qden].
      rewrite pos_pow by lia. rewrite Hm.
      replace (- (d - 53)) with (53 - d) by lia. lia. }
  rewrite E. repeat split. exact Hb.
Qed.

(** *** The stored snapshot of storable transactions reads back *)

Lemma carried_Transaction_value (t : Transaction) :
  storable t -> carried_value (Transaction_value t) = Transaction_value t.
Proof.
  intros (Hid & Hvalid & Hfin & Hzero).
  destruct (of_Z_time_value (id t) Hid) as (_ & Hidfin & Hidc).
  unfold Transaction_value. cbn [carried_value List.map fst snd].
  rewrite Hidfin, Hfin, Hidc.
  replace (carried (amount t)) with (amount t).
  - reflexivity.
  - destruct (amount t) as [[|]| | |]; try reflexivity. congruence.
Qed.

Lemma Transaction_value_valid (t : Transaction) :
  storable t -> numbers_valid (Transaction_value t) = true.
Proof.
  intros (Hid & Hvalid & _).
  destruct (of_Z_time_value (id t) Hid) as (Hidv & _).
  unfold Transaction_value. cbn [numbers_valid forallb snd].
  now rewrite Hidv, Hvalid.
Qed.

Lemma stored_transactions_read_back (ts : list Transaction) :
  Forall storable ts ->
  JSON_parse (JSON_stringify (VArr (List.map Transaction_value ts)))
  = Normal (VArr (List.map Transaction_value ts)).
Proof.
  intros Hall. rewrite JSON_parse_stringify.
  - cbn [carried_value]. do 2 f_equal. rewrite List.map_map.
    induction Hall as [|t ts Ht _ IH]; [reflexivity|].
    cbn [List.map]. now rewrite carried_Transaction_value, IH.
  - cbn [numbers_valid]. induction Hall as [|t ts Ht _ IH]; [reflexivity|].
    cbn [List.map forallb]. now rewrite Transaction_value_valid, IH.
Qed.

(* ===================================================================== *)
(** ** Every Number the page computes from text is a binary64 value       *)
(* ===================================================================== *)

(** *** Shifting right divides *)

Lemma shr_1_half (mrs : shr_record) :
  0 <= shr_m mrs -> shr_m (shr_1 mrs) = shr_m mrs / 2.
Proof.
  destruct mrs as [m r s]; cbn [shr_m]. intros Hm.
  destruct m as [|p|p]; [reflexivity | | lia].
  destruct p as [p|p|]; cbn [shr_1 shr_m].
  - rewrite Pos2Z.inj_xI. apply (Z.div_unique_pos _ _ _ 1); lia.
  - rewrite Pos2Z.inj_xO. apply (Z.div_unique_pos _ _ _ 0); lia.
  - reflexivity.
Qed.

Lemma shr_iter_div (n : nat) (mrs : shr_record) :
  0 <= shr_m mrs ->
  shr_m (Nat.iter n shr_1 mrs) = shr_m mrs / 2 ^ Z.of_nat n.
Proof.
  intros Hm. induction n as [|n IH].
  - simpl. now rewrite Z.div_1_r.
  - rewrite Nat.iter_succ, shr_1_half.
    + rewrite IH, Nat2Z.inj_succ, Z.pow_succ_r by lia.
      rewrite Z.div_div by (try apply Z.pow_pos_nonneg; lia).
      f_equal. lia.
    + rewrite IH. apply Z.div_pos; [assumption|]. apply Z.pow_pos_nonneg; lia.
Qed.

Lemma shr_div (mrs : shr_record) (e n : Z) :
  0 <= shr_m mrs -> 0 <= n ->
  shr_m (fst (shr mrs e n)) = shr_m mrs / 2 ^ n
  /\ snd (shr mrs e n) = e + n.
Proof.
  intros Hm Hn. unfold shr. destruct n as [|p|p]; try lia.
  - cbn [fst snd]. rewrite Z.div_1_r. lia.
  - cbn [fst snd]. split; [|reflexivity].
    rewrite iter_pos_nat, shr_iter_div by assumption.
    now rewrite positive_nat_Z.
Qed.

Lemma Zdigits2_nonneg (m : Z) : 0 <= Zdigits2 m.
Proof. destruct m; simpl; lia. Qed.

Lemma Zdigits2_pos_bounds (m : Z) :
  0 < m -> 2 ^ (Zdigits2 m - 1) <= m < 2 ^ Zdigits2 m.
Proof. intros H. destruct m as [|p|p]; try lia. apply Zdigits2_bounds. Qed.

Lemma Zdigits2_shifted (m n : Z) :
  0 < m -> 0 <= n -> 0 < m / 2 ^ n ->
  Zdigits2 (m / 2 ^ n) = Zdigits2 m - n.
Proof.
  intros Hm Hn Hq.
  pose proof (Zdigits2_pos_bounds m Hm) as [Hlo Hhi].
  assert (Hp : 0 < 2 ^ n) by (apply Z.pow_pos_nonneg; lia).
  assert (Hnd : n < Zdigits2 m).
  { destruct (Z.lt_ge_cases n (Zdigits2 m)) as [H|H]; [exact H|].
    assert (2 ^ Zdigits2 m <= 2 ^ n) by (apply Z.pow_le_mono_r; lia).
    rewrite Z.div_small in Hq; lia. }
  apply Zdigits2_unique; [assumption|]. split.
  - apply Z.div_le_lower_bound; [assumption|].
    rewrite <- Z.pow_add_r by lia.
    replace (n + (Zdigits2 m - n - 1)) with (Zdigits2 m - 1) by lia. assumption.
  - apply Z.div_lt_upper_bound; [assumption|].
    rewrite <- Z.pow_add_r by lia.
    replace (n + (Zdigits2 m - n)) with (Zdigits2 m) by lia. assumption.
Qed.

(** *** One truncation to the canonical exponent *)

Lemma shr_fexp_canonical (m e : Z) (l : location) :
  0 <= m -> enough_digits m e ->
  zero_or_canonical (shr_m (fst (shr_fexp prec emax m e l)))
                    (snd (shr_fexp prec emax m e l)).
Proof.
  intros Hm He. unfold enough_digits in He. unfold shr_fexp.
  set (e' := fexp prec emax (Zdigits2 m + e)) in *.
  assert (Hshift : 0 <= e' - e) by lia.
  assert (Hrec : 0 <= shr_m (shr_record_of_loc m l))
    by now rewrite shr_record_of_loc_m.
  destruct (shr_div (shr_record_of_loc m l) e (e' - e) Hrec Hshift) as [Hq Hexp].
  rewrite Hq, Hexp, shr_record_of_loc_m.
  replace (e + (e' - e)) with e' by lia.
  assert (Hp : 0 < 2 ^ (e' - e)) by (apply Z.pow_pos_nonneg; lia).
  pose proof (Zdigits2_nonneg m) as Hd.
  unfold zero_or_canonical. split; [|split].
  - apply Z.div_pos; lia.
  - intros Hz. unfold e' in *. unfold fexp, emin, prec, emax in *.
    destruct (Z.eq_dec m 0) as [->|Hne].
    + simpl in *. lia.
    + assert (Hmpos : 0 < m) by lia.
      pose proof (Zdigits2_pos_bounds m Hmpos) as [Hlo _].
      apply Z.div_small_iff in Hz; [|lia].
      destruct Hz as [[_ Hz]|Hz]; [|lia].
      set (d := Zdigits2 m) in *.
      set (sh := Z.max (d + e - 53) (3 - 1024 - 53) - e) in *.
      assert (d - 1 < sh).
      { apply (Z.pow_lt_mono_r_iff 2); lia. }
      lia.
  - intros Hpos.
    assert (Hmpos : 0 < m).
    { destruct (Z.eq_dec m 0) as [->|]; [|lia]. rewrite Z.div_0_l in Hpos; lia. }
    rewrite Zdigits2_shifted by lia.
    replace (Zdigits2 m - (e' - e) + e') with (Zdigits2 m + e) by lia.
    reflexivity.
Qed.

Lemma zero_or_canonical_enough (m e m' : Z) :
  zero_or_canonical m e -> m' = m \/ m' = m + 1 -> enough_digits m' e.
Proof.
  intros (Hm & Hz & Hc) Hm'. unfold enough_digits.
  destruct (Z.eq_dec m 0) as [->|Hne].
  - rewrite (Hz eq_refl). unfold fexp. lia.
  - assert (Hpos : 0 < m) by lia. rewrite <- (Hc Hpos) at 1.
    apply fexp_monotone.
    assert (Zdigits2 m <= Zdigits2 m'); [|lia].
    destruct Hm' as [-> | ->]; [lia|].
    pose proof (Zdigits2_pos_bounds m Hpos) as [Hlo _].
    pose proof (Zdigits2_pos_bounds (m + 1) ltac:(lia)) as [_ Hhi].
    assert (Zdigits2 m - 1 < Zdigits2 (m + 1)); [|lia].
    apply (Z.pow_lt_mono_r_iff 2); [lia | apply Zdigits2_nonneg | lia].
Qed.

Lemma round_nearest_even_step (m : Z) (l : location) :
  round_nearest_even m l = m \/ round_nearest_even m l = m + 1.
Proof. destruct l as [|[]]; simpl; auto. destruct (Z.even m); auto. Qed.

(** *** Rounding yields a binary64 value *)

Lemma binary_round_aux_valid (sx : bool) (mx ex : Z) (lx : location) :
  0 <= mx -> enough_digits mx ex ->
  valid_binary prec emax (binary_round_aux prec emax sx mx ex lx) = true.
Proof.
  intros Hm He. unfold binary_round_aux.
  pose proof (shr_fexp_canonical mx ex lx Hm He) as H1.
  destruct (shr_fexp prec emax mx ex lx) as [mrs' e']. cbn [fst snd] in H1.
  set (m2 := round_nearest_even (shr_m mrs') (loc_of_shr_record mrs')).
  assert (Hm2 : 0 <= m2).
  { apply round_nearest_even_nonneg. apply H1. }
  pose proof (zero_or_canonical_enough _ _ m2 H1
                (round_nearest_even_step _ _)) as He2.
  pose proof (shr_fexp_canonical m2 e' loc_Exact Hm2 He2) as H2.
  destruct (shr_fexp prec emax m2 e' loc_Exact) as [mrs'' e'']. cbn [fst snd] in H2.
  destruct H2 as (_ & _ & Hc).
  destruct (shr_m mrs'') as [|m|m] eqn:Hm3; [reflexivity | | reflexivity].
  destruct (e'' <=? emax - prec) eqn:Hle; [|reflexivity].
  cbn [valid_binary]. unfold bounded, canonical_mantissa.
  rewrite Hle, andb_true_r. apply Z.eqb_eq.
  apply (Hc ltac:(lia)).
Qed.

Lemma round_ratio_valid (sign : bool) (p q : positive) :
  number_valid (round_ratio sign p q) = true.
Proof.
  unfold number_valid, round_ratio, SFdiv, SFdiv_core_binary.
  pose proof (Zdigits2_bounds p) as [Hp1 Hp2].
  pose proof (Zdigits2_bounds q) as [Hq1 Hq2].
  set (d1 := Zdigits2 (Zpos p)) in *. set (d2 := Zdigits2 (Zpos q)) in *.
  assert (Hd1 : 0 < d1) by (unfold d1; simpl; lia).
  assert (Hd2 : 0 < d2) by (unfold d2; simpl; lia).
  replace (d1 + 0 - (d2 + 0)) with (d1 - d2) by lia.
  change (0 - 0) with 0.
  set (e' := Z.min (fexp prec emax (d1 - d2)) 0).
  assert (He'0 : e' <= 0) by (unfold e'; lia).
  set (m' := match 0 - e' with
             | 0 => Zpos p
             | Zpos _ => Z.shiftl (Zpos p) (0 - e')
             | Zneg _ => 0
             end).
  assert (Hm' : m' = Zpos p * 2 ^ (- e')).
  { unfold m'. replace (0 - e') with (- e') by lia.
    destruct (- e') as [|s|s] eqn:Hs.
    - now rewrite Z.pow_0_r, Z.mul_1_r.
    - rewrite Z.shiftl_mul_pow2 by lia. reflexivity.
    - lia. }
  assert (Hpow : 0 < 2 ^ (- e')) by (apply Z.pow_pos_nonneg; lia).
  pose proof (Z.div_eucl_eq m' (Zpos q) ltac:(lia)) as Hd.
  pose proof (Z.mod_pos_bound m' (Zpos q) ltac:(lia)) as Hr.
  unfold Z.modulo in Hr.
  destruct (Z.div_eucl m' (Zpos q)) as [z r].
  assert (Hz : 0 <= z) by nia.
  apply binary_round_aux_valid; [assumption|].
  unfold enough_digits.
  assert (Hlow : 2 ^ (d1 - 1 + - e') <= m').
  { rewrite Hm', Z.pow_add_r by lia. apply Z.mul_le_mono_nonneg_r; lia. }
  destruct (Z.eq_dec z 0) as [->|Hne].
  - (* the quotient is below one unit: the exponent is the least one *)
    cbn [Zdigits2]. rewrite Z.add_0_l.
    assert (Hlt : 2 ^ (d1 - 1 + - e') < 2 ^ d2) by lia.
    apply Z.pow_lt_mono_r_iff in Hlt; [|lia|lia].
    unfold e' in *. unfold fexp, emin, prec, emax in *. lia.
  - assert (Hzpos : 0 < z) by lia.
    pose proof (Zdigits2_pos_bounds z Hzpos) as [_ Hzhi].
    assert (Hdz : d1 - d2 <= Zdigits2 z + e').
    { assert (Hlt : 2 ^ (d1 - 1 + - e') < 2 ^ (d2 + Zdigits2 z)).
      { rewrite (Z.pow_add_r 2 d2) by (try apply Zdigits2_nonneg; lia).
        assert (Zpos q * z + r < Zpos q * (z + 1)) by lia.
        assert (Zpos q * (z + 1) <= 2 ^ d2 * 2 ^ Zdigits2 z).
        { apply Z.mul_le_mono_nonneg; lia. }
        lia. }
      apply Z.pow_lt_mono_r_iff in Hlt; [lia | lia |].
      pose proof (Zdigits2_nonneg z). lia. }
    pose proof (fexp_monotone _ _ Hdz) as Hmono.
    assert (He'f : e' <= fexp prec emax (d1 - d2)) by (unfold e'; lia).
    lia.
Qed.

Lemma of_decimal_valid (sign : bool) (d e : Z) :
  number_valid (of_decimal sign d e) = true.
Proof.
  unfold of_decimal, round_Q. destruct (Qnum _); try reflexivity.
  apply round_ratio_valid.
Qed.

Lemma parseFloat_valid (s : list N) : number_valid (parseFloat s) = true.
Proof.
  unfold parseFloat. destruct (eat_sign _) as [minus u].
  destruct (scan_unsigned_literal u) as [[|d e]|]; try reflexivity.
  apply of_decimal_valid.
Qed.

Lemma abs_valid (x : number) :
  number_valid x = true -> number_valid (Math_abs x) = true.
Proof. now destruct x. Qed.

Lemma neg_valid (x : number) :
  number_valid x = true -> number_valid (neg x) = true.
Proof. now destruct x. Qed.

(* ===================================================================== *)
(** ** The stored snapshot                                                *)
(* ===================================================================== *)

(** *** C1 *)

Lemma JSON_parse_throws_only_SyntaxError (text : list N) (e : error) :
  JSON_parse text = Throw e -> e = SyntaxError.
Proof.
  unfold JSON_parse. destruct (parse_value _ text) as [[v r]|].
  - destruct (skip_ws r); intros H; inversion H; reflexivity.
  - intros H; inversion H; reflexivity.
Qed.

Lemma load_key_absent (storage : gmap (list N) (list N)) (key : list N) :
  storage !! key = None -> load_key storage key = Normal (VArr []).
Proof. intros H. unfold load_key, getItem. rewrite H. reflexivity. Qed.

Lemma load_key_present (storage : gmap (list N) (list N)) (key s : list N) :
  storage !! key = Some s ->
  load_key storage key
  = match JSON_parse s with
    | Normal v => Normal (if truthy v then v else VArr [])
    | Throw e => Throw e
    end.
Proof. intros H. unfold load_key, getItem. rewrite H. reflexivity. Qed.

(** C1, as the claim states it, fails: a stored text that is not JSON
    makes the restoration raise a SyntaxError. *)
Lemma load_malformed_throws :
  load malformed_store = Throw SyntaxError.
Proof. vm_compute. reflexivity. Qed.

(** C1, amended. The restoration of a collection yields the empty
    sequence when its key is absent, and also when the stored text is
    JSON for a falsy value; it yields the parsed value when the stored
    text is JSON for anything else, in particular for every text that
    [JSON.stringify] wrote. It raises (a SyntaxError, never anything
    else) exactly when the stored text of one of the two keys is not
    JSON: there is no recovery from malformed data. *)
Theorem load_succeeds_on_absent_or_json (storage : gmap (list N) (list N)) :
  (forall key, storage !! key = None -> load_key storage key = Normal (VArr []))
  /\ (forall key s v,
        storage !! key = Some s -> JSON_parse s = Normal v ->
        load_key storage key = Normal (if truthy v then v else VArr []))
  /\ ((exists ts cs, load storage = Normal (ts, cs))
      <-> (forall key s,
             key = lit "transactions" \/ key = lit "categories" ->
             storage !! key = Some s -> exists v, JSON_parse s = Normal v))
  /\ (forall e, load storage = Throw e ->
        e = SyntaxError
        /\ exists key s,
             (key = lit "transactions" \/ key = lit "categories")
             /\ storage !! key = Some s /\ JSON_parse s = Throw SyntaxError)
  /\ (forall key v,
        numbers_valid v = true ->
        storage !! key = Some (JSON_stringify v) ->
        load_key storage key
        = Normal (if truthy (carried_value v) then carried_value v else VArr [])).
Proof.
  split; [|split; [|split; [|split]]].
  5:{ intros key v Hvalid Hs.
      rewrite (load_key_present _ _ _ Hs), JSON_parse_stringify by assumption.
      reflexivity. }
  - apply load_key_absent.
  - intros key s v Hs Hv. rewrite (load_key_present _ _ _ Hs), Hv. reflexivity.
  - unfold load. split.
    + intros [ts [cs H]] key s [-> | ->] Hs.
      * rewrite (load_key_present _ _ _ Hs) in H.
        destruct (JSON_parse s) as [v|e]; [now exists v | discriminate].
      * destruct (load_key storage (lit "transactions")); [|discriminate].
        rewrite (load_key_present _ _ _ Hs) in H.
        destruct (JSON_parse s) as [v|e]; [now exists v | discriminate].
    + intros H.
      assert (Hk : forall key, key = lit "transactions" \/ key = lit "categories" ->
                 exists v, load_key storage key = Normal v).
      { intros key Hkey. destruct (storage !! key) as [s|] eqn:Hs.
        - destruct (H key s Hkey Hs) as [v Hv].
          rewrite (load_key_present _ _ _ Hs), Hv. eauto.
        - rewrite (load_key_absent _ _ Hs). eauto. }
      destruct (Hk (lit "transactions") (or_introl eq_refl)) as [ts ->].
      destruct (Hk (lit "categories") (or_intror eq_refl)) as [cs ->].
      now exists ts, cs.
  - assert (Hk : forall key e, load_key storage key = Throw e ->
               e = SyntaxError
               /\ exists s, storage !! key = Some s /\ JSON_parse s = Throw SyntaxError).
    { intros key e. destruct (storage !! key) as [s|] eqn:Hs.
      - rewrite (load_key_present _ _ _ Hs).
        destruct (JSON_parse s) as [v|e'] eqn:Hp; [discriminate|].
        intros H; inversion H; subst e'.
        pose proof (JSON_parse_throws_only_SyntaxError _ _ Hp) as ->. eauto.
      - rewrite (load_key_absent _ _ Hs). discriminate. }
    intros e. unfold load.
    destruct (load_key storage (lit "transactions")) as [ts|e1] eqn:H1.
    + destruct (load_key storage (lit "categories")) as [cs|e2] eqn:H2; [discriminate|].
      intros H; inversion H; subst e2.
      destruct (Hk _ _ H2) as [-> [s Hs]]. split; [reflexivity|].
      exists (lit "categories"), s. tauto.
    + intros H; inversion H; subst e1.
      destruct (Hk _ _ H1) as [-> [s Hs]]. split; [reflexivity|].
      exists (lit "transactions"), s. tauto.
Qed.

Lemma load_succeeds_witness :
  load_key (<[ lit "categories" := lit "[]" ]> ∅) (lit "transactions") = Normal (VArr []).
Proof.
  apply (proj1 (load_succeeds_on_absent_or_json (<[ lit "categories" := lit "[]" ]> ∅))).
  vm_compute. reflexivity.
Defined.

(** *** C8 *)

(** C8 at an amount text that overflows: [1e999] parses to Infinity, which
    passes the [isNaN] check; the expense [-Infinity] is pushed and
    written to the store as [null], so reloading yields a transaction
    whose amount is [null] and not the sequence that was serialized. *)
Theorem infinite_amount_not_restored :
  reachable overflowing_amount
  /\ List.map amount (transactions (this overflowing_amount)) = [S754_infinity true]
  /\ load_key (localStorage overflowing_amount) (lit "transactions")
     = Normal (VArr [ VObj [ (lit "id", VNum (of_Z 1700000000000));
                             (lit "text", VStr (lit "Rent"));
                             (lit "amount", VNull);
                             (lit "category", VStr (lit "Uncategorized")) ] ])
  /\ load_key (localStorage overflowing_amount) (lit "transactions")
     <> Normal (VArr (List.map Transaction_value
                        (transactions (this overflowing_amount)))).
Proof.
  split; [|split; [|split]].
  - unfold overflowing_amount. apply reachable_add, reachable_edit, reachable_start.
    reflexivity.
  - vm_compute. reflexivity.
  - vm_compute. reflexivity.
  - vm_compute. intros H. discriminate H.
Qed.

(** *** The snapshot of storable transactions reads back *)

(** What C8 asks for, on the transactions it holds for: when every
    transaction of the ledger is storable, writing the snapshot with
    [updateLocalStorage] and restoring it gives back the same ordered
    sequence; the categories entry of the store is not written, so its
    restoration is what it was. *)
Theorem serialize_reload_storable (st : State) :
  Forall storable (transactions (this st)) ->
  load_key (localStorage (updateLocalStorage st)) (lit "transactions")
  = Normal (VArr (List.map Transaction_value (transactions (this st))))
  /\ load_key (localStorage (updateLocalStorage st)) (lit "categories")
     = load_key (localStorage st) (lit "categories").
Proof.
  intros Hall. unfold updateLocalStorage. cbn [localStorage this]. split.
  - erewrite load_key_present by apply lookup_insert_eq.
    now rewrite stored_transactions_read_back.
  - unfold load_key, getItem. rewrite lookup_insert_ne; [reflexivity|].
    vm_compute. discriminate.
Qed.

Lemma serialize_reload_storable_witness :
  load_key (localStorage (updateLocalStorage same_millisecond_twice)) (lit "transactions")
  = Normal (VArr (List.map Transaction_value (transactions (this same_millisecond_twice)))).
Proof.
  refine (proj1 (serialize_reload_storable same_millisecond_twice _)).
  assert (E : transactions (this same_millisecond_twice)
              = [ {| id := 7; text := lit "a"; amount := of_Z 1;
                     category := lit "Uncategorized" |};
                  {| id := 7; text := lit "b"; amount := of_Z 2;
                     category := lit "Uncategorized" |} ])
    by (vm_compute; reflexivity).
  rewrite E.
  constructor; [|constructor; [|constructor]];
    (split; [cbn [id]; lia|]; split; [reflexivity|]; split; [reflexivity | discriminate]).
Defined.

(** *** The snapshot of a reachable ledger reads back when it should *)

Lemma built_amount_valid (now : Z) (st : State) :
  number_valid (amount (built now st)) = true.
Proof.
  unfold built; cbn [amount].
  destruct (jsstring_eqb _ _); [apply neg_valid|]; apply abs_valid, parseFloat_valid.
Qed.

Lemma reachable_amounts_valid (st : State) :
  reachable st ->
  Forall (fun t => number_valid (amount t) = true) (transactions (this st)).
Proof.
  intros H. induction H as [st E | | now st H IH | id0 st H IH].
  - rewrite E. constructor.
  - exact IHreachable.
  - destruct (addTransaction_transactions now st) as [E | [E _]]; rewrite E.
    + exact IH.
    + apply Forall_app. split; [exact IH|].
      constructor; [apply built_amount_valid | constructor].
  - rewrite removeTransaction_transactions.
    apply List.Forall_forall. intros t Ht. apply List.filter_In in Ht as [Ht _].
    revert t Ht. now apply List.Forall_forall.
Qed.

(** What C8 asks for holds in every reachable state whose identifiers
    are time values and whose amounts are finite and not the negative
    zero: the snapshot that [updateLocalStorage] writes restores to the
    same ordered sequence, and the restoration of the categories is what
    it was before the write. *)
Theorem serialize_reload_reachable (st : State) :
  reachable st ->
  Forall (fun t => 0 <= id t < 2 ^ 53
                   /\ is_finite (amount t) = true
                   /\ amount t <> S754_zero true) (transactions (this st)) ->
  load_key (localStorage (updateLocalStorage st)) (lit "transactions")
  = Normal (VArr (List.map Transaction_value (transactions (this st))))
  /\ load_key (localStorage (updateLocalStorage st)) (lit "categories")
     = load_key (localStorage st) (lit "categories").
Proof.
  intros Hreach Hall. apply serialize_reload_storable.
  pose proof (reachable_amounts_valid st Hreach) as Hvalid.
  rewrite List.Forall_forall in Hall, Hvalid. apply List.Forall_forall.
  intros t Ht. destruct (Hall t Ht) as (Hid & Hfin & Hz).
  unfold storable. auto.
Qed.

(** *** The categories stay the ones the store holds *)

Lemma categories_key_untouched (storage : gmap (list N) (list N)) (text : list N) :
  load_key (<[ lit "transactions" := text ]> storage) (lit "categories")
  = load_key storage (lit "categories").
Proof.
  unfold load_key, getItem. rewrite lookup_insert_ne; [reflexivity|].
  vm_compute. discriminate.
Qed.

Lemma categories_in_sync_kept (st : State) :
  categories_in_sync st ->
  (forall now, categories_in_sync (snd (addTransaction now st)))
  /\ (forall id0, categories_in_sync (removeTransaction id0 st))
  /\ (forall label rawAmount radios select,
        categories_in_sync (edit label rawAmount radios select st))
  /\ categories_in_sync (updateLocalStorage st).
Proof.
  unfold categories_in_sync. intros H. split; [|split; [|split]].
  - intros now.
    destruct (addTransaction_path now st) as [_ E | _ _ _ E | _ _ _ E]; rewrite E;
      cbn [snd]; try exact H.
    unfold after_add. cbn [localStorage this].
    rewrite categories_key_untouched. exact H.
  - intros id0. unfold removeTransaction, updateLocalStorage. cbn [localStorage this].
    rewrite categories_key_untouched, init_categories. exact H.
  - intros. exact H.
  - unfold updateLocalStorage. cbn [localStorage this].
    rewrite categories_key_untouched. exact H.
Qed.

(** With the categories in sync and every transaction storable, writing
    the snapshot and restoring gives back both collections: the same
    ordered sequence of transactions and the same categories. *)
Theorem serialize_reload_in_sync (st : State) :
  categories_in_sync st ->
  Forall storable (transactions (this st)) ->
  load (localStorage (updateLocalStorage st))
  = Normal (VArr (List.map Transaction_value (transactions (this st))),
            VArr (List.map VStr (categories (this st)))).
Proof.
  intros Hsync Hall. unfold load.
  destruct (serialize_reload_storable st Hall) as [-> ->].
  unfold categories_in_sync in Hsync. now rewrite Hsync.
Qed.

(* ===================================================================== *)
(** * The view and the store follow the ledger                            *)
(* ===================================================================== *)

Lemma first_visit_add_reachable (now : Z) (label rawAmount kind : list N)
    (category : option (list N)) :
  reachable (snd (addTransaction now (fill label rawAmount kind category first_visit))).
Proof.
  apply reachable_add. unfold fill. apply reachable_edit.
  apply reachable_start. reflexivity.
Qed.

Lemma same_millisecond_twice_reachable : reachable same_millisecond_twice.
Proof.
  unfold same_millisecond_twice. apply reachable_add.
  apply reachable_edit. apply first_visit_add_reachable.
Qed.

Lemma init_view_in_sync (tr : ExpenseTracker) : view_in_sync (init tr).
Proof.
  unfold view_in_sync, init. rewrite render_all.
  destruct tr as [b p m l tv av radios sel ts cs].
  unfold populateCategoryDropdown; destruct sel as [sel|];
    (split; [|split; [|split]]); reflexivity.
Qed.

Lemma after_add_view_in_sync (now : Z) (st : State) :
  view_in_sync (this st) -> view_in_sync (this (after_add now st)).
Proof.
  intros (Hl & _). unfold view_in_sync, after_add. cbn [this].
  unfold with_inputs, updateValues, with_summary, addTransactionDOM,
    with_list_items, with_transactions.
  cbn [list_items transactions balance money_plus money_minus].
  split; [|split; [|split]]; try reflexivity.
  rewrite Hl, List.map_app. reflexivity.
Qed.

Lemma addTransaction_or_throw_eq (accepts : Browser) (now : Z) (st : State) :
  addTransaction_or_throw accepts now st
  = match fst (addTransaction now st) with
    | Alert message => (Returned (Alert message), st)
    | Added t =>
        if accepts (localStorage st) (lit "transactions") (snapshot_after_add now st)
        then (Returned (Added t), snd (addTransaction now st))
        else (Uncaught QuotaExceededError, pushed now st)
    end.
Proof.
  destruct (jsstring_eqb (trim (text_value (this st))) []) eqn:Ht.
  { unfold addTransaction_or_throw, addTransaction. now rewrite Ht. }
  destruct (jsstring_eqb (trim (amount_value (this st))) []) eqn:Ha.
  { unfold addTransaction_or_throw, addTransaction. now rewrite Ht, Ha. }
  destruct (isNaN (Math_abs (parseFloat (trim (amount_value (this st)))))) eqn:Hn.
  { unfold addTransaction_or_throw, addTransaction. now rewrite Ht, Ha, Hn. }
  destruct (addTransaction_path now st) as [[H|H] _ | _ _ H _ | _ _ _ E].
  - apply jsstring_eqb_nil in H. congruence.
  - apply jsstring_eqb_nil in H. congruence.
  - apply isNaN_abs in H. congruence.
  - rewrite E. cbn [fst snd].
    unfold addTransaction_or_throw. rewrite Ht, Ha, Hn. simpl orb. cbv iota.
    unfold updateLocalStorage_or_throw, setItem, snapshot_after_add, pushed,
      after_add, built, kind_of, chosen_category. simpl.
    assert (Hc :
      (if string_truthy
            match categorySelect (this st) with
            | Some sel => if string_truthy (select_value sel) then select_value sel else []
            | None => []
            end
       then match categorySelect (this st) with
            | Some sel => if string_truthy (select_value sel) then select_value sel else []
            | None => []
            end
       else lit "Uncategorized")
      = match match categorySelect (this st) with
              | Some sel => select_value sel
              | None => []
              end with
        | [] => lit "Uncategorized"
        | c => c
        end).
    { destruct (categorySelect (this st)) as [sel|]; [|reflexivity].
      destruct (select_value sel); reflexivity. }
    rewrite Hc. now destruct (accepts _ _ _).
Qed.

Lemma addTransaction_or_throw_cases (accepts : Browser) (now : Z) (st : State) :
  (exists message,
      fst (addTransaction now st) = Alert message
      /\ addTransaction_or_throw accepts now st = (Returned (Alert message), st))
  \/ (fst (addTransaction now st) = Added (built now st)
      /\ accepts (localStorage st) (lit "transactions") (snapshot_after_add now st) = true
      /\ addTransaction_or_throw accepts now st
         = (Returned (Added (built now st)), after_add now st))
  \/ (fst (addTransaction now st) = Added (built now st)
      /\ accepts (localStorage st) (lit "transactions") (snapshot_after_add now st) = false
      /\ addTransaction_or_throw accepts now st
         = (Uncaught QuotaExceededError, pushed now st)).
Proof.
  rewrite addTransaction_or_throw_eq.
  destruct (addTransaction_path now st) as [_ E | _ _ _ E | _ _ _ E]; rewrite E;
    cbn [fst snd].
  - left. now eexists.
  - left. now eexists.
  - right. destruct (accepts _ _ _); [left | right]; repeat split; reflexivity.
Qed.

Lemma removeTransaction_or_throw_eq (accepts : Browser) (id0 : Z) (st : State) :
  removeTransaction_or_throw accepts id0 st
  = if accepts (localStorage st) (lit "transactions")
         (JSON_stringify
            (VArr (List.map Transaction_value
                     (List.filter (fun t => negb (id t =? id0))
                        (transactions (this st))))))
    then (Returned tt, removeTransaction id0 st)
    else (Uncaught QuotaExceededError,
          {| this := with_transactions
                       (List.filter (fun t => negb (id t =? id0))
                          (transactions (this st)))
                       (this st);
             localStorage := localStorage st |}).
Proof.
  unfold removeTransaction_or_throw, removeTransaction, updateLocalStorage_or_throw,
    updateLocalStorage, setItem.
  cbn [this localStorage transactions with_transactions].
  now destruct (accepts _ _ _).
Qed.

(** X1. The page shows the ledger as long as the writes are accepted:
    after [init], after every removal that returns, and after every
    submission that returns on a page that showed the ledger, the history
    list holds one entry per transaction in sequence order and the three
    summaries are the formatted totals of the transactions in memory.
    When the write is refused, the exception leaves the method before
    anything is rendered: the array in memory has changed (the new
    transaction is in it, the removed ones are not) while the list and
    the summaries still show the earlier ledger. Editing the form does not
    change what is shown, and rendering twice is rendering once: [init]
    clears the list first, so no entry is shown twice. *)
Theorem view_follows_ledger :
  (forall tr, view_in_sync (init tr))
  /\ (forall accepts id0 st,
        (fst (removeTransaction_or_throw accepts id0 st) = Returned tt ->
         view_in_sync (this (snd (removeTransaction_or_throw accepts id0 st))))
        /\ (forall e,
              fst (removeTransaction_or_throw accepts id0 st) = Uncaught e ->
              transactions (this (snd (removeTransaction_or_throw accepts id0 st)))
              = List.filter (fun t => negb (id t =? id0)) (transactions (this st))
              /\ list_items (this (snd (removeTransaction_or_throw accepts id0 st)))
                 = list_items (this st)
              /\ balance (this (snd (removeTransaction_or_throw accepts id0 st)))
                 = balance (this st)))
  /\ (forall accepts now st,
        view_in_sync (this st) ->
        (forall outcome,
            fst (addTransaction_or_throw accepts now st) = Returned outcome ->
            view_in_sync (this (snd (addTransaction_or_throw accepts now st))))
        /\ (forall e,
              fst (addTransaction_or_throw accepts now st) = Uncaught e ->
              transactions (this (snd (addTransaction_or_throw accepts now st)))
              = transactions (this st) ++ [built now st]
              /\ list_items (this (snd (addTransaction_or_throw accepts now st)))
                 = List.map item_of (transactions (this st))
              /\ balance (this (snd (addTransaction_or_throw accepts now st)))
                 = lit "$" ++ toFixed2 (total (totals (transactions (this st))))))
  /\ (forall label rawAmount radios select st,
        view_in_sync (this st) ->
        view_in_sync (this (edit label rawAmount radios select st)))
  /\ (forall tr, init (init tr) = init tr).
Proof.
  split; [|split; [|split; [|split]]]; [| | | |apply init_init].
  - apply init_view_in_sync.
  - intros accepts id0 st. rewrite removeTransaction_or_throw_eq.
    destruct (accepts _ _ _); cbn [fst snd]; split.
    + intros _. unfold removeTransaction. cbn [this]. apply init_view_in_sync.
    + intros e He. discriminate.
    + intros He. discriminate.
    + intros e _. cbn [this]. now destruct (this st).
  - intros accepts now st H.
    destruct (addTransaction_or_throw_cases accepts now st)
      as [(message & _ & E) | [(_ & _ & E) | (_ & _ & E)]]; rewrite E; cbn [fst snd];
      split.
    + intros _ _. exact H.
    + intros e He. discriminate.
    + intros _ _. now apply after_add_view_in_sync.
    + intros e He. discriminate.
    + intros outcome He. discriminate.
    + intros e _. destruct H as (Hl & Hb & _). unfold pushed. cbn [this].
      split; [now destruct (this st)|].
      split; [rewrite <- Hl | rewrite <- Hb]; now destruct (this st).
  - intros label rawAmount radios select st H. exact H.
Qed.

Lemma view_follows_ledger_witness :
  view_in_sync
    (this (snd (addTransaction_or_throw roomy 7
                  (fill (lit "Tea") (lit "2.25") (lit "expense") None first_visit)))).
Proof.
  refine (proj1 (proj1 (proj2 (proj2 view_follows_ledger)) roomy 7 _ _)
            (Added (built 7 (fill (lit "Tea") (lit "2.25") (lit "expense") None
                               first_visit))) _).
  - apply (proj1 (proj2 (proj2 (proj2 view_follows_ledger)))).
    apply (proj1 view_follows_ledger).
  - vm_compute. reflexivity.
Defined.

Lemma updateLocalStorage_store_in_sync (st : State) :
  store_in_sync (updateLocalStorage st).
Proof.
  unfold store_in_sync, updateLocalStorage, getItem. cbn [localStorage this].
  apply lookup_insert_eq.
Qed.

(** X2. The snapshot follows the ledger as long as the writes are
    accepted: after a write, a removal (also one that removes nothing) or
    an accepted submission that returns, the entry [transactions] of the
    store is the JSON text of the transactions in memory; a rejected
    submission and an edit of the form do not touch a snapshot that was in
    step. When the write is refused the store is left as it was, so after
    a submission it no longer holds the new transaction that the array in
    memory has. *)
Theorem store_follows_ledger :
  (forall accepts st st',
      updateLocalStorage_or_throw accepts st = Returned st' -> store_in_sync st')
  /\ (forall accepts id0 st,
        (fst (removeTransaction_or_throw accepts id0 st) = Returned tt ->
         store_in_sync (snd (removeTransaction_or_throw accepts id0 st)))
        /\ (forall e,
              fst (removeTransaction_or_throw accepts id0 st) = Uncaught e ->
              localStorage (snd (removeTransaction_or_throw accepts id0 st))
              = localStorage st))
  /\ (forall accepts now st,
        (forall t,
            fst (addTransaction_or_throw accepts now st) = Returned (Added t) ->
            store_in_sync (snd (addTransaction_or_throw accepts now st)))
        /\ (forall message,
              fst (addTransaction_or_throw accepts now st) = Returned (Alert message) ->
              snd (addTransaction_or_throw accepts now st) = st)
        /\ (forall e,
              fst (addTransaction_or_throw accepts now st) = Uncaught e ->
              localStorage (snd (addTransaction_or_throw accepts now st))
              = localStorage st
              /\ transactions (this (snd (addTransaction_or_throw accepts now st)))
                 = transactions (this st) ++ [built now st]))
  /\ (forall label rawAmount radios select st,
        store_in_sync st -> store_in_sync (edit label rawAmount radios select st)).
Proof.
  assert (Hadd : forall now st, store_in_sync (after_add now st)).
  { intros now st. unfold store_in_sync, after_add, getItem. cbn [localStorage this].
    rewrite lookup_insert_eq. reflexivity. }
  split; [|split; [|split]].
  - intros accepts st st'. unfold updateLocalStorage_or_throw, setItem.
    destruct (accepts _ _ _); [|discriminate]. intros [= <-].
    apply updateLocalStorage_store_in_sync.
  - intros accepts id0 st. rewrite removeTransaction_or_throw_eq.
    destruct (accepts _ _ _); cbn [fst snd]; split.
    + intros _. unfold removeTransaction, store_in_sync, getItem.
      cbn [localStorage this]. rewrite init_transactions.
      unfold updateLocalStorage. cbn [localStorage this].
      rewrite lookup_insert_eq. reflexivity.
    + intros e He. discriminate.
    + intros He. discriminate.
    + intros e _. reflexivity.
  - intros accepts now st.
    destruct (addTransaction_or_throw_cases accepts now st)
      as [(message & _ & E) | [(_ & _ & E) | (_ & _ & E)]]; rewrite E; cbn [fst snd];
      (split; [|split]).
    + intros t He. discriminate.
    + intros m _. reflexivity.
    + intros e He. discriminate.
    + intros t _. apply Hadd.
    + intros m He. discriminate.
    + intros e He. discriminate.
    + intros t He. discriminate.
    + intros m He. discriminate.
    + intros e _. unfold pushed. cbn [this localStorage].
      split; [reflexivity | now destruct (this st)].
  - intros label rawAmount radios select st H. exact H.
Qed.

Lemma store_follows_ledger_witness :
  store_in_sync
    (snd (addTransaction_or_throw roomy 7
            (fill (lit "Tea") (lit "2.25") (lit "expense") None first_visit))).
Proof.
  apply (proj1 (proj1 (proj2 (proj2 store_follows_ledger)) roomy 7 _)
           (built 7 (fill (lit "Tea") (lit "2.25") (lit "expense") None first_visit))).
  vm_compute. reflexivity.
Defined.

(** X3. The class writes one key only: whatever the outcome, a
    submission, a removal and [updateLocalStorage] leave every entry of the
    store other than [transactions] as it was. In particular the entry
    [categories] is read by the constructor and never written. *)
Theorem only_transactions_key_written (key : list N) :
  key <> lit "transactions" ->
  (forall now st,
      getItem (localStorage (snd (addTransaction now st))) key
      = getItem (localStorage st) key)
  /\ (forall id0 st,
        getItem (localStorage (removeTransaction id0 st)) key
        = getItem (localStorage st) key)
  /\ (forall st,
        getItem (localStorage (updateLocalStorage st)) key
        = getItem (localStorage st) key).
Proof.
  intros Hkey. unfold getItem. split; [|split].
  - intros now st.
    destruct (addTransaction_path now st) as [_ E | _ _ _ E | _ _ _ E]; rewrite E;
      cbn [snd]; try reflexivity.
    unfold after_add. cbn [localStorage]. apply lookup_insert_ne. congruence.
  - intros id0 st. unfold removeTransaction, updateLocalStorage.
    cbn [localStorage this]. apply lookup_insert_ne. congruence.
  - intros st. unfold updateLocalStorage. cbn [localStorage].
    apply lookup_insert_ne. congruence.
Qed.

Lemma only_transactions_key_written_witness :
  getItem (localStorage (removeTransaction 7 same_millisecond_twice)) (lit "categories")
  = getItem (localStorage same_millisecond_twice) (lit "categories").
Proof.
  refine (proj1 (proj2 (only_transactions_key_written (lit "categories") _)) 7 _).
  vm_compute. discriminate.
Defined.

(* ===================================================================== *)
(** * The form: kind, category and resubmission                           *)
(* ===================================================================== *)

Lemma added_path (now : Z) (st : State) (t : Transaction) :
  fst (addTransaction now st) = Added t ->
  t = built now st /\ snd (addTransaction now st) = after_add now st.
Proof.
  intros Ht.
  destruct (addTransaction_path now st) as [_ E | _ _ _ E | _ _ _ E];
    rewrite E in Ht |- *; cbn [fst snd] in *; try discriminate.
  split; [congruence | reflexivity].
Qed.

Lemma unchecked_is_expense (inputs : list RadioInput) :
  Forall (fun i => checked i = false) inputs ->
  getSelectedTransactionType inputs = lit "expense".
Proof.
  induction 1 as [|i inputs Hi _ IH]; [reflexivity|].
  cbn [getSelectedTransactionType]. now rewrite Hi.
Qed.

(** X4. [getSelectedTransactionType] returns the value of the first
    checked radio button, whatever that value is, and ["expense"] when no
    button is checked (or there is none). So a submission made with
    nothing checked is recorded as an expense: its amount is the negated
    magnitude and never strictly positive. *)
Theorem getSelectedTransactionType_first_checked :
  (forall inputs,
      Forall (fun i => checked i = false) inputs ->
      getSelectedTransactionType inputs = lit "expense")
  /\ (forall pre i post,
        Forall (fun j => checked j = false) pre ->
        checked i = true ->
        getSelectedTransactionType (pre ++ i :: post) = radio_value i)
  /\ (forall now st t,
        Forall (fun i => checked i = false) (transactionTypeInputs (this st)) ->
        fst (addTransaction now st) = Added t ->
        amount t = neg (Math_abs (parseFloat (trim (amount_value (this st)))))
        /\ strictly_positive (amount t) = false).
Proof.
  split; [|split].
  - apply unchecked_is_expense.
  - intros pre i post Hpre Hi.
    induction Hpre as [|j pre Hj _ IH]; cbn [app getSelectedTransactionType].
    + now rewrite Hi.
    + now rewrite Hj.
  - intros now st t Hnone Ht.
    destruct (added_path now st t Ht) as [-> _].
    unfold built, kind_of. cbn [amount].
    rewrite (unchecked_is_expense _ Hnone).
    replace (jsstring_eqb (lit "expense") (lit "expense")) with true
      by (symmetry; apply bool_decide_eq_true; reflexivity).
    split; [reflexivity|].
    now destruct (parseFloat (trim (amount_value (this st)))) as [[|]|[|]| |[|] m e].
Qed.

Lemma getSelectedTransactionType_first_checked_witness :
  getSelectedTransactionType
    ([ {| checked := false; radio_value := lit "income" |} ]
     ++ {| checked := true; radio_value := lit "transfer" |}
     :: [ {| checked := true; radio_value := lit "expense" |} ])
  = lit "transfer".
Proof.
  apply (proj1 (proj2 getSelectedTransactionType_first_checked)
           [ {| checked := false; radio_value := lit "income" |} ]
           {| checked := true; radio_value := lit "transfer" |}).
  - repeat constructor.
  - reflexivity.
Defined.

(** X5. An accepted submission clears the two text fields, so submitting
    again without typing is rejected with the empty-input alert and
    changes nothing: one click cannot record a transaction twice. *)
Theorem resubmission_is_rejected (now now' : Z) (st : State) (t : Transaction) :
  fst (addTransaction now st) = Added t ->
  text_value (this (snd (addTransaction now st))) = []
  /\ amount_value (this (snd (addTransaction now st))) = []
  /\ addTransaction now' (snd (addTransaction now st))
     = (EmptyInput, snd (addTransaction now st)).
Proof.
  intros Ht. destruct (added_path now st t Ht) as [_ ->].
  split; [reflexivity|]. split; [reflexivity|].
  destruct (addTransaction_path now' (after_add now st)) as [_ E | H _ _ _ | H _ _ _].
  - exact E.
  - exfalso. apply H. reflexivity.
  - exfalso. apply H. reflexivity.
Qed.

Lemma resubmission_is_rejected_witness :
  addTransaction 8
    (snd (addTransaction 7
            (fill (lit "Tea") (lit "2.25") (lit "expense") None first_visit)))
  = (EmptyInput,
     snd (addTransaction 7
            (fill (lit "Tea") (lit "2.25") (lit "expense") None first_visit))).
Proof.
  refine (proj2 (proj2 (resubmission_is_rejected 7 8 _
           (built 7 (fill (lit "Tea") (lit "2.25") (lit "expense") None first_visit))
           _))).
  vm_compute. reflexivity.
Defined.




(** *** The drop-down *)

Lemma populateCategoryDropdown_twice (tr : ExpenseTracker) :
  populateCategoryDropdown (populateCategoryDropdown tr)
  = populateCategoryDropdown tr.
Proof.
  destruct tr as [b p m l tv av radios sel ts cs].
  unfold populateCategoryDropdown; destruct sel as [sel|]; reflexivity.
Qed.

Lemma option_values_init (tr : ExpenseTracker) :
  categorySelect tr <> None -> option_values (init tr) = [] :: categories tr.
Proof.
  intros Hsel. unfold option_values, init. rewrite render_all.
  destruct tr as [b p m l tv av radios sel ts cs].
  unfold populateCategoryDropdown; destruct sel as [sel|]; [|now destruct Hsel].
  cbn. now rewrite List.map_map, List.map_id.
Qed.

(** X7. [populateCategoryDropdown] does nothing on a page without the
    drop-down; otherwise it replaces the options by the option of empty
    value labelled ["Uncategorized"] followed by one option per category,
    in order, each with the category as value and as label, and the
    selection is on the first. Doing it twice is doing it once. When the
    user picks one of these options, an accepted submission is filed under
    ["Uncategorized"] or under one of the categories. *)
Theorem populateCategoryDropdown_options :
  (forall tr, categorySelect tr = None -> populateCategoryDropdown tr = tr)
  /\ (forall tr,
        categorySelect tr <> None ->
        exists sel,
          categorySelect (populateCategoryDropdown tr) = Some sel
          /\ List.map fst (options sel) = [] :: categories tr
          /\ List.map snd (options sel) = lit "Uncategorized" :: categories tr
          /\ select_value sel = [])
  /\ (forall tr,
        populateCategoryDropdown (populateCategoryDropdown tr)
        = populateCategoryDropdown tr)
  /\ (forall now c st t,
        option_values (this st) = [] :: categories (this st) ->
        In c (option_values (this st)) ->
        fst (addTransaction now (pick c st)) = Added t ->
        category t = lit "Uncategorized" \/ In (category t) (categories (this st))).
Proof.
  split; [|split; [|split]].
  - intros tr H. unfold populateCategoryDropdown. now rewrite H.
  - intros tr H. unfold populateCategoryDropdown.
    destruct (categorySelect tr) as [sel|] eqn:E; [|now destruct H].
    eexists. split; [reflexivity|]. cbn [options select_value List.map fst snd].
    rewrite !List.map_map. cbn [fst snd]. rewrite List.map_id.
    repeat split; reflexivity.
  - apply populateCategoryDropdown_twice.
  - intros now c st t Hpop Hc Ht.
    destruct (added_path _ _ _ Ht) as [-> _].
    destruct (built_category now (pick c st)) as (_ & Hnone & Hsome).
    assert (Hchosen : chosen_category (pick c st) = c).
    { unfold chosen_category, pick, edit. cbn [this categorySelect].
      unfold option_values in Hc.
      destruct (categorySelect (this st)) as [sel|]; [reflexivity|now destruct Hc]. }
    rewrite Hchosen in Hnone, Hsome.
    destruct c as [|u c'].
    + left. now apply Hnone.
    + right. rewrite Hsome by discriminate.
      rewrite Hpop in Hc. destruct Hc as [Hc|Hc]; [discriminate|exact Hc].
Qed.

Lemma populateCategoryDropdown_options_witness :
  option_values
    (populateCategoryDropdown
       {| balance := []; money_plus := []; money_minus := []; list_items := [];
          text_value := []; amount_value := []; transactionTypeInputs := [];
          categorySelect := Some {| options := []; select_value := lit "Old" |};
          transactions := []; categories := [lit "Food"; lit "Travel"] |})
  = [ []; lit "Food"; lit "Travel" ].
Proof.
  destruct (proj1 (proj2 populateCategoryDropdown_options)
              {| balance := []; money_plus := []; money_minus := []; list_items := [];
                 text_value := []; amount_value := []; transactionTypeInputs := [];
                 categorySelect := Some {| options := []; select_value := lit "Old" |};
                 transactions := []; categories := [lit "Food"; lit "Travel"] |}
              ltac:(discriminate))
    as (sel & Hsel & Hvalues & _).
  unfold option_values. rewrite Hsel. exact Hvalues.
Defined.

(** *** Submissions and removals together *)

Lemma filter_app_last {A} (f : A -> bool) (l : list A) (x : A) :
  List.filter f (l ++ [x]) = List.filter f l ++ (if f x then [x] else []).
Proof. rewrite List.filter_app. reflexivity. Qed.






Lemma reduce_add_last (amounts : list number) (x : number) :
  reduce_add (amounts ++ [x]) = add (reduce_add amounts) x.
Proof. unfold reduce_add. now rewrite fold_left_app. Qed.

(** X10. An accepted submission moves the balance by its amount, in the
    arithmetic of Numbers: the new total is the old total plus the amount,
    the income total grows by the amount when that is strictly positive,
    the expense total when it is strictly negative, and the three texts
    shown are these sums formatted with two decimals. *)
Theorem totals_after_add (now : Z) (st : State) (t : Transaction) :
  fst (addTransaction now st) = Added t ->
  let old := totals (transactions (this st)) in
  let new := totals (transactions (this (snd (addTransaction now st)))) in
  total new = add (total old) (amount t)
  /\ income new
     = (if strictly_positive (amount t) then add (income old) (amount t)
        else income old)
  /\ expense new
     = (if strictly_negative (amount t) then add (expense old) (amount t)
        else expense old)
  /\ balance (this (snd (addTransaction now st))) = lit "$" ++ toFixed2 (total new)
  /\ money_plus (this (snd (addTransaction now st)))
     = lit "+$" ++ toFixed2 (income new)
  /\ money_minus (this (snd (addTransaction now st)))
     = lit "-$" ++ toFixed2 (Math_abs (expense new)).
Proof.
  intros Ht old new. destruct (added_path _ _ _ Ht) as [-> E].
  subst old new. rewrite E.
  unfold after_add. cbn [this].
  unfold with_inputs, updateValues, with_summary, addTransactionDOM,
    with_list_items, with_transactions.
  cbn [transactions balance money_plus money_minus].
  unfold totals. cbn [total income expense].
  rewrite !List.map_app. cbn [List.map].
  rewrite !filter_app_last, gt_zero, lt_zero, reduce_add_last.
  split; [reflexivity|]. split.
  { destruct (strictly_positive _); [apply reduce_add_last | now rewrite app_nil_r]. }
  split.
  { destruct (strictly_negative _); [apply reduce_add_last | now rewrite app_nil_r]. }
  repeat split; reflexivity.
Qed.

Lemma totals_after_add_witness :
  total (totals (transactions
                   (this (snd (addTransaction 9
                                 (fill (lit "c") (lit "3") (lit "income") None
                                    first_visit))))))
  = add (total (totals (transactions (this first_visit))))
        (amount (built 9 (fill (lit "c") (lit "3") (lit "income") None first_visit))).
Proof.
  refine (proj1 (totals_after_add 9
                   (fill (lit "c") (lit "3") (lit "income") None first_visit)
                   (built 9 (fill (lit "c") (lit "3") (lit "income") None first_visit))
                   _)).
  vm_compute. reflexivity.
Defined.

(** X11. The class never changes the categories: a submission, a removal
    and a re-rendering leave the array in memory as it was, and since the
    entry [categories] of the store is never written either, categories
    that were the stored ones stay the stored ones. *)
Theorem categories_stay (st : State) :
  (forall now, categories (this (snd (addTransaction now st))) = categories (this st))
  /\ (forall id0, categories (this (removeTransaction id0 st)) = categories (this st))
  /\ categories (init (this st)) = categories (this st)
  /\ (categories_in_sync st ->
      (forall now, categories_in_sync (snd (addTransaction now st)))
      /\ (forall id0, categories_in_sync (removeTransaction id0 st))).
Proof.
  split; [|split; [|split]].
  - intros now.
    destruct (addTransaction_path now st) as [_ E | _ _ _ E | _ _ _ E]; rewrite E;
      reflexivity.
  - intros id0. unfold removeTransaction, updateLocalStorage. cbn [this].
    now rewrite init_categories.
  - apply init_categories.
  - intros Hsync. destruct (categories_in_sync_kept st Hsync) as (Ha & Hr & _).
    split; assumption.
Qed.

Lemma categories_stay_witness :
  categories_in_sync (removeTransaction 7 same_millisecond_twice).
Proof.
  apply (proj2 (proj2 (proj2 (categories_stay same_millisecond_twice)))).
  vm_compute. reflexivity.
Defined.

(* ===================================================================== *)
(** * What a stored transaction looks like                                *)
(* ===================================================================== *)

(** *** Trimming *)

Lemma trim_start_head (s : list N) :
  match trim_start s with
  | c :: _ => is_white_space c = false
  | [] => True
  end.
Proof.
  induction s as [|c s IH]; cbn [trim_start]; [exact I|].
  destruct (is_white_space c) eqn:Hc; [exact IH | exact Hc].
Qed.

Lemma trim_start_fixed (c : N) (s : list N) :
  is_white_space c = false -> trim_start (c :: s) = c :: s.
Proof. intros Hc. cbn [trim_start]. now rewrite Hc. Qed.

Lemma trim_start_app (l r : list N) :
  trim_start l <> [] -> trim_start (l ++ r) = trim_start l ++ r.
Proof.
  induction l as [|c l IH]; cbn [trim_start app]; [congruence|].
  destruct (is_white_space c); [exact IH | reflexivity].
Qed.

Lemma trim_start_last (l : list N) (c : N) :
  is_white_space c = false ->
  exists l', trim_start (l ++ [c]) = l' ++ [c].
Proof.
  intros Hc. induction l as [|d l IH]; cbn [trim_start app].
  - rewrite Hc. now exists [].
  - destruct (is_white_space d); [exact IH|]. now exists (d :: l).
Qed.

Lemma trim_end_head (c : N) (s : list N) :
  is_white_space c = false -> exists s', trim_end (c :: s) = c :: s'.
Proof.
  intros Hc. unfold trim_end. cbn [rev].
  destruct (trim_start_last (rev s) c Hc) as [l' ->].
  rewrite rev_app_distr. cbn [rev app]. now exists (rev l').
Qed.

Lemma trim_start_twice (s : list N) : trim_start (trim_start s) = trim_start s.
Proof.
  pose proof (trim_start_head s) as H.
  destruct (trim_start s) as [|c r]; [reflexivity|]. now apply trim_start_fixed.
Qed.

Lemma trim_end_twice (s : list N) : trim_end (trim_end s) = trim_end s.
Proof. unfold trim_end. now rewrite rev_involutive, trim_start_twice. Qed.

Lemma trim_twice (s : list N) : trim (trim s) = trim s.
Proof.
  unfold trim. pose proof (trim_start_head s) as H.
  destruct (trim_start s) as [|c r].
  - reflexivity.
  - destruct (trim_end_head c r H) as [s' E]. rewrite E at 1.
    rewrite trim_start_fixed by exact H. rewrite <- E. apply trim_end_twice.
Qed.

Lemma trim_signed (c : N) (u : list N) :
  is_white_space c = false ->
  match u with d :: _ => is_white_space d = false | [] => False end ->
  trim (c :: u) = c :: trim u.
Proof.
  intros Hc Hu. destruct u as [|d u']; [contradiction|].
  unfold trim. rewrite !trim_start_fixed by assumption.
  unfold trim_end. cbn [rev].
  destruct (trim_start_last (rev u') d Hu) as [l' E].
  rewrite trim_start_app by (rewrite E; now destruct l').
  rewrite rev_app_distr. reflexivity.
Qed.

Lemma Forall_filter_kept {A} (P : A -> Prop) (f : A -> bool) (l : list A) :
  Forall P l -> Forall P (List.filter f l).
Proof.
  rewrite !List.Forall_forall. intros H x Hx. apply H.
  now apply List.filter_In in Hx.
Qed.

(** X12. In every state the page reaches from an empty ledger, each
    transaction has a label that is not empty and carries no white space
    at either end (trimming it again changes nothing), and an amount that
    is a binary64 value other than NaN. *)
Theorem stored_transactions_wellformed (st : State) :
  reachable st ->
  Forall (fun t => text t <> []
                   /\ trim (text t) = text t
                   /\ isNaN (amount t) = false
                   /\ number_valid (amount t) = true)
         (transactions (this st)).
Proof.
  induction 1 as [st H0 | label rawAmount radios select st _ IH
                  | now st _ IH | id0 st _ IH].
  - rewrite H0. constructor.
  - exact IH.
  - destruct (addTransaction_path now st) as [_ E | _ _ _ E | Ht _ Hn E]; rewrite E;
      cbn [snd]; try exact IH.
    unfold after_add. cbn [this].
    unfold with_inputs, updateValues, with_summary, addTransactionDOM,
      with_list_items, with_transactions. cbn [transactions].
    apply Forall_app. split; [exact IH|]. constructor; [|constructor].
    cbn [built text]. split; [exact Ht|]. split; [apply trim_twice|]. split.
    + unfold built. cbn [amount].
      destruct (parseFloat (trim (amount_value (this st)))) as [[|]|[|]| |[|] m e];
        try (now destruct Hn);
        now destruct (jsstring_eqb (kind_of st) (lit "expense")).
    + apply built_amount_valid.
  - rewrite removeTransaction_transactions. now apply Forall_filter_kept.
Qed.

Lemma stored_transactions_wellformed_witness :
  Forall (fun t => text t <> []
                   /\ trim (text t) = text t
                   /\ isNaN (amount t) = false
                   /\ number_valid (amount t) = true)
         (transactions (this same_millisecond_twice)).
Proof.
  apply (stored_transactions_wellformed same_millisecond_twice).
  apply same_millisecond_twice_reachable.
Defined.

(** *** The sign typed in the amount field *)

Lemma binary_round_aux_abs (sign : bool) (mx ex : Z) (lx : location) :
  SFabs (binary_round_aux prec emax sign mx ex lx)
  = SFabs (binary_round_aux prec emax false mx ex lx).
Proof.
  unfold binary_round_aux.
  destruct (shr_fexp prec emax mx ex lx) as [mrs' e'].
  destruct (shr_fexp prec emax _ e' loc_Exact) as [mrs'' e''].
  destruct (shr_m mrs''); [reflexivity| |reflexivity].
  now destruct (e'' <=? emax - prec).
Qed.

Lemma of_decimal_abs (sign : bool) (d e : Z) :
  Math_abs (of_decimal sign d e) = Math_abs (of_decimal false d e).
Proof.
  unfold of_decimal, round_Q.
  destruct (Qnum (Qred (decimal_Q d e))); try reflexivity.
  unfold round_ratio, SFdiv, Math_abs.
  destruct (SFdiv_core_binary prec emax _ 0 _ 0) as [[mz ez] lz].
  rewrite xorb_false_r. apply binary_round_aux_abs.
Qed.

Lemma parseFloat_unsigned (u : list N) :
  starts_unsigned u ->
  parseFloat u
  = match scan_unsigned_literal u with
    | None => NaN
    | Some LInfinity => S754_infinity false
    | Some (LDecimal d e) => of_decimal false d e
    end.
Proof.
  destruct u as [|c u']; [contradiction|]. intros (Hws & Hp & Hm).
  unfold parseFloat. rewrite trim_start_fixed by exact Hws.
  unfold eat_sign. rewrite !eat_miss by assumption. reflexivity.
Qed.

Lemma parseFloat_signed (c : N) (u : list N) :
  c = 43%N \/ c = 45%N ->
  Math_abs (parseFloat (c :: u))
  = Math_abs match scan_unsigned_literal u with
             | None => NaN
             | Some LInfinity => S754_infinity false
             | Some (LDecimal d e) => of_decimal false d e
             end.
Proof.
  intros [-> | ->]; unfold parseFloat;
    (rewrite trim_start_fixed by reflexivity); unfold eat_sign.
  - rewrite eat_hit. reflexivity.
  - rewrite eat_miss by discriminate. rewrite eat_hit.
    destruct (scan_unsigned_literal u) as [[|d e]|]; try reflexivity.
    apply of_decimal_abs.
Qed.

(** X13. A sign typed in front of the amount does not matter: the amount
    field holding [-20] or [+20] is accepted or rejected exactly as the
    field holding [20], and when accepted builds the same transaction,
    whose sign comes from the selected kind alone. *)
Theorem typed_sign_is_ignored (now : Z) (c : N) (label u : list N)
    (radios : list RadioInput) (select : option Select) (st : State) :
  c = 43%N \/ c = 45%N ->
  starts_unsigned u ->
  fst (addTransaction now (edit label (c :: u) radios select st))
  = fst (addTransaction now (edit label u radios select st)).
Proof.
  intros Hc Hu.
  assert (Hcws : is_white_space c = false) by (destruct Hc as [-> | ->]; reflexivity).
  assert (Htrim : trim (c :: u) = c :: trim u).
  { apply trim_signed; [exact Hcws|]. destruct u; [contradiction|]. apply Hu. }
  assert (Hu' : starts_unsigned (trim u)).
  { destruct u as [|d u']; [contradiction|]. destruct Hu as (Hws & Hrest).
    unfold trim. rewrite trim_start_fixed by exact Hws.
    destruct (trim_end_head d u' Hws) as [s' ->]. now split. }
  assert (Habs : Math_abs (parseFloat (c :: trim u)) = Math_abs (parseFloat (trim u))).
  { rewrite parseFloat_signed by exact Hc. now rewrite <- parseFloat_unsigned. }
  unfold addTransaction, edit.
  cbn [this text_value amount_value transactionTypeInputs categorySelect].
  rewrite Htrim, Habs.
  replace (jsstring_eqb (c :: trim u) []) with false
    by (symmetry; apply bool_decide_eq_false; discriminate).
  replace (jsstring_eqb (trim u) []) with false
    by (symmetry; apply bool_decide_eq_false; destruct (trim u);
        [contradiction | discriminate]).
  destruct (jsstring_eqb (trim label) []); cbn [orb fst]; [reflexivity|].
  destruct (isNaN (Math_abs (parseFloat (trim u)))); reflexivity.
Qed.

Lemma typed_sign_is_ignored_witness :
  fst (addTransaction 7 (fill (lit "Pay") (lit "-20") (lit "income") None first_visit))
  = fst (addTransaction 7 (fill (lit "Pay") (lit "20") (lit "income") None first_visit)).
Proof.
  apply (typed_sign_is_ignored 7 45%N (lit "Pay") (lit "20")).
  - right. reflexivity.
  - vm_compute. repeat split; discriminate.
Defined.

(* ===================================================================== *)
(** * What the page shows                                                 *)
(* ===================================================================== *)

(** *** Two decimals *)

Lemma exact_ratio_pos (m : positive) (e : Z) :
  0 < fst (exact_ratio m e) /\ 0 < snd (exact_ratio m e).
Proof.
  unfold exact_ratio. destruct (0 <=? e) eqn:He; cbn [fst snd].
  - apply Z.leb_le in He. split; [|lia].
    apply Z.mul_pos_pos; [lia|]. apply Z.pow_pos_nonneg; lia.
  - apply Z.leb_gt in He. split; [lia|]. apply Z.pow_pos_nonneg; lia.
Qed.

Lemma digits_of_nonempty (n : Z) : 0 <= n -> (1 <= length (digits_of n))%nat.
Proof.
  intros Hn. destruct (Z.eq_dec n 0) as [-> | Hne].
  - rewrite digits_of_small by lia. cbn [length]. lia.
  - destruct (digits_of_head n ltac:(lia)) as (d & l & E & _).
    rewrite E. cbn [length]. lia.
Qed.

Lemma zeros_cons (k : Z) : 0 < k -> zeros k = 48%N :: zeros (k - 1).
Proof.
  intros Hk. unfold zeros.
  replace (Z.to_nat k) with (S (Z.to_nat (k - 1))) by lia. reflexivity.
Qed.

Lemma zeros_none (k : Z) : k <= 0 -> zeros k = [].
Proof.
  intros Hk. unfold zeros. replace (Z.to_nat k) with O by lia. reflexivity.
Qed.

Lemma toFixed2_finite (s : bool) (m : positive) (e : Z) :
  fst (exact_ratio m e) < 10 ^ 21 * snd (exact_ratio m e) ->
  exists ip fp,
    toFixed2 (S754_finite s m e)
    = (if s then lit "-" else []) ++ ip ++ lit "." ++ fp
    /\ integer_text ip
    /\ length fp = 2%nat
    /\ Forall (fun c => is_digit c = true) fp
    /\ nearest_hundredths (fst (exact_ratio m e)) (snd (exact_ratio m e))
         (digits_value (ip ++ fp)).
Proof.
  intros Hlt. destruct (exact_ratio_pos m e) as [Hp Hq].
  unfold toFixed2. destruct (exact_ratio m e) as [p q]. cbn [fst snd] in *.
  replace (10 ^ 21 * q <=? p) with false by (symmetry; apply Z.leb_gt; lia).
  set (n := (200 * p + q) / (2 * q)).
  assert (Hn : 0 <= n) by (apply Z.div_pos; lia).
  set (ds := digits_of n).
  assert (Hlen : (1 <= length ds)%nat) by (apply digits_of_nonempty; exact Hn).
  assert (Hds : Forall (fun c => is_digit c = true) ds)
    by (apply digits_of_digits; exact Hn).
  set (pad := zeros (3 - Z.of_nat (length ds)) ++ ds).
  assert (Hpadlen : (3 <= length pad)%nat).
  { unfold pad. rewrite length_app.
    pose proof (zeros_length (3 - Z.of_nat (length ds))). lia. }
  assert (Hpad : Forall (fun c => is_digit c = true) pad).
  { unfold pad. apply Forall_app. split; [apply zeros_digits | exact Hds]. }
  assert (Hval : digits_value pad = n).
  { unfold pad. rewrite digits_value_app, digits_value_zeros.
    unfold ds. rewrite digits_of_value by exact Hn. lia. }
  exists (take (length pad - 2) pad), (drop (length pad - 2) pad).
  split; [reflexivity|].
  pose proof (take_drop (length pad - 2) pad) as Htd.
  assert (Hip : Forall (fun c => is_digit c = true) (take (length pad - 2) pad)
                /\ Forall (fun c => is_digit c = true) (drop (length pad - 2) pad)).
  { apply Forall_app. now rewrite Htd. }
  split; [split; [apply Hip|] |].
  - destruct (Z.le_gt_cases 3 (Z.of_nat (length ds))) as [Hbig | Hsmall].
    + right. assert (Hnpos : 0 < n).
      { destruct (Z.eq_dec n 0) as [E0 | Hne]; [|lia].
        unfold ds in Hbig. rewrite E0, digits_of_small in Hbig by lia.
        cbn [length] in Hbig. lia. }
      destruct (digits_of_head n Hnpos) as (d & l & E & Hd).
      assert (Epad : pad = d :: l).
      { unfold pad. rewrite zeros_none by lia. exact E. }
      rewrite Epad. cbn [length].
      replace (S (length l) - 2)%nat with (S (length l - 2))
        by (rewrite Epad in Hpadlen; cbn [length] in Hpadlen; lia).
      exists d, (take (length l - 2) l). split; [reflexivity | exact Hd].
    + left. assert (Epad : exists a b, pad = [48%N; a; b]).
      { unfold pad. destruct ds as [|a [|b [|c ds']]]; cbn [length] in *; try lia.
        - exists 48%N, a. reflexivity.
        - exists a, b. reflexivity. }
      destruct Epad as (a & b & ->). reflexivity.
  - split; [rewrite length_drop; lia|]. split; [apply Hip|].
    rewrite Htd, Hval. unfold nearest_hundredths, n. split.
    + apply Z.mul_div_le. lia.
    + pose proof (Z.mul_succ_div_gt (200 * p + q) (2 * q) ltac:(lia)). lia.
Qed.

Lemma lt_zero_finite (s : bool) (m : positive) (e : Z) :
  lt (S754_finite s m e) zero = s.
Proof. now destruct s. Qed.

(** X14. The entry that [addTransactionDOM] appends for a transaction
    whose amount is finite, not zero and below [10^21] in magnitude: it
    goes after the entries already shown, its class is [minus] for a
    negative amount and [plus] otherwise, and its amount text is one sign,
    the dollar sign, an integer part without superfluous zero, a dot and
    exactly two digits, this decimal being the one nearest to the exact
    magnitude (never a second minus sign). An amount that is zero, of
    either sign, is shown as [+$0.00] in class [plus], and an infinite
    amount, which the form accepts, as [+$Infinity] or [-$Infinity]. *)
Theorem history_entry_shape (t : Transaction) (tr : ExpenseTracker) :
  (forall s m e,
      amount t = S754_finite s m e ->
      fst (exact_ratio m e) < 10 ^ 21 * snd (exact_ratio m e) ->
      exists ip fp,
        list_items (addTransactionDOM t tr)
        = list_items tr
          ++ [ {| className := if s then lit "minus" else lit "plus";
                  dataset_id := id t;
                  textSpan := text t;
                  categorySpan := category t;
                  amountSpan := (if s then lit "-" else lit "+")
                                ++ lit "$" ++ ip ++ lit "." ++ fp |} ]
        /\ integer_text ip
        /\ length fp = 2%nat
        /\ Forall (fun c => is_digit c = true) fp
        /\ nearest_hundredths (fst (exact_ratio m e)) (snd (exact_ratio m e))
             (digits_value (ip ++ fp)))
  /\ (forall s,
        amount t = S754_zero s ->
        list_items (addTransactionDOM t tr)
        = list_items tr
          ++ [ {| className := lit "plus";
                  dataset_id := id t;
                  textSpan := text t;
                  categorySpan := category t;
                  amountSpan := lit "+$0.00" |} ])
  /\ (forall s,
        amount t = S754_infinity s ->
        list_items (addTransactionDOM t tr)
        = list_items tr
          ++ [ {| className := if s then lit "minus" else lit "plus";
                  dataset_id := id t;
                  textSpan := text t;
                  categorySpan := category t;
                  amountSpan := (if s then lit "-" else lit "+")
                                ++ lit "$Infinity" |} ]).
Proof.
  split; [|split].
  - intros s m e Ha Hlt.
    destruct (toFixed2_finite false m e Hlt) as (ip & fp & E & Hrest).
    exists ip, fp. split; [|exact Hrest].
    unfold addTransactionDOM, with_list_items. cbn [list_items].
    rewrite Ha, lt_zero_finite. cbn [Math_abs SFabs].
    rewrite E. reflexivity.
  - intros s Ha. unfold addTransactionDOM, with_list_items. cbn [list_items].
    rewrite Ha. now destruct s.
  - intros s Ha. unfold addTransactionDOM, with_list_items. cbn [list_items].
    rewrite Ha. now destruct s.
Qed.

Lemma history_entry_shape_witness :
  exists ip fp,
    list_items
      (addTransactionDOM
         {| id := 7; text := lit "Tea"; amount := of_decimal true 225 (-2);
            category := lit "Food" |}
         (this first_visit))
    = list_items (this first_visit)
      ++ [ {| className := lit "minus"; dataset_id := 7; textSpan := lit "Tea";
              categorySpan := lit "Food";
              amountSpan := lit "-" ++ lit "$" ++ ip ++ lit "." ++ fp |} ]
    /\ length fp = 2%nat.
Proof.
  destruct (proj1 (history_entry_shape
                     {| id := 7; text := lit "Tea"; amount := of_decimal true 225 (-2);
                        category := lit "Food" |}
                     (this first_visit))
              true 5066549580791808%positive (-51)
              ltac:(vm_compute; reflexivity) ltac:(vm_compute; reflexivity))
    as (ip & fp & E & _ & Hfp & _).
  exists ip, fp. split; [exact E | exact Hfp].
Defined.

(** X15. How an accepted submission is listed: the entry appended to the
    history list is the one of the new transaction, with its label and
    category, in class [minus] exactly when the selected kind is
    ["expense"] and the amount is not zero, and in class [plus] otherwise.
    So an expense of amount zero is listed as [+$0.00]. *)
Theorem listed_sign_follows_kind (now : Z) (st : State) (t : Transaction) :
  fst (addTransaction now st) = Added t ->
  list_items (this (snd (addTransaction now st)))
  = list_items (this st) ++ [item_of t]
  /\ dataset_id (item_of t) = now
  /\ textSpan (item_of t) = trim (text_value (this st))
  /\ className (item_of t)
     = (if jsstring_eqb (kind_of st) (lit "expense") && negb (is_zero (amount t))
        then lit "minus" else lit "plus")
  /\ (is_zero (amount t) = true -> amountSpan (item_of t) = lit "+$0.00").
Proof.
  intros Ht. destruct (added_path _ _ _ Ht) as [-> E]. rewrite E.
  split; [reflexivity|]. split; [reflexivity|]. split; [reflexivity|].
  destruct (addTransaction_path now st) as [_ E' | _ _ _ E' | _ _ Hn _];
    [rewrite E' in Ht; discriminate | rewrite E' in Ht; discriminate |].
  unfold item_of, built. cbn [amount className amountSpan].
  destruct (parseFloat (trim (amount_value (this st)))) as [[|]|[|]| |[|] m e];
    try (now destruct Hn);
    destruct (jsstring_eqb (kind_of st) (lit "expense")); cbn; split;
    try reflexivity; try discriminate.
Qed.

Lemma listed_sign_follows_kind_witness :
  className
    (item_of (built 7 (fill (lit "Gift") (lit "0") (lit "expense") None first_visit)))
  = lit "plus".
Proof.
  refine (proj1 (proj2 (proj2 (proj2 (listed_sign_follows_kind 7
            (fill (lit "Gift") (lit "0") (lit "expense") None first_visit)
            (built 7 (fill (lit "Gift") (lit "0") (lit "expense") None first_visit))
            _))))).
  vm_compute. reflexivity.
Defined.

(** *** The summaries *)

Lemma binary_round_aux_shape (sx : bool) (mx ex : Z) (lx : location) :
  0 <= mx ->
  binary_round_aux prec emax sx mx ex lx = S754_zero sx
  \/ (exists m e, binary_round_aux prec emax sx mx ex lx = S754_finite sx m e)
  \/ binary_round_aux prec emax sx mx ex lx = S754_infinity sx.
Proof.
  intros Hmx. pose proof (binary_round_aux_not_nan sx mx ex lx Hmx) as Hnan.
  unfold binary_round_aux in *.
  destruct (shr_fexp prec emax mx ex lx) as [mrs' e'].
  destruct (shr_fexp prec emax _ e' loc_Exact) as [mrs'' e''].
  destruct (shr_m mrs'') as [|m|m].
  - now left.
  - right. destruct (e'' <=? emax - prec); [left; eauto | now right].
  - now destruct Hnan.
Qed.

Lemma binary_round_shape (sx : bool) (m : positive) (e : Z) :
  binary_round prec emax sx m e = S754_zero sx
  \/ (exists m' e', binary_round prec emax sx m e = S754_finite sx m' e')
  \/ binary_round prec emax sx m e = S754_infinity sx.
Proof.
  unfold binary_round. destruct (shl_align m e _) as [mz ez].
  apply binary_round_aux_shape. lia.
Qed.

Lemma add_positive (acc x : number) :
  acc = S754_zero false \/ strictly_positive acc = true ->
  strictly_positive x = true ->
  add acc x = S754_zero false \/ strictly_positive (add acc x) = true.
Proof.
  intros Hacc Hx. unfold add.
  destruct x as [sx|[|]| |[|] mx ex]; try discriminate;
    destruct acc as [[|]|[|]| |[|] ma ea];
    try (destruct Hacc as [Hacc|Hacc]; discriminate);
    try (right; reflexivity).
  cbn [SFadd cond_Zopp]. unfold binary_normalize.
  destruct (shl_align ma ea _) as [a ea'], (shl_align mx ex _) as [b ex'].
  cbn [fst].
  destruct (Z.pos a + Z.pos b) as [|m|m] eqn:Es; [lia| |lia].
  match goal with
  | |- context [binary_round prec emax ?s m ?e] =>
      destruct (binary_round_shape s m e) as [E | [(m' & e' & E) | E]]
  end; rewrite E; [now left | now right | now right].
Qed.

Lemma add_negative (acc x : number) :
  (exists s, acc = S754_zero s) \/ strictly_negative acc = true ->
  strictly_negative x = true ->
  (exists s, add acc x = S754_zero s) \/ strictly_negative (add acc x) = true.
Proof.
  intros Hacc Hx. unfold add.
  destruct x as [sx|[|]| |[|] mx ex]; try discriminate;
    destruct acc as [[|]|[|]| |[|] ma ea];
    try (destruct Hacc as [[s Hacc]|Hacc]; discriminate);
    try (right; reflexivity).
  cbn [SFadd cond_Zopp]. unfold binary_normalize.
  destruct (shl_align ma ea _) as [a ea'], (shl_align mx ex _) as [b ex'].
  cbn [fst].
  destruct (- Z.pos a + - Z.pos b) as [|m|m] eqn:Es; [lia|lia|].
  match goal with
  | |- context [binary_round prec emax ?s m ?e] =>
      destruct (binary_round_shape s m e) as [E | [(m' & e' & E) | E]]
  end; rewrite E; [left; eauto | now right | now right].
Qed.

Lemma add_finite_not_NaN (acc x : number) :
  isNaN acc = false -> is_finite x = true -> isNaN (add acc x) = false.
Proof.
  intros Hacc Hx. unfold add.
  destruct x as [sx|[|]| |sx mx ex]; try discriminate;
    destruct acc as [sa|sa| |sa ma ea]; try discriminate; try reflexivity.
  - now destruct sa, sx.
  - cbn [SFadd]. unfold binary_normalize.
    destruct (cond_Zopp sa _ + cond_Zopp sx _) as [|m|m]; [reflexivity| |].
    + match goal with
      | |- context [binary_round prec emax ?s ?m ?e] =>
          destruct (binary_round_shape s m e) as [E | [(m' & e' & E) | E]]
      end; now rewrite E.
    + match goal with
      | |- context [binary_round prec emax ?s ?m ?e] =>
          destruct (binary_round_shape s m e) as [E | [(m' & e' & E) | E]]
      end; now rewrite E.
Qed.

Lemma reduce_add_invariant (P : number -> Prop) (Q : number -> Prop)
    (amounts : list number) :
  P zero ->
  (forall acc x, P acc -> Q x -> P (add acc x)) ->
  Forall Q amounts -> P (reduce_add amounts).
Proof.
  intros H0 Hstep Hall. unfold reduce_add.
  generalize dependent zero. induction Hall as [|x l Hx _ IH]; intros acc Hacc.
  - exact Hacc.
  - cbn [fold_left]. apply IH. now apply Hstep.
Qed.

Lemma Forall_filter_holds {A} (f : A -> bool) (l : list A) :
  Forall (fun x => f x = true) (List.filter f l).
Proof.
  apply List.Forall_forall. intros x Hx. now apply List.filter_In in Hx.
Qed.

(** X16. Whatever the amounts are, the income total is never NaN and
    never negative, and the expense total is never NaN and never
    positive: the two sums run over amounts of one sign. The balance is
    not NaN either as long as every amount is finite; with an infinite
    income and an infinite expense, which the form accepts, the balance
    shown is [$NaN]. *)
Theorem totals_never_NaN :
  (forall ts,
      isNaN (income (totals ts)) = false
      /\ strictly_negative (income (totals ts)) = false
      /\ isNaN (expense (totals ts)) = false
      /\ strictly_positive (expense (totals ts)) = false)
  /\ (forall ts,
        Forall (fun t => is_finite (amount t) = true) ts ->
        isNaN (total (totals ts)) = false)
  /\ (reachable infinite_both_ways
      /\ total (totals (transactions (this infinite_both_ways))) = NaN
      /\ balance (this infinite_both_ways) = lit "$NaN").
Proof.
  split; [|split].
  - intros ts. unfold totals. cbn [income expense].
    assert (Hin : reduce_add (List.filter (fun item => gt item zero)
                                (List.map (fun t => amount t) ts)) = S754_zero false
                  \/ strictly_positive
                       (reduce_add (List.filter (fun item => gt item zero)
                                      (List.map (fun t => amount t) ts))) = true).
    { apply (reduce_add_invariant
               (fun r => r = S754_zero false \/ strictly_positive r = true)
               (fun x => strictly_positive x = true)).
      - now left.
      - apply add_positive.
      - eapply Forall_impl; [apply Forall_filter_holds|].
        intros x Hx. cbn beta in Hx. now rewrite gt_zero in Hx. }
    assert (Hex : (exists s, reduce_add (List.filter (fun item => lt item zero)
                                           (List.map (fun t => amount t) ts))
                             = S754_zero s)
                  \/ strictly_negative
                       (reduce_add (List.filter (fun item => lt item zero)
                                      (List.map (fun t => amount t) ts))) = true).
    { apply (reduce_add_invariant
               (fun r => (exists s, r = S754_zero s) \/ strictly_negative r = true)
               (fun x => strictly_negative x = true)).
      - left. now exists false.
      - apply add_negative.
      - eapply Forall_impl; [apply Forall_filter_holds|].
        intros x Hx. cbn beta in Hx. now rewrite lt_zero in Hx. }
    split; [|split; [|split]].
    + clear Hex. destruct Hin as [-> | H]; [reflexivity|].
      now destruct (reduce_add _) as [?|[|]| |[|] ? ?].
    + clear Hex. destruct Hin as [-> | H]; [reflexivity|].
      now destruct (reduce_add _) as [?|[|]| |[|] ? ?].
    + clear Hin. destruct Hex as [[s ->] | H]; [reflexivity|].
      now destruct (reduce_add _) as [?|[|]| |[|] ? ?].
    + clear Hin. destruct Hex as [[s ->] | H]; [reflexivity|].
      now destruct (reduce_add _) as [?|[|]| |[|] ? ?].
  - intros ts Hall. unfold totals. cbn [total].
    apply (reduce_add_invariant (fun acc => isNaN acc = false)
             (fun x => is_finite x = true)).
    + reflexivity.
    + apply add_finite_not_NaN.
    + apply List.Forall_forall. intros x Hx. apply List.in_map_iff in Hx.
      destruct Hx as (t & <- & Ht).
      rewrite List.Forall_forall in Hall. now apply Hall.
  - split; [|split].
    + unfold infinite_both_ways. apply reachable_add. apply reachable_edit.
      apply first_visit_add_reachable.
    + vm_compute. reflexivity.
    + vm_compute. reflexivity.
Qed.

Lemma totals_never_NaN_witness :
  isNaN (total (totals (transactions (this same_millisecond_twice)))) = false.
Proof.
  apply (proj1 (proj2 totals_never_NaN)).
  vm_compute. repeat constructor.
Defined.

(** X17. The three summary texts. With no transaction they read [$0.00],
    [+$0.00] and [-$0.00]. When the total is finite, not zero and below
    [10^21] in magnitude, the balance is the dollar sign, a minus sign
    when the total is negative, an integer part without superfluous zero,
    a dot and exactly two digits, this decimal being the one nearest to
    the exact magnitude of the total; the expense text is [-$] followed by
    such a decimal for the magnitude of the expense total, so it never
    shows two minus signs. *)
Theorem summary_shape (tr : ExpenseTracker) :
  (transactions tr = [] ->
   balance (updateValues tr) = lit "$0.00"
   /\ money_plus (updateValues tr) = lit "+$0.00"
   /\ money_minus (updateValues tr) = lit "-$0.00")
  /\ (forall s m e,
        total (totals (transactions tr)) = S754_finite s m e ->
        fst (exact_ratio m e) < 10 ^ 21 * snd (exact_ratio m e) ->
        exists ip fp,
          balance (updateValues tr)
          = lit "$" ++ (if s then lit "-" else []) ++ ip ++ lit "." ++ fp
          /\ integer_text ip
          /\ length fp = 2%nat
          /\ Forall (fun c => is_digit c = true) fp
          /\ nearest_hundredths (fst (exact_ratio m e)) (snd (exact_ratio m e))
               (digits_value (ip ++ fp)))
  /\ (forall s m e,
        expense (totals (transactions tr)) = S754_finite s m e ->
        fst (exact_ratio m e) < 10 ^ 21 * snd (exact_ratio m e) ->
        exists ip fp,
          money_minus (updateValues tr) = lit "-$" ++ ip ++ lit "." ++ fp
          /\ integer_text ip
          /\ length fp = 2%nat
          /\ Forall (fun c => is_digit c = true) fp
          /\ nearest_hundredths (fst (exact_ratio m e)) (snd (exact_ratio m e))
               (digits_value (ip ++ fp))).
Proof.
  unfold updateValues, with_summary. cbn [balance money_plus money_minus].
  split; [|split].
  - intros ->. repeat split; reflexivity.
  - intros s m e Ht Hlt.
    destruct (toFixed2_finite s m e Hlt) as (ip & fp & E & Hrest).
    exists ip, fp. split; [|exact Hrest]. now rewrite Ht, E.
  - intros s m e He Hlt.
    destruct (toFixed2_finite false m e Hlt) as (ip & fp & E & Hrest).
    exists ip, fp. split; [|exact Hrest]. rewrite He. cbn [Math_abs SFabs].
    now rewrite E.
Qed.

Lemma summary_shape_witness :
  balance (updateValues (this first_visit)) = lit "$0.00"
  /\ money_plus (updateValues (this first_visit)) = lit "+$0.00"
  /\ money_minus (updateValues (this first_visit)) = lit "-$0.00".
Proof.
  apply (proj1 (summary_shape (this first_visit))).
  vm_compute. reflexivity.
Defined.

(* ===================================================================== *)
(** * Opening the page again                                              *)
(* ===================================================================== *)

(** *** The snapshot the class writes can always be read *)

Lemma Transaction_value_numbers_valid (t : Transaction) :
  number_valid (amount t) = true -> numbers_valid (Transaction_value t) = true.
Proof.
  intros Ha. unfold Transaction_value. cbn [numbers_valid forallb snd].
  unfold of_Z. now rewrite of_decimal_valid, Ha.
Qed.

Lemma snapshot_parses (ts : list Transaction) :
  Forall (fun t => number_valid (amount t) = true) ts ->
  JSON_parse (JSON_stringify (VArr (List.map Transaction_value ts)))
  = Normal (VArr (List.map (fun t => carried_value (Transaction_value t)) ts)).
Proof.
  intros Hall. rewrite JSON_parse_stringify.
  - cbn [carried_value]. now rewrite List.map_map.
  - cbn [numbers_valid]. induction Hall as [|t ts Ht _ IH]; [reflexivity|].
    cbn [List.map forallb]. now rewrite Transaction_value_numbers_valid, IH.
Qed.

Lemma populates_strings (cs : list (list N)) :
  populates (VArr (List.map VStr cs)) = true.
Proof.
  unfold populates. induction cs as [|c cs IH]; [reflexivity|]. exact IH.
Qed.

Lemma renders_carried_record (t : Transaction) :
  renders (carried_value (Transaction_value t)) = true.
Proof.
  unfold Transaction_value. cbn [carried_value List.map fst snd].
  destruct (is_finite (of_Z (id t))), (is_finite (amount t)); reflexivity.
Qed.

Lemma renders_snapshot (ts : list Transaction) :
  forallb renders
    (List.map (fun t => carried_value (Transaction_value t)) ts) = true.
Proof.
  induction ts as [|t ts IH]; [reflexivity|].
  cbn [List.map forallb]. now rewrite renders_carried_record, IH.
Qed.

(** X18. The snapshot that the class writes never stops the page from
    opening: whatever the amounts (infinite ones included), the text that
    [updateLocalStorage] stores is JSON text, and restoring it gives an
    array with one object per transaction, each the value that JSON text
    carries for the transaction. This holds in every state the page
    reaches in which the snapshot is the text of the ledger. On such a
    store, with stored categories that are the strings in memory, the
    constructor throws nothing: it builds a tracker, over the records
    when every transaction comes back as a record and over the restored
    values otherwise (an infinite amount comes back as [null]). *)
Theorem own_snapshot_always_loads :
  (forall st,
      Forall (fun t => number_valid (amount t) = true) (transactions (this st)) ->
      load_key (localStorage (updateLocalStorage st)) (lit "transactions")
      = Normal (VArr (List.map (fun t => carried_value (Transaction_value t))
                        (transactions (this st)))))
  /\ (forall st,
        reachable st -> store_in_sync st ->
        load_key (localStorage st) (lit "transactions")
        = Normal (VArr (List.map (fun t => carried_value (Transaction_value t))
                          (transactions (this st)))))
  /\ (forall page st,
        Forall (fun t => number_valid (amount t) = true) (transactions (this st)) ->
        store_in_sync st ->
        categories_in_sync st ->
        (exists st', constructor page (localStorage st) = Constructed st')
        \/ constructor page (localStorage st)
           = BuiltOver
               (VArr (List.map (fun t => carried_value (Transaction_value t))
                        (transactions (this st))))
               (VArr (List.map VStr (categories (this st))))).
Proof.
  assert (H : forall st,
    Forall (fun t => number_valid (amount t) = true) (transactions (this st)) ->
    store_in_sync st ->
    load_key (localStorage st) (lit "transactions")
    = Normal (VArr (List.map (fun t => carried_value (Transaction_value t))
                      (transactions (this st))))).
  { intros st Hall Hsync. rewrite (load_key_present _ _ _ Hsync).
    now rewrite snapshot_parses. }
  split; [|split].
  - intros st Hall. apply (H (updateLocalStorage st)); [exact Hall|].
    apply updateLocalStorage_store_in_sync.
  - intros st Hreach Hsync. apply H; [|exact Hsync].
    now apply reachable_amounts_valid.
  - intros page st Hall Hsync Hcats.
    unfold constructor, load. rewrite (H st Hall Hsync).
    unfold categories_in_sync in Hcats. rewrite Hcats.
    rewrite populates_strings, renders_snapshot. cbn [negb].
    replace (match categorySelect page with Some _ => false | None => false end)
      with false by (now destruct (categorySelect page)).
    destruct (read_all as_Transaction _) as [ts'|]; [|now right].
    destruct (read_all as_category _) as [cs'|]; [left; eauto | now right].
Qed.

Lemma own_snapshot_always_loads_witness :
  load_key (localStorage overflowing_amount) (lit "transactions")
  = Normal (VArr (List.map (fun t => carried_value (Transaction_value t))
                    (transactions (this overflowing_amount)))).
Proof.
  apply (proj1 (proj2 own_snapshot_always_loads) overflowing_amount).
  - apply first_visit_add_reachable.
  - vm_compute. reflexivity.
Defined.

(** *** Deleting an entry *)




Lemma same_millisecond_twice_storable :
  Forall storable (transactions (this same_millisecond_twice)).
Proof.
  assert (E : transactions (this same_millisecond_twice)
              = [ {| id := 7; text := lit "a"; amount := of_Z 1;
                     category := lit "Uncategorized" |};
                  {| id := 7; text := lit "b"; amount := of_Z 2;
                     category := lit "Uncategorized" |} ])
    by (vm_compute; reflexivity).
  rewrite E.
  constructor; [|constructor; [|constructor]];
    (split; [cbn [id]; lia|]; split; [reflexivity|]; split; [reflexivity | discriminate]).
Qed.

(** *** The constructor *)

Lemma of_Z_form (p : positive) :
  Zpos p < 2 ^ 53 ->
  exists m : positive,
    Zpos m = Zpos p * 2 ^ (53 - Zdigits2 (Zpos p))
    /\ 1 <= Zdigits2 (Zpos p) <= 53
    /\ of_Z (Zpos p) = S754_finite false m (Zdigits2 (Zpos p) - 53).
Proof.
  intros Hn. unfold of_Z.
  replace (Zpos p <? 0) with false by reflexivity.
  rewrite Z.abs_eq by lia.
  pose proof (Zdigits2_bounds p) as [Hlo Hhi].
  set (d := Zdigits2 (Zpos p)) in *.
  assert (Hd1 : 1 <= d) by (unfold d; simpl; lia).
  assert (Hd53 : d <= 53).
  { destruct (Z.le_gt_cases d 53) as [H|H]; [exact H|].
    assert (2 ^ 53 <= 2 ^ (d - 1)) by (apply Z.pow_le_mono_r; lia). lia. }
  assert (Hpow : 0 < 2 ^ (53 - d)) by (apply Z.pow_pos_nonneg; lia).
  set (m := Z.to_pos (Zpos p * 2 ^ (53 - d))).
  assert (Hm : Zpos m = Zpos p * 2 ^ (53 - d)) by (unfold m; apply Z2Pos.id; lia).
  exists m. split; [exact Hm|]. split; [lia|].
  assert (Hb : bounded prec emax m (d - 53) = true).
  { unfold bounded, canonical_mantissa. apply andb_true_iff. split.
    - apply Z.eqb_eq.
      change (Zpos (digits2_pos m)) with (Zdigits2 (Zpos m)).
      rewrite Hm, Zdigits2_mul_pow2 by lia. fold d.
      unfold fexp, emin, prec, emax. lia.
    - apply Z.leb_le. unfold prec, emax. lia. }
  unfold of_decimal. apply round_Q_exact; [exact Hb|].
  unfold decimal_Q, float_Q, Qeq. cbn [Z.leb Z.compare Z.pow Qnum Qden inject_Z].
  destruct (0 <=? d - 53) eqn:He.
  - apply Z.leb_le in He. assert (d = 53) by lia.
    cbn [Qnum Qden inject_Z]. rewrite Hm.
    replace (53 - d) with 0 by lia. replace (d - 53) with 0 by lia. simpl. lia.
  - apply Z.leb_gt in He. cbn [Qnum Qden].
    rewrite pos_pow by lia. rewrite Hm.
    replace (- (d - 53)) with (53 - d) by lia. lia.
Qed.

Lemma to_Z_of_Z (n : Z) : 0 <= n < 2 ^ 53 -> to_Z (of_Z n) = Some n.
Proof.
  intros Hn. destruct n as [|p|p]; [reflexivity| |lia].
  destruct (of_Z_form p ltac:(lia)) as (m & Hm & Hd & ->).
  set (d := Zdigits2 (Zpos p)) in *.
  assert (Hpow : 0 < 2 ^ (53 - d)) by (apply Z.pow_pos_nonneg; lia).
  unfold to_Z, exact_ratio. destruct (0 <=? d - 53) eqn:He.
  - apply Z.leb_le in He. replace (d - 53) with 0 by lia.
    replace (53 - d) with 0 in Hm by lia.
    rewrite Z.mod_1_r, Z.div_1_r. cbn [Z.eqb]. f_equal. rewrite Hm. simpl. lia.
  - replace (- (d - 53)) with (53 - d) by lia. rewrite Hm.
    rewrite Z.mod_mul by lia. cbn [Z.eqb]. f_equal. apply Z.div_mul. lia.
Qed.

Lemma as_Transaction_value (t : Transaction) :
  0 <= id t < 2 ^ 53 -> as_Transaction (Transaction_value t) = Some t.
Proof.
  intros Hid. unfold as_Transaction, Transaction_value.
  replace (jsstring_eqb (lit "id") (lit "id") && jsstring_eqb (lit "text") (lit "text")
           && jsstring_eqb (lit "amount") (lit "amount")
           && jsstring_eqb (lit "category") (lit "category")) with true
    by reflexivity.
  rewrite to_Z_of_Z by exact Hid.
  unfold same_value. rewrite bool_decide_eq_true_2 by reflexivity.
  now destruct t.
Qed.

Lemma as_Transaction_sound (v : value) (t : Transaction) :
  as_Transaction v = Some t -> Transaction_value t = v.
Proof.
  unfold as_Transaction. intros H.
  destruct v as [| | | |items|props]; try discriminate.
  destruct props as [|[k1 [| |i| | |]] [|[k2 [| | |s| |]] [|[k3 [| |a| | |]]
    [|[k4 [| | |c| |]] [|]]]]]; try discriminate.
  destruct (jsstring_eqb k1 (lit "id")) eqn:E1; [|discriminate].
  destruct (jsstring_eqb k2 (lit "text")) eqn:E2; [|discriminate].
  destruct (jsstring_eqb k3 (lit "amount")) eqn:E3; [|discriminate].
  destruct (jsstring_eqb k4 (lit "category")) eqn:E4; [|discriminate].
  cbn [andb] in H.
  destruct (to_Z i) as [n|]; [|discriminate].
  destruct (same_value (of_Z n) i) eqn:Ei; [|discriminate].
  injection H as <-.
  apply bool_decide_eq_true in E1, E2, E3, E4, Ei. subst.
  reflexivity.
Qed.

Lemma read_all_Transactions (ts : list Transaction) :
  Forall (fun t => 0 <= id t < 2 ^ 53) ts ->
  read_all as_Transaction (List.map Transaction_value ts) = Some ts.
Proof.
  induction 1 as [|t ts Ht _ IH]; [reflexivity|].
  cbn [List.map read_all]. now rewrite as_Transaction_value, IH.
Qed.

Lemma read_all_categories (cs : list (list N)) :
  read_all as_category (List.map VStr cs) = Some cs.
Proof.
  induction cs as [|c cs IH]; [reflexivity|].
  cbn [List.map read_all as_category]. now rewrite IH.
Qed.

Lemma renders_records (ts : list Transaction) :
  forallb renders (List.map Transaction_value ts) = true.
Proof. induction ts as [|t ts IH]; [reflexivity|]. exact IH. Qed.

Lemma load_in_sync (st : State) :
  store_in_sync st ->
  categories_in_sync st ->
  Forall storable (transactions (this st)) ->
  load (localStorage st)
  = Normal (VArr (List.map Transaction_value (transactions (this st))),
            VArr (List.map VStr (categories (this st)))).
Proof.
  intros Hstore Hcats Hall. unfold load.
  rewrite (load_key_present _ _ _ Hstore).
  rewrite stored_transactions_read_back by exact Hall.
  unfold categories_in_sync in Hcats. now rewrite Hcats.
Qed.

(** X20. Opening the page again restores it. Take a state in which the
    snapshot is the text of the ledger, the stored categories are the
    ones in memory, and every transaction is storable (an identifier
    that is a time value, a finite amount other than the negative zero).
    Then the constructor, run on any page over the same store, does not
    throw and builds a tracker with the same transactions in the same
    order, the same categories and an untouched store, whose list and
    summaries show that ledger: they are the ones the earlier page showed
    if it showed its ledger. *)
Theorem refresh_restores_page (page : ExpenseTracker) (st : State) :
  store_in_sync st ->
  categories_in_sync st ->
  Forall storable (transactions (this st)) ->
  exists st',
    constructor page (localStorage st) = Constructed st'
    /\ transactions (this st') = transactions (this st)
    /\ categories (this st') = categories (this st)
    /\ localStorage st' = localStorage st
    /\ (categorySelect page <> None ->
        option_values (this st') = [] :: categories (this st))
    /\ view_in_sync (this st')
    /\ (view_in_sync (this st) ->
        list_items (this st') = list_items (this st)
        /\ balance (this st') = balance (this st)
        /\ money_plus (this st') = money_plus (this st)
        /\ money_minus (this st') = money_minus (this st)).
Proof.
  intros Hstore Hcats Hall.
  unfold constructor. rewrite (load_in_sync st Hstore Hcats Hall).
  rewrite populates_strings, renders_records. cbn [negb].
  replace (match categorySelect page with Some _ => false | None => false end)
    with false by (now destruct (categorySelect page)).
  rewrite read_all_categories.
  rewrite read_all_Transactions
    by (eapply Forall_impl; [exact Hall|]; intros t Ht; apply Ht).
  eexists. split; [reflexivity|]. cbn [this localStorage].
  rewrite init_transactions, init_categories. cbn [transactions categories].
  split; [reflexivity|]. split; [reflexivity|]. split; [reflexivity|].
  split; [intros Hsel; now rewrite option_values_init|].
  match goal with
  | |- view_in_sync (init ?tr) /\ _ =>
      pose proof (init_view_in_sync tr) as V;
      pose proof (init_transactions tr) as T
  end.
  cbn [transactions] in T.
  split; [exact V|].
  intros (Hl & Hb & Hp & Hm). destruct V as (Vl & Vb & Vp & Vm).
  rewrite Vl, Vb, Vp, Vm, T, Hl, Hb, Hp, Hm. repeat split; reflexivity.
Qed.

Lemma refresh_restores_page_witness :
  exists st',
    constructor (this first_visit) (localStorage same_millisecond_twice)
    = Constructed st'
    /\ transactions (this st') = transactions (this same_millisecond_twice).
Proof.
  destruct (refresh_restores_page (this first_visit) same_millisecond_twice)
    as (st' & E & Ht & _).
  - vm_compute. reflexivity.
  - vm_compute. reflexivity.
  - apply same_millisecond_twice_storable.
  - exists st'. split; [exact E | exact Ht].
Defined.





(** *** What JSON text carries *)

(** X22. The round trip behind the snapshot: for every value whose
    Numbers are binary64 values, [JSON.parse] applied to the text that
    [JSON.stringify] writes does not throw and returns the value that JSON
    text carries: the value itself, except that a Number that is not
    finite comes back as [null], the negative zero as zero, and the
    properties of an object in creation order. A string comes back as it
    was, whatever code units it holds (quotes, control characters, lone
    surrogates), and a finite Number other than the negative zero comes
    back as the same Number from its shortest decimal text. *)
Theorem JSON_text_round_trip :
  (forall v,
      numbers_valid v = true ->
      JSON_parse (JSON_stringify v) = Normal (carried_value v))
  /\ (forall s, JSON_parse (JSON_stringify (VStr s)) = Normal (VStr s))
  /\ (forall x,
        number_valid x = true -> is_finite x = true -> x <> S754_zero true ->
        JSON_parse (Number_toString x) = Normal (VNum x)).
Proof.
  split; [|split].
  - apply JSON_parse_stringify.
  - intros s. now rewrite JSON_parse_stringify.
  - intros x Hv Hf Hz.
    pose proof (JSON_parse_stringify (VNum x) Hv) as H.
    cbn [JSON_stringify carried_value] in H. rewrite Hf in H. rewrite H.
    destruct x as [[|]| | |]; try reflexivity. now destruct Hz.
Qed.

Lemma JSON_text_round_trip_witness :
  JSON_parse (Number_toString (of_decimal true 225 (-2)))
  = Normal (VNum (of_decimal true 225 (-2))).
Proof.
  apply (proj2 (proj2 JSON_text_round_trip)).
  - apply of_decimal_valid.
  - vm_compute. reflexivity.
  - vm_compute. discriminate.
Defined.

(* ===================================================================== *)
(** * When the store refuses the write                                    *)
(* ===================================================================== *)

(** *** C3 *)

(** C3, as the claim states it, fails: when the browser refuses the write
    (here a store that is full), the handler is left by the exception
    after the transaction was pushed. The call neither succeeded (nothing
    is stored, nothing is listed) nor left everything as it was (the
    array in memory holds the new transaction). *)
Lemma refused_write_is_partial :
  fst refused_write = Uncaught QuotaExceededError
  /\ transactions (this first_visit) = []
  /\ List.map text (transactions (this (snd refused_write))) = [lit "Rent"]
  /\ localStorage (snd refused_write) = localStorage first_visit
  /\ list_items (this (snd refused_write)) = [].
Proof. repeat split; vm_compute; reflexivity. Qed.

(** C3, amended. A submission ends in one of three ways. It is rejected
    by one of the two validation alerts, and the whole state, the stored
    snapshot included, is as it was. Or it goes through completely: the
    browser accepts the write, the transaction is appended to the array
    and the whole array is written to [localStorage], the categories
    being untouched. Or the browser refuses the write and the
    QuotaExceededError of [localStorage.setItem] leaves the handler: the
    transaction stays appended to the array in memory, while the store,
    the categories, the list, the summaries and the form are as they
    were. When the browser accepts the write the third way is excluded,
    and the call is the one of a run without refusals. *)
Theorem addTransaction_all_nothing_or_interrupted
    (accepts : Browser) (now : Z) (st : State) :
  (((fst (addTransaction_or_throw accepts now st) = Returned EmptyInput
     \/ fst (addTransaction_or_throw accepts now st) = Returned InvalidNumber)
    /\ snd (addTransaction_or_throw accepts now st) = st)
   \/ (exists t,
         fst (addTransaction_or_throw accepts now st) = Returned (Added t)
         /\ accepts (localStorage st) (lit "transactions")
              (snapshot_after_add now st) = true
         /\ transactions (this (snd (addTransaction_or_throw accepts now st)))
            = transactions (this st) ++ [t]
         /\ categories (this (snd (addTransaction_or_throw accepts now st)))
            = categories (this st)
         /\ localStorage (snd (addTransaction_or_throw accepts now st))
            = <[ lit "transactions" :=
                   JSON_stringify
                     (VArr (List.map Transaction_value
                              (transactions (this st) ++ [t]))) ]>
                (localStorage st))
   \/ (fst (addTransaction_or_throw accepts now st) = Uncaught QuotaExceededError
       /\ accepts (localStorage st) (lit "transactions")
            (snapshot_after_add now st) = false
       /\ transactions (this (snd (addTransaction_or_throw accepts now st)))
          = transactions (this st) ++ [built now st]
       /\ categories (this (snd (addTransaction_or_throw accepts now st)))
          = categories (this st)
       /\ localStorage (snd (addTransaction_or_throw accepts now st))
          = localStorage st
       /\ list_items (this (snd (addTransaction_or_throw accepts now st)))
          = list_items (this st)
       /\ balance (this (snd (addTransaction_or_throw accepts now st)))
          = balance (this st)
       /\ money_plus (this (snd (addTransaction_or_throw accepts now st)))
          = money_plus (this st)
       /\ money_minus (this (snd (addTransaction_or_throw accepts now st)))
          = money_minus (this st)
       /\ text_value (this (snd (addTransaction_or_throw accepts now st)))
          = text_value (this st)
       /\ amount_value (this (snd (addTransaction_or_throw accepts now st)))
          = amount_value (this st)))
  /\ (accepts (localStorage st) (lit "transactions") (snapshot_after_add now st)
      = true ->
      addTransaction_or_throw accepts now st
      = (Returned (fst (addTransaction now st)), snd (addTransaction now st))).
Proof.
  split.
  - destruct (addTransaction_or_throw_cases accepts now st)
      as [(message & Hm & E) | [(Ht & Hacc & E) | (Ht & Hacc & E)]]; rewrite E;
      cbn [fst snd].
    + left. split; [|reflexivity].
      destruct (addTransaction_path now st) as [_ E' | _ _ _ E' | _ _ _ E'];
        rewrite E' in Hm; cbn [fst] in Hm.
      * left. now rewrite <- Hm.
      * right. now rewrite <- Hm.
      * discriminate.
    + right. left. exists (built now st).
      split; [reflexivity|]. split; [exact Hacc|].
      unfold after_add. cbn [this localStorage].
      repeat split; now destruct (this st).
    + right. right. split; [reflexivity|]. split; [exact Hacc|].
      unfold pushed. cbn [this localStorage].
      repeat split; now destruct (this st).
  - intros Hacc. rewrite addTransaction_or_throw_eq.
    destruct (addTransaction_path now st) as [_ E | _ _ _ E | _ _ _ E]; rewrite E;
      cbn [fst snd]; try reflexivity.
    now rewrite Hacc.
Qed.

Lemma addTransaction_all_nothing_or_interrupted_witness :
  addTransaction_or_throw roomy 7
    (fill (lit "Rent") (lit "5") (lit "expense") None first_visit)
  = (Returned
       (fst (addTransaction 7
               (fill (lit "Rent") (lit "5") (lit "expense") None first_visit))),
     snd (addTransaction 7
            (fill (lit "Rent") (lit "5") (lit "expense") None first_visit))).
Proof.
  apply (proj2 (addTransaction_all_nothing_or_interrupted roomy 7
                  (fill (lit "Rent") (lit "5") (lit "expense") None first_visit))).
  reflexivity.
Defined.
